(** * ClickORM SQL builder: a shallow embedding of [src/utils/sql-builder.ts]

  The development follows the source file top to bottom:

  - the fragments of the JavaScript runtime the builder relies on
    (strings, arrays of strings, anchored regular expressions, numbers);
  - the [SQLBuilder] class as a state-and-exception monad over the record
    of its three private fields;
  - the statement factories [buildSelect], [buildInsert], [buildUpdate]
    and [buildDelete];
  - the WHERE-condition compiler, which the specification describes but
    whose source is not part of [sql-builder.ts];
  - the properties of the specification, one theorem per claim. *)

From Stdlib Require Import Bool List ZArith NArith Lia.
From Stdlib Require Import Ascii String DecimalString DecimalN DecimalPos.
From Stdlib Require Import Floats.PrimFloat Floats.FloatOps Floats.SpecFloat.
From Stdlib Require Floats.FloatAxioms QArith Qround.
Import ListNotations.

Set Warnings "-register-all".

Local Open Scope list_scope.
Local Open Scope string_scope.

(* ================================================================== *)
(** ** JavaScript strings *)
(* ================================================================== *)

(** Strings are sequences of character codes.  Every character the builder
  inspects (letters, digits, [_], [.], the backtick) is an ASCII one, so
  a code unit is modelled by [ascii]. *)

Module JsString.

(** [Array.prototype.join] on an array of strings. *)
Definition join (sep : string) (parts : list string) : string :=
  String.concat sep parts.

(** [String.prototype.split] for a separator of one character. *)
Fixpoint split (sep : ascii) (s : string) : list string :=
  match s with
  | EmptyString => [EmptyString]
  | String c rest =>
      if Ascii.eqb c sep then EmptyString :: split sep rest
      else match split sep rest with
           | [] => [String c EmptyString]
           | tok :: toks => String c tok :: toks
           end
  end.

(** [String.prototype.replace] with a global one-character pattern. *)
Fixpoint replaceAll (c : ascii) (by_ : string) (s : string) : string :=
  match s with
  | EmptyString => EmptyString
  | String d rest =>
      if Ascii.eqb d c then by_ ++ replaceAll c by_ rest
      else String d (replaceAll c by_ rest)
  end.

(** [String.prototype.includes]. *)
Fixpoint includes (s sub : string) : bool :=
  String.prefix sub s
  || match s with
     | EmptyString => false
     | String _ rest => includes rest sub
     end.

(** [Array.prototype.includes] on an array of strings. *)
Definition array_includes (l : list string) (x : string) : bool :=
  existsb (String.eqb x) l.

(** Every character of the string satisfies [p]. *)
Fixpoint all_chars (p : ascii -> bool) (s : string) : bool :=
  match s with
  | EmptyString => true
  | String c rest => p c && all_chars p rest
  end.

(** The character occurs in the string. *)
Fixpoint has_char (c : ascii) (s : string) : bool :=
  match s with
  | EmptyString => false
  | String d rest => Ascii.eqb d c || has_char c rest
  end.

(** Decimal rendering of a non-negative integer, as a template literal
    renders a small integral number. *)
Definition of_N (n : N) : string :=
  NilZero.string_of_uint (N.to_uint n).

End JsString.

(* ================================================================== *)
(** ** Anchored regular expressions *)
(* ================================================================== *)

(** The only regular expression of the source is the identifier pattern, a
  regular expression in the strict sense, tested between [^] and [$]
  without flags: the test succeeds iff the whole string is in the
  language.  The matcher works by derivatives. *)

Module RegExp.

Inductive regex : Type :=
| Void                                  (* matches nothing *)
| Eps                                   (* the empty string *)
| Class (p : ascii -> bool)             (* a character class *)
| Cat (r1 r2 : regex)                   (* r1 r2 *)
| Alt (r1 r2 : regex)                   (* r1 | r2 *)
| Star (r : regex).                     (* r* *)

Fixpoint nullable (r : regex) : bool :=
  match r with
  | Void => false
  | Eps => true
  | Class _ => false
  | Cat r1 r2 => nullable r1 && nullable r2
  | Alt r1 r2 => nullable r1 || nullable r2
  | Star _ => true
  end.

Fixpoint deriv (c : ascii) (r : regex) : regex :=
  match r with
  | Void => Void
  | Eps => Void
  | Class p => if p c then Eps else Void
  | Cat r1 r2 =>
      if nullable r1 then Alt (Cat (deriv c r1) r2) (deriv c r2)
      else Cat (deriv c r1) r2
  | Alt r1 r2 => Alt (deriv c r1) (deriv c r2)
  | Star r1 => Cat (deriv c r1) (Star r1)
  end.

(** [/^r$/.test(s)] *)
Fixpoint test (r : regex) (s : string) : bool :=
  match s with
  | EmptyString => nullable r
  | String c rest => test (deriv c r) rest
  end.

(** The language of a regular expression. *)
Inductive Matches : regex -> string -> Prop :=
| M_eps : Matches Eps ""
| M_class p c : p c = true -> Matches (Class p) (String c "")
| M_cat r1 r2 s1 s2 :
    Matches r1 s1 -> Matches r2 s2 -> Matches (Cat r1 r2) (s1 ++ s2)
| M_alt_l r1 r2 s : Matches r1 s -> Matches (Alt r1 r2) s
| M_alt_r r1 r2 s : Matches r2 s -> Matches (Alt r1 r2) s
| M_star_nil r : Matches (Star r) ""
| M_star_cons r c s1 s2 :
    Matches r (String c s1) -> Matches (Star r) s2 ->
    Matches (Star r) (String c s1 ++ s2).

(** Character ranges, as written between brackets. *)
Definition range (lo hi : ascii) (c : ascii) : bool :=
  Ascii.leb lo c && Ascii.leb c hi.

End RegExp.

(* ================================================================== *)
(** ** Identifiers *)
(* ================================================================== *)

Module Ident.
Import RegExp.

(** [[a-zA-Z_]] *)
Definition start_char (c : ascii) : bool :=
  range "a" "z" c || range "A" "Z" c || Ascii.eqb c "_".

(** [[a-zA-Z0-9_]] *)
Definition word_char (c : ascii) : bool :=
  range "a" "z" c || range "A" "Z" c || range "0" "9" c || Ascii.eqb c "_".

(** [\.] *)
Definition dot_char (c : ascii) : bool := Ascii.eqb c ".".

(** A token: [[a-zA-Z_]] followed by any number of [[a-zA-Z0-9_]]. *)
Definition token_re : regex :=
  Cat (Class start_char) (Star (Class word_char)).

(** The group that may follow a token: a dot and a token. *)
Definition group_re : regex :=
  Cat (Class dot_char) (Cat (Class start_char) (Star (Class word_char))).

(** The pattern of [validateIdentifier]: a token, then any number of
    groups made of a dot and a token, between [^] and [$]. *)
Definition identifier_re : regex :=
  Cat (Class start_char) (Cat (Star (Class word_char)) (Star group_re)).

(** The specification's reading of the pattern: the name is split on
    [.] and every token is a letter or underscore followed by letters,
    digits and underscores. *)
Definition valid_token (t : string) : bool :=
  match t with
  | EmptyString => false
  | String c rest => start_char c && JsString.all_chars word_char rest
  end.

Definition valid_name (name : string) : bool :=
  forallb valid_token (JsString.split "." name).

(** A token between backticks. *)
Definition backticked (t : string) : string := "`" ++ t ++ "`".

(** The specification's reading of the escaper: every token wrapped in
    backticks, the wrapped tokens joined by [.]. *)
Definition quoted_name (name : string) : string :=
  JsString.join "." (map backticked (JsString.split "." name)).

(** Tokens after the first one, each behind its dot. *)
Fixpoint dotted (ts : list string) : string :=
  match ts with
  | [] => ""
  | t :: rest => String "." t ++ dotted rest
  end.

End Ident.

(* ================================================================== *)
(** ** Runtime values *)
(* ================================================================== *)

(** The builder receives values of type [unknown] and tells them apart
    with [typeof], [instanceof Date], [Array.isArray] and comparisons with
    [null] and [undefined].  A number is an IEEE 754 binary64 float; a
    [Date] is known by its time value, the number [getTime()] returns. *)

Inductive JsValue : Type :=
| VUndefined
| VNull
| VBoolean (b : bool)
| VNumber (x : float)
| VBigInt (z : Z)
| VString (s : string)
| VSymbol (description : string)
| VFunction (name : string)
| VDate (time : float)
| VArray (items : list JsValue)
| VObject (props : list (string * JsValue)).

(** [Record<string, unknown>]: the own enumerable properties of a plain
    object, in the order [Object.keys] and [Object.entries] list them.
    What a plain object does not own it inherits from
    [Object.prototype]. *)
Definition JsRecord : Type := list (string * JsValue).

(** Modelled from the spec: the error classes are declared in
    [core/errors.js], outside this file.  The injection-class error is
    built from a message and, for identifiers, the offending string.
    [TypeError] is what [JSON.stringify] throws. *)
Inductive Error : Type :=
| SQLInjectionError (message : string) (value : option string)
| TypeError (message : string).

Inductive Result (A : Type) : Type :=
| Ok (a : A)
| Throw (e : Error).
Arguments Ok {A} a.
Arguments Throw {A} e.

Module Js.

Definition typeof (v : JsValue) : string :=
  match v with
  | VUndefined => "undefined"
  | VNull => "object"
  | VBoolean _ => "boolean"
  | VNumber _ => "number"
  | VBigInt _ => "bigint"
  | VString _ => "string"
  | VSymbol _ => "symbol"
  | VFunction _ => "function"
  | VDate _ => "object"
  | VArray _ => "object"
  | VObject _ => "object"
  end.

(** [v instanceof Date] *)
Definition instanceof_Date (v : JsValue) : bool :=
  match v with VDate _ => true | _ => false end.

(** [Array.isArray(v)] *)
Definition Array_isArray (v : JsValue) : bool :=
  match v with VArray _ => true | _ => false end.

(** [v === null] and [v === undefined] *)
Definition is_null (v : JsValue) : bool :=
  match v with VNull => true | _ => false end.

Definition is_undefined (v : JsValue) : bool :=
  match v with VUndefined => true | _ => false end.

(** [Date.prototype.getTime]: the time value in milliseconds, NaN for an
    invalid date. *)
Definition getTime (v : JsValue) : float :=
  match v with VDate t => t | _ => nan end.

(** The test of a conditional on a boolean. *)
Definition is_true (v : JsValue) : bool :=
  match v with VBoolean b => b | _ => false end.

(** The real value of a finite float is [(-1)^s * m * 2^e]. *)
Definition Number_isInteger_float (x : float) : bool :=
  match Prim2SF x with
  | S754_zero _ => true
  | S754_finite _ m e =>
      (0 <=? e)%Z || (Z.pos m mod 2 ^ (- e) =? 0)%Z
  | S754_infinity _ => false
  | S754_nan => false
  end.

(** [Number.isInteger(v)] *)
Definition Number_isInteger (v : JsValue) : bool :=
  match v with VNumber x => Number_isInteger_float x | _ => false end.

(** [Math.floor(x)]: zeros, infinities and NaN are returned unchanged, and
    so is a finite float without fractional bits; otherwise the magnitude
    is below 2^53 and the integer below it is a float. *)
Definition Math_floor (x : float) : float :=
  match Prim2SF x with
  | S754_finite s m e =>
      if (0 <=? e)%Z then x
      else
        let q := ((if s then Z.neg m else Z.pos m) / 2 ^ (- e))%Z in
        if (q =? 0)%Z then PrimFloat.zero
        else SF2Prim (binary_normalize prec emax q 0 false)
  | _ => x
  end.

(** The part of the runtime library that is taken as given:
    [String(x)] on a number and [JSON.stringify] on an object, which
    returns the JSON text, or [undefined] (here [None]: a [toJSON] method
    that returns [undefined], a function or a symbol), or throws (a
    cycle, a BigInt inside). *)
Class Runtime : Type := {
  String_of_number : float -> string;
  JSON_stringify : JsValue -> Result (option string)
}.

(** [Object.keys] and [Object.entries]. *)
Definition Object_keys (r : JsRecord) : list string := map fst r.

Definition Object_entries (r : JsRecord) : list (string * JsValue) := r.

(** The own property of the name, when there is one. *)
Fixpoint own (r : JsRecord) (field : string) : option JsValue :=
  match r with
  | [] => None
  | (k, v) :: rest => if String.eqb k field then Some v else own rest field
  end.

(** The properties of [Object.prototype], none of them enumerable: the
    constructor, the methods, and the accessor [__proto__], which reads
    as the prototype of the object it is read on, that is
    [Object.prototype] itself, an object without enumerable
    properties. *)
Definition Object_prototype : list (string * JsValue) :=
  [("constructor", VFunction "Object");
   ("__defineGetter__", VFunction "__defineGetter__");
   ("__defineSetter__", VFunction "__defineSetter__");
   ("hasOwnProperty", VFunction "hasOwnProperty");
   ("__lookupGetter__", VFunction "__lookupGetter__");
   ("__lookupSetter__", VFunction "__lookupSetter__");
   ("isPrototypeOf", VFunction "isPrototypeOf");
   ("propertyIsEnumerable", VFunction "propertyIsEnumerable");
   ("toString", VFunction "toString");
   ("valueOf", VFunction "valueOf");
   ("__proto__", VObject []);
   ("toLocaleString", VFunction "toLocaleString")].

(** The property read [record[field]]: the own property, else the one
    inherited from [Object.prototype], else [undefined]. *)
Definition get (r : JsRecord) (field : string) : JsValue :=
  match own r field with
  | Some v => v
  | None =>
      match own Object_prototype field with
      | Some v => v
      | None => VUndefined
      end
  end.

(** Truthiness of an optional string argument: absent and empty are
    both falsy. *)
Definition truthy (o : option string) : bool :=
  match o with
  | None => false
  | Some s => negb (String.eqb s "")
  end.

Definition the_string (o : option string) : string :=
  match o with None => "" | Some s => s end.

End Js.

(* ================================================================== *)
(** ** The builder monad *)
(* ================================================================== *)

(** The three private fields of the class. *)
Record SQLBuilder : Type := {
  parts : list string;
  parameters : list JsValue;
  paramCounter : N
}.

(** [new SQLBuilder()] *)
Definition newSQLBuilder : SQLBuilder :=
  {| parts := []; parameters := []; paramCounter := 0 |}.

(** A method reads and updates the fields of [this] and either returns or
    throws; what it wrote before throwing stays written. *)
Definition M (A : Type) : Type := SQLBuilder -> Result A * SQLBuilder.

Definition ret {A} (a : A) : M A := fun b => (Ok a, b).

Definition throw {A} (e : Error) : M A := fun b => (Throw e, b).

Definition bind {A B} (m : M A) (k : A -> M B) : M B :=
  fun b =>
    match m b with
    | (Ok a, b') => k a b'
    | (Throw e, b') => (Throw e, b')
    end.

Declare Scope builder_scope.
Delimit Scope builder_scope with builder.
Notation "x <- m ;; k" := (bind m (fun x => k))
  (at level 61, m at next level, right associativity) : builder_scope.
Notation "m ;; k" := (bind m (fun _ => k))
  (at level 61, right associativity) : builder_scope.
Local Open Scope builder_scope.

(** [Array.prototype.map] with a callback that runs in the monad: the
    elements are visited left to right and the first throw ends the visit. *)
Definition mapM {A B} (f : A -> M B) : list A -> M (list B) :=
  fix go (l : list A) : M (list B) :=
    match l with
    | [] => ret []
    | x :: rest => y <- f x ;; ys <- go rest ;; ret (y :: ys)
    end.

(** [Array.prototype.forEach] *)
Definition forEach {A} (f : A -> M unit) : list A -> M unit :=
  fix go (l : list A) : M unit :=
    match l with
    | [] => ret tt
    | x :: rest => f x ;; go rest
    end.

(** A result coming from the runtime, thrown or returned as it is. *)
Definition lift {A} (r : Result A) : M A := fun b => (r, b).

(** [this.parts.push(s)] *)
Definition push_part (s : string) : M unit :=
  fun b => (Ok tt, {| parts := (parts b ++ [s])%list;
                      parameters := parameters b;
                      paramCounter := paramCounter b |}).

(** [this.parameters.push(v)] *)
Definition push_parameter (v : JsValue) : M unit :=
  fun b => (Ok tt, {| parts := parts b;
                      parameters := (parameters b ++ [v])%list;
                      paramCounter := paramCounter b |}).

(** [this.paramCounter++] *)
Definition next_paramCounter : M N :=
  fun b => (Ok (paramCounter b),
            {| parts := parts b;
               parameters := parameters b;
               paramCounter := paramCounter b + 1 |}).

(** [this.parts.join(' ')] *)
Definition joined_parts : M string :=
  fun b => (Ok (JsString.join " " (parts b)), b).

(* ================================================================== *)
(** ** The class [SQLBuilder] *)
(* ================================================================== *)

(** [identifier] accepts a string or an [SQLIdentifier].
    Modelled from the spec: [SQLIdentifier] is declared in
    [core/types.js]; it is a wrapper around the name, read through its
    field [value]. *)
Record SQLIdentifier : Type := { value : string }.

Inductive NameArg : Type :=
| NameString (name : string)
| NameIdentifier (name : SQLIdentifier).

Inductive Direction : Type := ASC | DESC.

Inductive JoinType : Type := INNER | LEFT | RIGHT | FULL | CROSS.

(** The object [build()] returns. *)
Record Built : Type := mkBuilt { sql : string; params : list JsValue }.

Module Builder.
Import Js.

Section Methods.
Context {rt : Runtime}.

Definition Direction_text (d : Direction) : string :=
  match d with ASC => "ASC" | DESC => "DESC" end.

Definition JoinType_text (t : JoinType) : string :=
  match t with
  | INNER => "INNER" | LEFT => "LEFT" | RIGHT => "RIGHT"
  | FULL => "FULL" | CROSS => "CROSS"
  end.

Definition JoinType_eqb (t u : JoinType) : bool :=
  match t, u with
  | INNER, INNER | LEFT, LEFT | RIGHT, RIGHT | FULL, FULL | CROSS, CROSS => true
  | _, _ => false
  end.

Definition raw (sql : string) : M unit := push_part sql.

Definition invalid_identifier_message (identifier : string) : string :=
  "Invalid identifier: " ++ identifier ++
  ". Identifiers must start with a letter or underscore and contain only alphanumeric characters, underscores, or dots.".

Definition validateIdentifier (identifier : string) : M unit :=
  if negb (RegExp.test Ident.identifier_re identifier) then
    throw (SQLInjectionError (invalid_identifier_message identifier)
                             (Some identifier))
  else ret tt.

Definition escapeIdentifier (identifier : string) : string :=
  let parts := JsString.split "." identifier in
  JsString.join "."
    (map (fun part => "`" ++ JsString.replaceAll "`" "``" part ++ "`") parts).

Definition inferClickHouseType (value originalValue : JsValue) : string :=
  if negb (is_undefined originalValue)
     && String.eqb (typeof originalValue) "boolean" then "UInt8"
  else if instanceof_Date originalValue then "DateTime"
  else if is_null value || is_undefined value then "Nullable(String)"
  else
    let type := typeof value in
    if String.eqb type "number" then
      if Number_isInteger value then "Int32" else "Float64"
    else if String.eqb type "bigint" then "Int64"
    else if String.eqb type "string" then "String"
    else if String.eqb type "boolean" then "UInt8"
    else if String.eqb type "object" then
      if instanceof_Date value then "DateTime"
      else if Array_isArray value then "Array(String)"
      else "String"
    else "String".

(** The conversion at the head of [param]: the value that is stored, or
    the throw of [JSON.stringify].  What [JSON.stringify] returns is
    stored as it is, a text or [undefined]. *)
Definition paramValue_of (value : JsValue) : Result JsValue :=
  if instanceof_Date value then
    Ok (VNumber (Math_floor (PrimFloat.div (getTime value) 1000)))
  else if String.eqb (typeof value) "boolean" then
    Ok (VNumber (if is_true value then 1 else 0)%float)
  else if String.eqb (typeof value) "object"
          && negb (is_null value)
          && negb (Array_isArray value)
          && negb (instanceof_Date value) then
    match JSON_stringify value with
    | Ok (Some text) => Ok (VString text)
    | Ok None => Ok VUndefined
    | Throw e => Throw e
    end
  else Ok value.

Definition param (value : JsValue) : M string :=
  let originalValue := value in
  paramValue <- lift (paramValue_of value) ;;
  push_parameter paramValue ;;
  n <- next_paramCounter ;;
  let placeholder :=
    "{param" ++ JsString.of_N n ++ ":"
    ++ inferClickHouseType paramValue originalValue ++ "}" in
  ret placeholder.

Definition params (values : list JsValue) : M (list string) :=
  mapM param values.

Definition identifier (name : NameArg) : M string :=
  let value :=
    match name with
    | NameString s => s
    | NameIdentifier id => id.(value)
    end in
  validateIdentifier value ;;
  ret (escapeIdentifier value).

Definition identifiers (names : list string) : M (list string) :=
  mapM (fun n => identifier (NameString n)) names.

Definition select (fields : list string) : M unit :=
  if (List.length fields =? 0)%nat then
    throw (SQLInjectionError "SELECT fields cannot be empty" None)
  else
    push_part "SELECT" ;;
    if JsString.array_includes fields "*" then push_part "*"
    else
      quoted <- mapM (fun f => identifier (NameString f)) fields ;;
      push_part (JsString.join ", " quoted).

Definition from (table : string) (alias : option string) : M unit :=
  push_part "FROM" ;;
  t <- identifier (NameString table) ;;
  push_part t ;;
  if truthy alias then
    push_part "AS" ;;
    a <- identifier (NameString (the_string alias)) ;;
    push_part a
  else ret tt.

Definition where_ (condition : string) : M unit :=
  push_part "WHERE" ;;
  push_part condition.

Definition and_ (condition : string) : M unit :=
  push_part "AND" ;;
  push_part condition.

Definition or_ (condition : string) : M unit :=
  push_part "OR" ;;
  push_part condition.

(** The default value of the parameter [direction]. *)
Definition direction_or_default (direction : option Direction) : Direction :=
  match direction with None => ASC | Some d => d end.

Definition orderBy (field : string) (direction : option Direction) : M unit :=
  let direction := direction_or_default direction in
  text <- joined_parts ;;
  if JsString.includes text "ORDER BY" then
    push_part "," ;;
    f <- identifier (NameString field) ;;
    push_part f ;;
    push_part (Direction_text direction)
  else
    push_part "ORDER BY" ;;
    f <- identifier (NameString field) ;;
    push_part f ;;
    push_part (Direction_text direction).

Definition groupBy (fields : list string) : M unit :=
  push_part "GROUP BY" ;;
  quoted <- mapM (fun f => identifier (NameString f)) fields ;;
  push_part (JsString.join ", " quoted).

Definition limit (count : float) : M unit :=
  if PrimFloat.ltb count 0 then
    throw (SQLInjectionError "LIMIT must be non-negative" None)
  else
    push_part "LIMIT" ;;
    push_part (String_of_number count).

Definition offset (count : float) : M unit :=
  if PrimFloat.ltb count 0 then
    throw (SQLInjectionError "OFFSET must be non-negative" None)
  else
    push_part "OFFSET" ;;
    push_part (String_of_number count).

Definition join (type : JoinType) (table : string)
                (on alias : option string) : M unit :=
  push_part (JoinType_text type ++ " JOIN") ;;
  t <- identifier (NameString table) ;;
  push_part t ;;
  (if truthy alias then
     push_part "AS" ;;
     a <- identifier (NameString (the_string alias)) ;;
     push_part a
   else ret tt) ;;
  if truthy on && negb (JoinType_eqb type CROSS) then
    push_part "ON" ;;
    push_part (the_string on)
  else ret tt.

Definition insertInto (table : string) (fields : list string) : M unit :=
  push_part "INSERT INTO" ;;
  t <- identifier (NameString table) ;;
  push_part t ;;
  quoted <- mapM (fun f => identifier (NameString f)) fields ;;
  push_part ("(" ++ JsString.join ", " quoted ++ ")").

Definition values (rows : list (list JsValue)) : M unit :=
  push_part "VALUES" ;;
  valueSets <- mapM (fun row =>
                       placeholders <- mapM param row ;;
                       ret ("(" ++ JsString.join ", " placeholders ++ ")"))
                    rows ;;
  push_part (JsString.join ", " valueSets).

Definition update (table : string) : M unit :=
  push_part "UPDATE" ;;
  t <- identifier (NameString table) ;;
  push_part t.

(** The callback shared by [set] and by the filters of the statement
    factories: a quoted key, [=], a placeholder. *)
Definition assignment (entry : string * JsValue) : M string :=
  let '(key, value) := entry in
  k <- identifier (NameString key) ;;
  p <- param value ;;
  ret (k ++ " = " ++ p).

Definition set (updates : JsRecord) : M unit :=
  push_part "SET" ;;
  assignments <- mapM assignment (Object_entries updates) ;;
  push_part (JsString.join ", " assignments).

Definition deleteFrom (table : string) : M unit :=
  push_part "DELETE FROM" ;;
  t <- identifier (NameString table) ;;
  push_part t.

Definition build : M Built :=
  fun b => (Ok (mkBuilt (JsString.join " " (parts b)) (parameters b)), b).

Definition toSQL : M string := joined_parts.

Definition getParams : M (list JsValue) :=
  fun b => (Ok (parameters b), b).

Definition reset : M unit :=
  fun _ => (Ok tt, newSQLBuilder).

End Methods.
End Builder.

(* ================================================================== *)
(** ** Statement factories *)
(* ================================================================== *)

(** The options bag of [buildSelect]; an absent field is [None]. *)
Record SelectOptions : Type := {
  opt_fields : option (list string);
  opt_where : option JsRecord;
  opt_orderBy : option (list (string * Direction));
  opt_limit : option float;
  opt_offset : option float
}.

(** The argument [data] of [buildInsert]: one record or an array. *)
Inductive InsertData : Type :=
| OneRecord (record : JsRecord)
| ManyRecords (records : list JsRecord).

Module Factory.
Import Js Builder.

Section Factories.
Context {rt : Runtime}.

(** A factory creates its own builder; a throw leaves the factory. *)
Definition run {A} (m : M A) : Result A := fst (m newSQLBuilder).

(** The flat filter: one [key = placeholder] per entry, joined by AND. *)
Definition where_of (filter : JsRecord) : M unit :=
  conditions <- mapM assignment (Object_entries filter) ;;
  where_ (JsString.join " AND " conditions).

Definition buildSelect_steps (table : string) (options : SelectOptions) : M unit :=
  select (match opt_fields options with Some f => f | None => ["*"] end) ;;
  from table None ;;
  (match opt_where options with
   | Some w =>
       if (0 <? List.length (Object_keys w))%nat then where_of w else ret tt
   | None => ret tt
   end) ;;
  (match opt_orderBy options with
   | Some o =>
       forEach (fun '(field, direction) => orderBy field (Some direction))
               o
   | None => ret tt
   end) ;;
  (match opt_limit options with
   | Some l => limit l
   | None => ret tt
   end) ;;
  (match opt_offset options with
   | Some o => offset o
   | None => ret tt
   end).

Definition buildSelect (table : string) (options : SelectOptions) : Result Built :=
  run (buildSelect_steps table options ;; build).

Definition buildInsert (table : string) (data : InsertData) : Result Built :=
  run (let records :=
         match data with
         | ManyRecords rs => rs
         | OneRecord r => [r]
         end in
       if (List.length records =? 0)%nat then
         throw (SQLInjectionError "INSERT requires at least one record" None)
       else
         let fields := Object_keys (nth 0 records []) in
         insertInto table fields ;;
         let rows :=
           map (fun record => map (fun field => get record field) fields)
               records in
         values rows ;;
         build).

Definition buildUpdate_steps (table : string) (data filter : JsRecord) : M unit :=
  update table ;;
  set data ;;
  if (0 <? List.length (Object_keys filter))%nat then where_of filter
  else ret tt.

Definition buildUpdate (table : string) (data filter : JsRecord) : Result Built :=
  run (buildUpdate_steps table data filter ;; build).

Definition buildDelete_steps (table : string) (filter : JsRecord) : M unit :=
  deleteFrom table ;;
  if (0 <? List.length (Object_keys filter))%nat then where_of filter
  else ret tt.

Definition buildDelete (table : string) (filter : JsRecord) : Result Built :=
  run (buildDelete_steps table filter ;; build).

End Factories.
End Factory.

(* ================================================================== *)
(** ** The other exports of the file *)
(* ================================================================== *)

(** The options bag of [buildCreateTable]; an absent field is [None]. *)
Record CreateTableOptions : Type := {
  ct_engine : option string;
  ct_orderBy : option (list string);
  ct_partitionBy : option string;
  ct_primaryKey : option (list string);
  ct_ifNotExists : option bool
}.

Module Exports.
Import Js Builder Factory.

Definition createSQLBuilder : SQLBuilder := newSQLBuilder.

Definition escapeString (value : string) : string :=
  JsString.replaceAll "'" "''" value.

(** [options?.field]: absent when the bag is. *)
Definition field_of {A} (f : CreateTableOptions -> option A)
                    (options : option CreateTableOptions) : option A :=
  match options with
  | Some o => f o
  | None => None
  end.

(** The test of a conditional on an optional boolean. *)
Definition flag (o : option bool) : bool :=
  match o with Some b => b | None => false end.

(** [list && list.length > 0] *)
Definition has_elements (o : option (list string)) : bool :=
  match o with
  | Some l => (0 <? List.length l)%nat
  | None => false
  end.

Definition the_list (o : option (list string)) : list string :=
  match o with Some l => l | None => [] end.

(** [parts.push(s)] on a local array. *)
Definition pushed (parts : list string) (s : string) : list string :=
  (parts ++ [s])%list.

(** The builder of [buildCreateTable] only quotes identifiers; the
    fragments are collected in a local array, here [parts]. *)
Definition buildCreateTable (table : string) (columns : list (string * string))
                            (options : option CreateTableOptions)
  : Result string :=
  run (let parts := ["CREATE TABLE"] in
       let parts :=
         if flag (field_of ct_ifNotExists options)
         then pushed parts "IF NOT EXISTS" else parts in
       t <- identifier (NameString table) ;;
       let parts := pushed parts t in
       columnDefs <- mapM (fun '(name, type) =>
                             n <- identifier (NameString name) ;;
                             ret (n ++ " " ++ type))
                          columns ;;
       let parts :=
         pushed parts ("(" ++ JsString.join ", " columnDefs ++ ")") in
       let parts :=
         if truthy (field_of ct_engine options)
         then pushed parts
                ("ENGINE = " ++ the_string (field_of ct_engine options))
         else parts in
       parts <-
         (if has_elements (field_of ct_orderBy options) then
            quoted <- mapM (fun f => identifier (NameString f))
                           (the_list (field_of ct_orderBy options)) ;;
            ret (pushed parts
                   ("ORDER BY (" ++ JsString.join ", " quoted ++ ")"))
          else ret parts) ;;
       let parts :=
         if truthy (field_of ct_partitionBy options)
         then pushed parts
                ("PARTITION BY "
                 ++ the_string (field_of ct_partitionBy options))
         else parts in
       parts <-
         (if has_elements (field_of ct_primaryKey options) then
            quoted <- mapM (fun f => identifier (NameString f))
                           (the_list (field_of ct_primaryKey options)) ;;
            ret (pushed parts
                   ("PRIMARY KEY (" ++ JsString.join ", " quoted ++ ")"))
          else ret parts) ;;
       ret (JsString.join " " parts)).

(** [ifExists] defaults to false. *)
Definition buildDropTable (table : string) (ifExists : option bool)
  : Result string :=
  run (let parts := ["DROP TABLE"] in
       let parts :=
         if flag ifExists then pushed parts "IF EXISTS" else parts in
       t <- identifier (NameString table) ;;
       let parts := pushed parts t in
       ret (JsString.join " " parts)).

End Exports.

(* ================================================================== *)
(** ** The condition compiler *)
(* ================================================================== *)

(** The native operator vocabulary of a leaf. *)
Inductive Operator : Type :=
| op_eq | op_ne | op_gt | op_gte | op_lt | op_lte
| op_in | op_notIn | op_like | op_ilike
| op_isNull | op_notNull | op_between.

(** The joining combinators; NOT has its own node. *)
Inductive Combinator : Type := AND | OR.

(** Modelled from the spec: the canonical condition tree of the WHERE
    engine, whose source is not in [sql-builder.ts].  A node is a leaf
    (field, operator, operand) or a logical combinator over an ordered
    sequence of children; NOT takes a single child. *)
Inductive Condition : Type :=
| Leaf (field : string) (operator : Operator) (operand : JsValue)
| Group (kind : Combinator) (children : list Condition)
| Not (child : Condition).

Module Where.
Import Js Builder.

(** Modelled from the spec: what the specification leaves to the
    implementer.  It names the comparison operators without spelling their
    SQL text, except [=] for equality, and it leaves open what a
    combinator without children lowers to. *)
Class Dialect : Type := {
  sql_operator : Operator -> string;
  empty_group : Combinator -> string
}.

Section Compiler.
Context {rt : Runtime} {dialect : Dialect}.

Definition Combinator_text (kind : Combinator) : string :=
  match kind with AND => "AND" | OR => "OR" end.

Definition malformed_operand (what : string) : Error :=
  SQLInjectionError what None.

(** Modelled from the spec: the lowering of a leaf.  The field goes
    through [identifier] and every literal through [param].  A comparison
    is field, operator, placeholder; [in] and [notIn] take a non-empty
    collection and give a parenthesized, comma-joined placeholder list;
    [between] takes two bounds; [isNull] and [notNull] take no
    placeholder. *)
Definition lowerLeaf (field : string) (operator : Operator)
                     (operand : JsValue) : M string :=
  f <- identifier (NameString field) ;;
  match operator with
  | op_eq =>
      p <- param operand ;; ret (f ++ " = " ++ p)
  | op_ne | op_gt | op_gte | op_lt | op_lte | op_like | op_ilike =>
      p <- param operand ;; ret (f ++ " " ++ sql_operator operator ++ " " ++ p)
  | op_in | op_notIn =>
      match operand with
      | VArray (item :: items) =>
          ps <- mapM param (item :: items) ;;
          ret (f ++ " " ++ sql_operator operator
                 ++ " (" ++ JsString.join ", " ps ++ ")")
      | _ => throw (malformed_operand "operand must be a non-empty collection")
      end
  | op_isNull => ret (f ++ " IS NULL")
  | op_notNull => ret (f ++ " IS NOT NULL")
  | op_between =>
      match operand with
      | VArray [lo; hi] =>
          p <- param lo ;; q <- param hi ;;
          ret (f ++ " BETWEEN " ++ p ++ " AND " ++ q)
      | _ => throw (malformed_operand "operand must be two bounds")
      end
  end.

(** Modelled from the spec: a combinator joins its lowered children with
    its keyword and parenthesizes the joined group whenever it has more
    than one child or is nested beneath another combinator; NOT wraps its
    child's fragment in [NOT (...)].  Children are lowered left to right,
    so parameters are numbered in the order the leaves are visited. *)
Fixpoint compile (nested : bool) (c : Condition) {struct c} : M string :=
  match c with
  | Leaf field operator operand => lowerLeaf field operator operand
  | Group kind children =>
      match children with
      | [] => ret (empty_group kind)
      | _ :: _ =>
          lowered <- mapM (compile true) children ;;
          let joined :=
            JsString.join (" " ++ Combinator_text kind ++ " ") lowered in
          if (1 <? List.length children)%nat || nested
          then ret ("(" ++ joined ++ ")")
          else ret joined
      end
  | Not child =>
      inner <- compile true child ;;
      ret ("NOT (" ++ inner ++ ")")
  end.

(** The fragment for a whole tree, which is nested beneath nothing. *)
Definition compileCondition (c : Condition) : M string := compile false c.

End Compiler.
End Where.

(* ================================================================== *)
(** ** Vocabulary of the statements *)
(* ================================================================== *)

(** The builder [b] after the fragments [l] were appended to its parts,
    parameters and counter untouched. *)
Definition add_parts (b : SQLBuilder) (l : list string) : SQLBuilder :=
  {| parts := (parts b ++ l)%list;
     parameters := parameters b;
     paramCounter := paramCounter b |}.

(** The outcome of a method is a throw of the injection-class error. *)
Definition throws_injection {A} (r : Result A) : Prop :=
  exists message value, r = Throw (SQLInjectionError message value).

(** The placeholder of index [n] with the type tag [tag]. *)
Definition placeholder (n : N) (tag : string) : string :=
  "{param" ++ JsString.of_N n ++ ":" ++ tag ++ "}".

(** The number a float stands for: [m * 2^e], negated when the sign is
    set; none for NaN and the infinities. *)
Definition real_value (x : float) : option QArith_base.Q :=
  match Prim2SF x with
  | S754_zero _ => Some (QArith_base.inject_Z 0)
  | S754_finite s m e =>
      let z := if s then Z.neg m else Z.pos m in
      Some (match e with
            | Z.neg k => QArith_base.Qmake z (2 ^ k)
            | _ => QArith_base.inject_Z (z * 2 ^ e)
            end)
  | _ => None
  end.

(** The builder [b] after one parameter was stored and counted. *)
Definition add_parameter (b : SQLBuilder) (v : JsValue) : SQLBuilder :=
  {| parts := parts b;
     parameters := (parameters b ++ [v])%list;
     paramCounter := paramCounter b + 1 |}.

(** As many parameters are stored as placeholders were numbered. *)
Definition aligned (b : SQLBuilder) : Prop :=
  N.of_nat (List.length (parameters b)) = paramCounter b.

(** The placeholders of the values [vs] stored as [ws], numbered from [n]. *)
Fixpoint placeholders_from (n : N) (vs ws : list JsValue) : list string :=
  match vs, ws with
  | v :: vs', w :: ws' =>
      placeholder n (Builder.inferClickHouseType w v)
      :: placeholders_from (n + 1) vs' ws'
  | _, _ => []
  end.

(** What a method may do to the counter and to the alignment: the
    counter does not decrease, and an aligned builder stays aligned. *)
Definition evolves (b b' : SQLBuilder) : Prop :=
  (paramCounter b <= paramCounter b')%N /\ (aligned b -> aligned b').

(** What a clause without values does to the parameters: nothing. *)
Definition keeps_parameters (b b' : SQLBuilder) : Prop :=
  parameters b' = parameters b /\ paramCounter b' = paramCounter b.

(** The builder before and the builder after are related by [R],
    whatever the builder and the outcome, returned or thrown. *)
Definition steady (R : SQLBuilder -> SQLBuilder -> Prop) {A} (m : M A) : Prop :=
  forall b, R b (snd (m b)).

(** What a statement without filter does to the parts: it appends
    fragments none of which is the keyword WHERE. *)
Definition adds_no_WHERE (b b' : SQLBuilder) : Prop :=
  exists l, parts b' = (parts b ++ l)%list /\ ~ In "WHERE" l.

(** The options of [buildSelect] with the filter left out. *)
Definition without_where (options : SelectOptions) : SelectOptions :=
  {| opt_fields := opt_fields options;
     opt_where := None;
     opt_orderBy := opt_orderBy options;
     opt_limit := opt_limit options;
     opt_offset := opt_offset options |}.

(** The string of a name argument. *)
Definition name_text (name : NameArg) : string :=
  match name with
  | NameString s => s
  | NameIdentifier id => id.(value)
  end.

(** A fragment between parentheses. *)
Definition parenthesized (fragment : string) : Prop :=
  exists inner, fragment = "(" ++ inner ++ ")".

(** What is asked of the fragment of a child: a combinator with children
    comes between parentheses. *)
Definition child_fragment (child : Condition) (fragment : string) : Prop :=
  match child with
  | Group _ (_ :: _) => parenthesized fragment
  | _ => True
  end.

(** A call of a public method of the class, its result dropped. *)
Inductive Call : Type :=
| call_raw (sql : string)
| call_param (value : JsValue)
| call_params (values : list JsValue)
| call_identifier (name : NameArg)
| call_identifiers (names : list string)
| call_select (fields : list string)
| call_from (table : string) (alias : option string)
| call_where (condition : string)
| call_and (condition : string)
| call_or (condition : string)
| call_orderBy (field : string) (direction : option Direction)
| call_groupBy (fields : list string)
| call_limit (count : float)
| call_offset (count : float)
| call_join (type : JoinType) (table : string) (on alias : option string)
| call_insertInto (table : string) (fields : list string)
| call_values (rows : list (list JsValue))
| call_update (table : string)
| call_set (updates : JsRecord)
| call_deleteFrom (table : string)
| call_build
| call_toSQL
| call_getParams
| call_reset.

Definition drop {A} (m : M A) : M unit := bind m (fun _ => ret tt).

Definition exec {rt : Js.Runtime} (c : Call) : M unit :=
  match c with
  | call_raw sql => Builder.raw sql
  | call_param value => drop (Builder.param value)
  | call_params values => drop (Builder.params values)
  | call_identifier name => drop (Builder.identifier name)
  | call_identifiers names => drop (Builder.identifiers names)
  | call_select fields => Builder.select fields
  | call_from table alias => Builder.from table alias
  | call_where condition => Builder.where_ condition
  | call_and condition => Builder.and_ condition
  | call_or condition => Builder.or_ condition
  | call_orderBy field direction => Builder.orderBy field direction
  | call_groupBy fields => Builder.groupBy fields
  | call_limit count => Builder.limit count
  | call_offset count => Builder.offset count
  | call_join type table on alias => Builder.join type table on alias
  | call_insertInto table fields => Builder.insertInto table fields
  | call_values rows => Builder.values rows
  | call_update table => Builder.update table
  | call_set updates => Builder.set updates
  | call_deleteFrom table => Builder.deleteFrom table
  | call_build => drop Builder.build
  | call_toSQL => drop Builder.toSQL
  | call_getParams => drop Builder.getParams
  | call_reset => Builder.reset
  end.

Definition is_reset (c : Call) : bool :=
  match c with call_reset => true | _ => false end.

(* ================================================================== *)
(** ** A runtime for the examples *)
(* ================================================================== *)

(** The statements hold for every [Runtime].  To run the builder on
    concrete inputs, this one renders what the examples use: [String] is
    exact on NaN, on the infinities and on integral numbers of magnitude
    below 2^53, which print as their decimal digits; [JSON.stringify] is
    exact on a record whose values are null, booleans, integral numbers
    and strings without characters to escape, and on a record that owns
    a method [toJSON], the methods of the examples having an empty body:
    the call returns [undefined] and so does [JSON.stringify].  Other
    inputs do not occur in the examples. *)
Module Demo.
Import Js.

Definition integral_part (x : float) : Z :=
  match Prim2SF x with
  | S754_finite s m e =>
      let magnitude :=
        if (0 <=? e)%Z then (Z.pos m * 2 ^ e)%Z
        else (Z.pos m / 2 ^ (- e))%Z in
      if s then (- magnitude)%Z else magnitude
  | _ => 0%Z
  end.

Definition String_of_integral (x : float) : string :=
  match Prim2SF x with
  | S754_nan => "NaN"
  | S754_infinity false => "Infinity"
  | S754_infinity true => "-Infinity"
  | _ =>
      let z := integral_part x in
      if (z <? 0)%Z then "-" ++ JsString.of_N (Z.to_N (- z))
      else JsString.of_N (Z.to_N z)
  end.

Definition double_quote : string := String (ascii_of_nat 34) "".

Definition quoted (s : string) : string := double_quote ++ s ++ double_quote.

Definition flat_json_value (v : JsValue) : Result string :=
  match v with
  | VNull => Ok "null"
  | VBoolean true => Ok "true"
  | VBoolean false => Ok "false"
  | VNumber x => Ok (String_of_integral x)
  | VString s => Ok (quoted s)
  | VBigInt _ => Throw (TypeError "Do not know how to serialize a BigInt")
  | _ => Throw (TypeError "value outside the examples")
  end.

Fixpoint flat_json_members (props : list (string * JsValue))
  : Result (list string) :=
  match props with
  | [] => Ok []
  | (k, v) :: rest =>
      match flat_json_value v, flat_json_members rest with
      | Ok text, Ok members => Ok ((quoted k ++ ":" ++ text) :: members)
      | Throw e, _ => Throw e
      | _, Throw e => Throw e
      end
  end.

Definition flat_JSON_stringify (v : JsValue) : Result (option string) :=
  match v with
  | VObject props =>
      match own props "toJSON" with
      | Some (VFunction _) => Ok None
      | _ =>
          match flat_json_members props with
          | Ok members => Ok (Some ("{" ++ JsString.join "," members ++ "}"))
          | Throw e => Throw e
          end
      end
  | _ =>
      match flat_json_value v with
      | Ok text => Ok (Some text)
      | Throw e => Throw e
      end
  end.

Definition runtime : Runtime :=
  {| String_of_number := String_of_integral;
     JSON_stringify := flat_JSON_stringify |}.

(** A dialect for the examples: the usual SQL spellings, and for a
    combinator without children the identity element of its keyword. *)
Definition dialect : Where.Dialect :=
  {| Where.sql_operator := fun operator =>
       match operator with
       | op_eq => "=" | op_ne => "!=" | op_gt => ">" | op_gte => ">="
       | op_lt => "<" | op_lte => "<=" | op_in => "IN" | op_notIn => "NOT IN"
       | op_like => "LIKE" | op_ilike => "ILIKE"
       | op_isNull => "IS NULL" | op_notNull => "IS NOT NULL"
       | op_between => "BETWEEN"
       end;
     Where.empty_group := fun kind =>
       match kind with AND => "1 = 1" | OR => "1 = 0" end |}.

End Demo.

(* ================================================================== *)
(** ** Vocabulary of the further properties *)
(* ================================================================== *)

(** Nothing that was emitted or stored is removed or rewritten. *)
Definition extends (b b' : SQLBuilder) : Prop :=
  exists l ws,
    parts b' = (parts b ++ l)%list
    /\ parameters b' = (parameters b ++ ws)%list.

(** The type tags a placeholder can carry. *)
Definition clickhouse_tags : list string :=
  ["UInt8"; "DateTime"; "Nullable(String)"; "Int32"; "Float64"; "Int64";
   "String"; "Array(String)"].

(** The tag [param] gives a value, when it stores it. *)
Definition tag_of {rt : Js.Runtime} (v : JsValue) : option string :=
  match Builder.paramValue_of v with
  | Ok w => Some (Builder.inferClickHouseType w v)
  | Throw _ => None
  end.

(** The fragments [key = placeholder] of the entries stored as [ws], the
    placeholders numbered from [n]. *)
Fixpoint assignments_from (n : N) (entries : JsRecord) (ws : list JsValue)
  : list string :=
  match entries, ws with
  | (key, v) :: entries', w :: ws' =>
      (Ident.quoted_name key ++ " = "
       ++ placeholder n (Builder.inferClickHouseType w v))
      :: assignments_from (n + 1) entries' ws'
  | _, _ => []
  end.

(** The parenthesized placeholder lists of the rows, whose values are
    stored one row after the other as [ws]. *)
Fixpoint value_sets (n : N) (rows : list (list JsValue)) (ws : list JsValue)
  : list string :=
  match rows with
  | [] => []
  | row :: rows' =>
      ("(" ++ JsString.join ", "
                (placeholders_from n row (firstn (List.length row) ws))
           ++ ")")
      :: value_sets (n + N.of_nat (List.length row)) rows'
                    (skipn (List.length row) ws)
  end.

(** The parts a flat filter adds: none when it has no key. *)
Definition where_parts (n : N) (filter : JsRecord) (ws : list JsValue)
  : list string :=
  match filter with
  | [] => []
  | _ :: _ => ["WHERE"; JsString.join " AND " (assignments_from n filter ws)]
  end.

(** The parts an alias adds: none when it is absent or empty. *)
Definition alias_parts (alias : option string) : list string :=
  if Js.truthy alias then ["AS"; Ident.quoted_name (Js.the_string alias)]
  else [].

(** The parts a join condition adds: none when it is absent or empty, and
    none on a cross join. *)
Definition on_parts (type : JoinType) (on : option string) : list string :=
  if Js.truthy on && negb (Builder.JoinType_eqb type CROSS)
  then ["ON"; Js.the_string on]
  else [].

(** An optional name is usable: absent, empty, or valid. *)
Definition usable_alias (alias : option string) : bool :=
  negb (Js.truthy alias) || Ident.valid_name (Js.the_string alias).

(** A reader of quoted text: after the opening quote, a doubled quote
    stands for one quote and a single one closes.  It returns what was
    between the quotes and what follows. *)
Fixpoint read_quoted_body (q : ascii) (s : string) : option (string * string) :=
  match s with
  | EmptyString => None
  | String c rest =>
      if Ascii.eqb c q then
        match rest with
        | String d rest' =>
            if Ascii.eqb d q then
              match read_quoted_body q rest' with
              | Some (v, r) => Some (String q v, r)
              | None => None
              end
            else Some (EmptyString, rest)
        | EmptyString => Some (EmptyString, EmptyString)
        end
      else
        match read_quoted_body q rest with
        | Some (v, r) => Some (String c v, r)
        | None => None
        end
  end.

Definition read_quoted (q : ascii) (s : string) : option (string * string) :=
  match s with
  | String c rest => if Ascii.eqb c q then read_quoted_body q rest else None
  | EmptyString => None
  end.

(** The builder [b] after the fragments [l] were appended and the values
    [ws] stored and counted. *)
Definition grown (b : SQLBuilder) (l : list string) (ws : list JsValue)
  : SQLBuilder :=
  {| parts := (parts b ++ l)%list;
     parameters := (parameters b ++ ws)%list;
     paramCounter := paramCounter b + N.of_nat (List.length ws) |}.

(** The values are stored as [ws]. *)
Definition stored_as {rt : Js.Runtime} (vs ws : list JsValue) : Prop :=
  Forall2 (fun v w => Builder.paramValue_of v = Ok w) vs ws.

(** The columns of [buildInsert]: the keys of the first record. *)
Definition insert_fields (records : list JsRecord) : list string :=
  Js.Object_keys (nth 0 records []).

(** The rows of [buildInsert]: every record read at the columns. *)
Definition insert_rows (records : list JsRecord) : list (list JsValue) :=
  map (fun record => map (fun field => Js.get record field)
                         (insert_fields records))
      records.

(** The records of the argument of [buildInsert]. *)
Definition records_of (data : InsertData) : list JsRecord :=
  match data with
  | ManyRecords rs => rs
  | OneRecord r => [r]
  end.

(** The filter of [buildSelect]: none is as good as one without keys. *)
Definition filter_of (options : SelectOptions) : JsRecord :=
  match opt_where options with
  | Some w => w
  | None => []
  end.

(** The definition of a column: the quoted name and the type as given. *)
Definition column_def (column : string * string) : string :=
  Ident.quoted_name (fst column) ++ " " ++ snd column.

(** The key list of ORDER BY and PRIMARY KEY in a table definition. *)
Definition key_list (keyword : string) (keys : option (list string))
  : list string :=
  if Exports.has_elements keys
  then [keyword ++ " ("
        ++ JsString.join ", " (map Ident.quoted_name (Exports.the_list keys))
        ++ ")"]
  else [].

(** A clause of a table definition whose text is taken as given. *)
Definition verbatim_clause (keyword : string) (text : option string)
  : list string :=
  if Js.truthy text then [keyword ++ Js.the_string text] else [].

(** The fragments of a table definition, in order. *)
Definition create_table_parts (table : string) (columns : list (string * string))
                              (options : option CreateTableOptions)
  : list string :=
  (["CREATE TABLE"]
   ++ (if Exports.flag (Exports.field_of ct_ifNotExists options)
       then ["IF NOT EXISTS"] else [])
   ++ [Ident.quoted_name table]
   ++ [("(" ++ JsString.join ", " (map column_def columns) ++ ")")%string]
   ++ verbatim_clause "ENGINE = " (Exports.field_of ct_engine options)
   ++ key_list "ORDER BY" (Exports.field_of ct_orderBy options)
   ++ verbatim_clause "PARTITION BY " (Exports.field_of ct_partitionBy options)
   ++ key_list "PRIMARY KEY" (Exports.field_of ct_primaryKey options))%list.

(** The names of a table definition that go through [identifier]. *)
Definition create_table_names (table : string) (columns : list (string * string))
                              (options : option CreateTableOptions)
  : list string :=
  (table :: map fst columns
   ++ (if Exports.has_elements (Exports.field_of ct_orderBy options)
       then Exports.the_list (Exports.field_of ct_orderBy options) else [])
   ++ (if Exports.has_elements (Exports.field_of ct_primaryKey options)
       then Exports.the_list (Exports.field_of ct_primaryKey options)
       else []))%list.

(** A segment as [escapeIdentifier] writes it. *)
Definition escaped_part (part : string) : string :=
  "`" ++ JsString.replaceAll "`" "``" part ++ "`".

(** Every [R] of the text is followed by a character that is not a
    space: the words ORDER BY cannot be found in such a text, nor appear
    when such texts are joined. *)
Fixpoint scan_safe (s : string) : bool :=
  match s with
  | EmptyString => true
  | String c rest =>
      (if Ascii.eqb c "R"
       then match rest with
            | EmptyString => false
            | String d _ => negb (Ascii.eqb d " ")
            end
       else true)
      && scan_safe rest
  end.

(** The fields of [buildSelect]: all of them when none is given. *)
Definition fields_of (options : SelectOptions) : list string :=
  match opt_fields options with
  | Some f => f
  | None => ["*"]
  end.

(** What [select] writes after the keyword. *)
Definition fields_text (fields : list string) : string :=
  if JsString.array_includes fields "*" then "*"
  else JsString.join ", " (map Ident.quoted_name fields).

(** The parts of an ordering entry after the first one. *)
Definition next_order_parts (entry : string * Direction) : list string :=
  [","; Ident.quoted_name (fst entry); Builder.Direction_text (snd entry)].

(** The parts of the ordering: the keyword once, then commas. *)
Definition order_parts (entries : list (string * Direction)) : list string :=
  match entries with
  | [] => []
  | entry :: rest =>
      (["ORDER BY"; Ident.quoted_name (fst entry);
        Builder.Direction_text (snd entry)]
       ++ flat_map next_order_parts rest)%list
  end.

(** The ordering entries of [buildSelect]. *)
Definition ordering_of (options : SelectOptions) : list (string * Direction) :=
  match opt_orderBy options with
  | Some o => o
  | None => []
  end.

(** The parts of LIMIT and OFFSET: the count is written into the text. *)
Definition count_parts {rt : Js.Runtime} (keyword : string)
                       (count : option float) : list string :=
  match count with
  | Some c => [keyword; Js.String_of_number c]
  | None => []
  end.

(** The parts of the statement of [buildSelect], in order. *)
Definition select_parts {rt : Js.Runtime} (table : string)
                        (options : SelectOptions) (ws : list JsValue)
  : list string :=
  (["SELECT"; fields_text (fields_of options); "FROM"; Ident.quoted_name table]
   ++ where_parts 0 (filter_of options) ws
   ++ order_parts (ordering_of options)
   ++ count_parts "LIMIT" (opt_limit options)
   ++ count_parts "OFFSET" (opt_offset options))%list.

(** [[0-9]] *)
Definition is_digit (c : ascii) : bool := RegExp.range "0" "9" c.

(** The text does not begin with the character. *)
Definition not_starting_with (q : ascii) (s : string) : Prop :=
  match s with
  | String c _ => c <> q
  | EmptyString => True
  end.

(* ================================================================== *)
(** * Properties *)
(* ================================================================== *)

Section ClauseProperties.
Context {rt : Js.Runtime}.
Import Builder.

Lemma add_parts_nil b : add_parts b [] = b.
Proof.
  destruct b as [p q n]. unfold add_parts. simpl. now rewrite app_nil_r.
Qed.

Lemma add_parts_add_parts b l1 l2 :
  add_parts (add_parts b l1) l2 = add_parts b (l1 ++ l2)%list.
Proof.
  unfold add_parts. simpl. now rewrite app_assoc.
Qed.

Lemma push_part_spec s b : push_part s b = (Ok tt, add_parts b [s]).
Proof. reflexivity. Qed.

Lemma bind_ok {A B} (m : M A) (k : A -> M B) a b b' :
  m b = (Ok a, b') -> bind m k b = k a b'.
Proof. intros H. unfold bind. now rewrite H. Qed.

Lemma bind_throw {A B} (m : M A) (k : A -> M B) e b b' :
  m b = (Throw e, b') -> bind m k b = (Throw e, b').
Proof. intros H. unfold bind. now rewrite H. Qed.

Lemma bind_push_part {B} s (k : unit -> M B) b :
  bind (push_part s) k b = k tt (add_parts b [s]).
Proof. reflexivity. Qed.

Lemma bind_ret {A B} (a : A) (k : A -> M B) b : bind (ret a) k b = k a b.
Proof. reflexivity. Qed.

(** C10: [where], [and] and [or] append their keyword followed by the
    condition exactly as it was given, whatever the string is: the
    condition is neither validated, escaped nor parameterized (parameters
    and counter stay as they were), and none of the three throws. *)
Theorem where_and_or_append_verbatim :
  forall (c : string) (b : SQLBuilder),
    where_ c b = (Ok tt, add_parts b ["WHERE"; c])
    /\ and_ c b = (Ok tt, add_parts b ["AND"; c])
    /\ or_ c b = (Ok tt, add_parts b ["OR"; c]).
Proof.
  intros c b.
  unfold where_, and_, or_, bind.
  rewrite !push_part_spec, !add_parts_add_parts.
  repeat split.
Qed.

End ClauseProperties.

(* ------------------------------------------------------------------ *)
(** ** Strings *)
(* ------------------------------------------------------------------ *)

Section StringFacts.
Import JsString.

Lemma append_nil_r (s : string) : s ++ "" = s.
Proof. induction s as [|c s IH]; simpl; congruence. Qed.

Lemma append_assoc (s t u : string) : (s ++ t) ++ u = s ++ (t ++ u).
Proof. induction s as [|c s IH]; simpl; congruence. Qed.

Lemma append_eq_nil (s t : string) : s ++ t = "" -> s = "" /\ t = "".
Proof. destruct s; simpl; [auto | discriminate]. Qed.

Lemma split_not_nil sep s : split sep s <> [].
Proof.
  destruct s as [|c s]; simpl; [discriminate|].
  destruct (Ascii.eqb c sep); [discriminate|].
  destruct (split sep s); discriminate.
Qed.

(** A string without the separator is its own single token. *)
Lemma split_without_sep sep t :
  has_char sep t = false -> split sep t = [t].
Proof.
  induction t as [|c t IH]; simpl; intros H; [reflexivity|].
  apply orb_false_iff in H as [Hc Ht].
  rewrite Hc, (IH Ht). reflexivity.
Qed.

(** The first separator ends the first token. *)
Lemma split_at_first_sep sep t u :
  has_char sep t = false ->
  split sep (t ++ String sep u) = t :: split sep u.
Proof.
  induction t as [|c t IH]; simpl; intros H.
  - now rewrite Ascii.eqb_refl.
  - apply orb_false_iff in H as [Hc Ht].
    rewrite Hc, (IH Ht). reflexivity.
Qed.

(** Joining the tokens with the separator gives the string back. *)
Lemma join_split sep s : join (String sep "") (split sep s) = s.
Proof.
  unfold join. induction s as [|c s IH]; simpl; [reflexivity|].
  destruct (Ascii.eqb_spec c sep) as [->|Hne].
  - simpl. destruct (split sep s) as [|t ts] eqn:E.
    + now destruct (split_not_nil sep s).
    + simpl in *. now rewrite IH.
  - destruct (split sep s) as [|t ts] eqn:E.
    + now destruct (split_not_nil sep s).
    + simpl in *. destruct ts; simpl in *; now rewrite <- IH.
Qed.

(** A character of the string other than the separator is in a token. *)
Lemma char_in_some_token sep c s :
  has_char c s = true -> c <> sep ->
  exists t, In t (split sep s) /\ has_char c t = true.
Proof.
  intros H Hne. induction s as [|d s IH]; simpl in *; [discriminate|].
  destruct (Ascii.eqb_spec d c) as [->|Hdc].
  - destruct (Ascii.eqb_spec c sep) as [E|_]; [contradiction|].
    destruct (split sep s) as [|t ts].
    + exists (String c ""). simpl. now rewrite Ascii.eqb_refl; auto.
    + exists (String c t). simpl. now rewrite Ascii.eqb_refl; auto.
  - simpl in H. destruct (IH H) as (t & Hin & Ht).
    destruct (Ascii.eqb d sep).
    + exists t. split; [now right | exact Ht].
    + destruct (split sep s) as [|t0 ts]; [contradiction|].
      destruct Hin as [<-|Hin].
      * exists (String d t0). split; [now left|]. simpl. now rewrite Ht, orb_true_r.
      * exists t. split; [now right | exact Ht].
Qed.

Lemma all_chars_has_char p c s :
  all_chars p s = true -> has_char c s = true -> p c = true.
Proof.
  induction s as [|d s IH]; simpl; [discriminate|].
  intros Hall Hc. apply andb_true_iff in Hall as [Hd Hs].
  apply orb_true_iff in Hc as [E|Hc]; [|now apply IH].
  apply Ascii.eqb_eq in E. now subst.
Qed.

Lemma all_chars_without p c s :
  all_chars p s = true -> p c = false -> has_char c s = false.
Proof.
  intros Hall Hp. destruct (has_char c s) eqn:E; [|reflexivity].
  rewrite (all_chars_has_char _ _ _ Hall E) in Hp. discriminate.
Qed.

Lemma replaceAll_absent c by_ s :
  has_char c s = false -> replaceAll c by_ s = s.
Proof.
  induction s as [|d s IH]; simpl; intros H; [reflexivity|].
  apply orb_false_iff in H as [Hd Hs]. now rewrite Hd, (IH Hs).
Qed.

End StringFacts.

(* ------------------------------------------------------------------ *)
(** ** The matcher decides the language *)
(* ------------------------------------------------------------------ *)

Section RegExpFacts.
Import RegExp.

Lemma nullable_Matches r : nullable r = true -> Matches r "".
Proof.
  induction r; simpl; intros H; try discriminate.
  - constructor.
  - apply andb_true_iff in H as [H1 H2].
    change "" with ("" ++ ""). constructor; auto.
  - apply orb_true_iff in H as [H|H]; [apply M_alt_l | apply M_alt_r]; auto.
  - constructor.
Qed.

Lemma Matches_nullable r s : Matches r s -> s = "" -> nullable r = true.
Proof.
  induction 1; simpl; intros E; try discriminate; try reflexivity.
  - apply append_eq_nil in E as [-> ->]. now rewrite IHMatches1, IHMatches2.
  - now rewrite IHMatches.
  - rewrite IHMatches by assumption. apply orb_true_r.
Qed.

Lemma deriv_sound c r : forall s, Matches (deriv c r) s -> Matches r (String c s).
Proof.
  induction r; simpl; intros s H.
  - inversion H.
  - inversion H.
  - destruct (p c) eqn:E; inversion H; subst. now constructor.
  - destruct (nullable r1) eqn:N.
    + inversion H as [| | | ? ? ? H1 | ? ? ? H2 | |]; subst.
      * inversion H1; subst.
        change (String c (s1 ++ s2)) with (String c s1 ++ s2).
        constructor; auto.
      * change (String c s) with ("" ++ String c s).
        constructor; [now apply nullable_Matches | auto].
    + inversion H; subst.
      change (String c (s1 ++ s2)) with (String c s1 ++ s2).
      constructor; auto.
  - inversion H; subst; [apply M_alt_l | apply M_alt_r]; auto.
  - inversion H; subst.
    change (String c (s1 ++ s2)) with (String c s1 ++ s2).
    constructor; auto.
Qed.

Lemma deriv_complete c r s' :
  Matches r s' -> forall t, s' = String c t -> Matches (deriv c r) t.
Proof.
  induction 1; intros t E; simpl; try discriminate.
  - inversion E; subst. rewrite H. constructor.
  - destruct s1 as [|d s1]; simpl in E.
    + subst s2.
      rewrite (Matches_nullable _ _ H eq_refl).
      apply M_alt_r. now apply IHMatches2.
    + inversion E; subst.
      assert (Matches (Cat (deriv c r1) r2) (s1 ++ s2))
        by (constructor; auto).
      destruct (nullable r1); [now apply M_alt_l | assumption].
  - apply M_alt_l. now apply IHMatches.
  - apply M_alt_r. now apply IHMatches.
  - simpl in E. inversion E; subst.
    constructor; auto.
Qed.

Theorem test_Matches r s : test r s = true <-> Matches r s.
Proof.
  revert r. induction s as [|c s IH]; intros r; simpl.
  - split; [apply nullable_Matches | intros H; now apply (Matches_nullable r "")].
  - rewrite IH. split; [apply deriv_sound | intros H; now apply (deriv_complete c r _ H)].
Qed.

Lemma Matches_star_class p s :
  Matches (Star (Class p)) s <-> JsString.all_chars p s = true.
Proof.
  split.
  - intros H. remember (Star (Class p)) as r eqn:Er.
    induction H; try discriminate; [reflexivity|].
    injection Er as ->.
    inversion H; subst. simpl.
    rewrite H3. now apply IHMatches2.
  - induction s as [|c s IH]; simpl; intros H; [constructor|].
    apply andb_true_iff in H as [Hc Hs].
    change (String c s) with (String c "" ++ s).
    constructor; [now constructor | auto].
Qed.

End RegExpFacts.

(* ------------------------------------------------------------------ *)
(** ** The identifier pattern and its reading in the specification *)
(* ------------------------------------------------------------------ *)

Section IdentFacts.
Import RegExp Ident JsString.

(** A fact about one character is checked on the 256 of them. *)
Ltac by_ascii_cases c :=
  destruct c as [[|] [|] [|] [|] [|] [|] [|] [|]];
  vm_compute; intros; congruence.

Lemma start_char_word_char c : start_char c = true -> word_char c = true.
Proof. by_ascii_cases c. Qed.

Lemma word_char_not_dot c : word_char c = true -> Ascii.eqb c "." = false.
Proof. by_ascii_cases c. Qed.

Lemma digit_not_start_char c : range "0" "9" c = true -> start_char c = false.
Proof. by_ascii_cases c. Qed.

Lemma valid_token_word_chars t :
  valid_token t = true -> all_chars word_char t = true.
Proof.
  destruct t as [|c t]; simpl; [discriminate|].
  intros H. apply andb_true_iff in H as [Hc Ht].
  now rewrite (start_char_word_char _ Hc), Ht.
Qed.

Lemma valid_token_no_dot t : valid_token t = true -> has_char "." t = false.
Proof.
  intros H. apply (all_chars_without word_char); [now apply valid_token_word_chars|].
  reflexivity.
Qed.

Lemma valid_token_no_backtick t :
  valid_token t = true -> has_char "`" t = false.
Proof.
  intros H. apply (all_chars_without word_char); [now apply valid_token_word_chars|].
  reflexivity.
Qed.

Lemma Matches_group s :
  Matches group_re s <-> exists t, valid_token t = true /\ s = String "." t.
Proof.
  unfold group_re. split.
  - intros H.
    inversion H as [| |? ? d tk Hd Ht| | | |]; subst.
    inversion Hd as [|? cd Hdot| | | | |]; subst.
    inversion Ht as [| |? ? st w Hs Hw| | | |]; subst.
    inversion Hs as [|? cs Hstart| | | | |]; subst.
    apply Ascii.eqb_eq in Hdot. subst.
    exists (String cs w). split; [|reflexivity].
    simpl. rewrite Hstart. now apply Matches_star_class.
  - intros (t & Hv & ->).
    destruct t as [|c w]; simpl in Hv; [discriminate|].
    apply andb_true_iff in Hv as [Hc Hw].
    change (String "." (String c w)) with (String "." "" ++ (String c "" ++ w)).
    repeat constructor; auto. now apply Matches_star_class.
Qed.

Lemma join_dotted t ts : join "." (t :: ts) = t ++ dotted ts.
Proof.
  unfold join. revert t. induction ts as [|u ts IH]; intros t; simpl.
  - now rewrite append_nil_r.
  - f_equal. f_equal. apply IH.
Qed.

Lemma Matches_groups_split s :
  Matches (Star group_re) s ->
  forall t, valid_token t = true ->
    forallb valid_token (split "." (t ++ s)) = true.
Proof.
  intros H. remember (Star group_re) as r eqn:Er.
  induction H; try discriminate; intros t Ht.
  - rewrite append_nil_r, split_without_sep by now apply valid_token_no_dot.
    simpl. now rewrite Ht.
  - injection Er as ->.
    apply Matches_group in H as (u & Hu & E). injection E as -> ->.
    change (t ++ String "." u ++ s2) with (t ++ String "." (u ++ s2)).
    rewrite split_at_first_sep by now apply valid_token_no_dot.
    simpl. rewrite Ht. now apply IHMatches2.
Qed.

Lemma Matches_dotted ts :
  forallb valid_token ts = true -> Matches (Star group_re) (dotted ts).
Proof.
  induction ts as [|t ts IH]; simpl; intros H; [constructor|].
  apply andb_true_iff in H as [Ht Hts].
  constructor; [|auto].
  apply Matches_group. now exists t.
Qed.

(** The pattern of [validateIdentifier] accepts exactly the names whose
    dot-separated tokens are all valid. *)
Theorem identifier_re_valid_name name :
  test identifier_re name = valid_name name.
Proof.
  apply eq_true_iff_eq. rewrite test_Matches. unfold valid_name. split.
  - intros H. unfold identifier_re in H.
    inversion H as [| |? ? st rest Hs Hrest| | | |]; subst.
    inversion Hs as [|? c Hstart| | | | |]; subst.
    inversion Hrest as [| |? ? w g Hw Hg| | | |]; subst.
    apply Matches_star_class in Hw.
    change (String c "" ++ w ++ g) with (String c w ++ g).
    apply (Matches_groups_split g Hg). simpl. now rewrite Hstart.
  - intros H. rewrite <- (join_split "." name).
    destruct (split "." name) as [|t ts] eqn:E;
      [now destruct (split_not_nil "." name)|].
    simpl in H. apply andb_true_iff in H as [Ht Hts].
    rewrite join_dotted.
    destruct t as [|c w]; simpl in Ht; [discriminate|].
    apply andb_true_iff in Ht as [Hc Hw].
    change (String c w ++ dotted ts) with (String c "" ++ (w ++ dotted ts)).
    unfold identifier_re. repeat constructor; auto.
    + now apply Matches_star_class.
    + now apply Matches_dotted.
Qed.

(** On a valid name the escaper has no backtick to double. *)
Lemma escapeIdentifier_valid name :
  valid_name name = true -> Builder.escapeIdentifier name = quoted_name name.
Proof.
  unfold valid_name, Builder.escapeIdentifier, quoted_name. intros H.
  f_equal. apply map_ext_in. intros t Hin.
  rewrite forallb_forall in H.
  unfold backticked.
  now rewrite replaceAll_absent by (apply valid_token_no_backtick; auto).
Qed.

Lemma identifier_valid name b :
  valid_name name = true ->
  Builder.identifier (NameString name) b = (Ok (quoted_name name), b).
Proof.
  intros H. unfold Builder.identifier, Builder.validateIdentifier, bind.
  rewrite identifier_re_valid_name, H. simpl.
  unfold ret. now rewrite escapeIdentifier_valid.
Qed.

Lemma identifier_invalid name b :
  valid_name name = false ->
  Builder.identifier (NameString name) b
  = (Throw (SQLInjectionError (Builder.invalid_identifier_message name)
                              (Some name)), b).
Proof.
  intros H. unfold Builder.identifier, Builder.validateIdentifier, bind.
  rewrite identifier_re_valid_name, H. reflexivity.
Qed.

Lemma invalid_token_invalid_name name t :
  In t (split "." name) -> valid_token t = false -> valid_name name = false.
Proof.
  intros Hin Ht. unfold valid_name.
  destruct (forallb valid_token (split "." name)) eqn:E; [|reflexivity].
  rewrite forallb_forall in E. rewrite (E t Hin) in Ht. discriminate.
Qed.

End IdentFacts.

Section IdentifierClaim.
Import Ident JsString Builder.

(** C1: [identifier(name)] on a name whose dot-separated tokens each
    match [[A-Za-z_][A-Za-z0-9_]*] returns the name with every token
    wrapped in backticks and the wrapped tokens joined by a dot.  On a
    name with a zero-length segment, with a token that starts with a
    digit, or with a character outside the class (the dot only separates
    tokens), and in general on every name that is not valid, it throws
    [SQLInjectionError] carrying the name.  The builder is left as it
    was in both cases. *)
Theorem identifier_quotes_valid_rejects_invalid :
  forall (name : string) (b : SQLBuilder),
    (valid_name name = true ->
       identifier (NameString name) b = (Ok (quoted_name name), b))
    /\ ((In "" (split "." name)
         \/ (exists d rest,
               In (String d rest) (split "." name)
               /\ RegExp.range "0" "9" d = true)
         \/ (exists c,
               has_char c name = true /\ word_char c = false
               /\ c <> "."%char)) ->
        valid_name name = false)
    /\ (valid_name name = false ->
          identifier (NameString name) b
          = (Throw (SQLInjectionError (invalid_identifier_message name)
                                      (Some name)), b)).
Proof.
  intros name b. split; [apply identifier_valid|].
  split; [|apply identifier_invalid].
  intros [Hempty | [(d & rest & Hin & Hd) | (c & Hc & Hw & Hdot)]].
  - now apply (invalid_token_invalid_name name "").
  - apply (invalid_token_invalid_name name (String d rest)); [assumption|].
    simpl. now rewrite (digit_not_start_char d Hd).
  - destruct (char_in_some_token "." c name Hc Hdot) as (t & Hin & Ht).
    apply (invalid_token_invalid_name name t); [assumption|].
    destruct (valid_token t) eqn:E; [|reflexivity].
    apply valid_token_word_chars in E.
    rewrite (all_chars_has_char _ _ _ E Ht) in Hw. discriminate.
Qed.

Lemma identifier_quotes_valid_rejects_invalid_witness :
  identifier (NameString "db.users") newSQLBuilder
  = (Ok "`db`.`users`", newSQLBuilder)
  /\ identifier (NameString "users; DROP TABLE users--") newSQLBuilder
     = (Throw (SQLInjectionError
                 (invalid_identifier_message "users; DROP TABLE users--")
                 (Some "users; DROP TABLE users--")), newSQLBuilder)
  /\ valid_name "1user" = false
  /\ valid_name "db..users" = false.
Proof.
  split; [|split; [|split]].
  - apply (proj1 (identifier_quotes_valid_rejects_invalid
                    "db.users" newSQLBuilder)).
    reflexivity.
  - apply (proj2 (proj2 (identifier_quotes_valid_rejects_invalid
                           "users; DROP TABLE users--" newSQLBuilder))).
    apply (proj1 (proj2 (identifier_quotes_valid_rejects_invalid
                           "users; DROP TABLE users--" newSQLBuilder))).
    right. right. exists ";"%char.
    split; [reflexivity | split; [reflexivity | discriminate]].
  - apply (proj1 (proj2 (identifier_quotes_valid_rejects_invalid
                           "1user" newSQLBuilder))).
    right. left. exists "1"%char, "user". split; [now left | reflexivity].
  - apply (proj1 (proj2 (identifier_quotes_valid_rejects_invalid
                           "db..users" newSQLBuilder))).
    left. simpl. auto.
Defined.

End IdentifierClaim.

(* ------------------------------------------------------------------ *)
(** ** Parameters *)
(* ------------------------------------------------------------------ *)

Section ParamFacts.
Context {rt : Js.Runtime}.
Import Js Builder.

Lemma param_ok v w b :
  paramValue_of v = Ok w ->
  param v b
  = (Ok (placeholder (paramCounter b) (inferClickHouseType w v)),
     add_parameter b w).
Proof.
  intros H. unfold param, bind, lift. rewrite H. reflexivity.
Qed.

Lemma param_throw v e b :
  paramValue_of v = Throw e -> param v b = (Throw e, b).
Proof.
  intros H. unfold param, bind, lift. now rewrite H.
Qed.

(** A returning [param] stored a value. *)
Lemma param_inv v ph b b' :
  param v b = (Ok ph, b') ->
  exists w, paramValue_of v = Ok w
            /\ ph = placeholder (paramCounter b) (inferClickHouseType w v)
            /\ b' = add_parameter b w.
Proof.
  destruct (paramValue_of v) as [w|e] eqn:E.
  - rewrite (param_ok v w b E). intros H. injection H as <- <-. now exists w.
  - rewrite (param_throw v e b E). discriminate.
Qed.

Lemma params_inv vs : forall phs b b',
  params vs b = (Ok phs, b') ->
  exists ws,
    Forall2 (fun v w => paramValue_of v = Ok w) vs ws
    /\ phs = placeholders_from (paramCounter b) vs ws
    /\ b' = fold_left add_parameter ws b.
Proof.
  unfold params.
  induction vs as [|v vs IH]; intros phs b b' H; simpl in H.
  - injection H as <- <-. exists []. repeat split. constructor.
  - unfold bind at 1 in H.
    destruct (param v b) as [[ph|e] b1] eqn:E1; [|discriminate].
    apply param_inv in E1 as (w & Hw & -> & ->).
    unfold bind at 1 in H.
    destruct (mapM param vs (add_parameter b w)) as [[phs'|e] b2] eqn:E2;
      [|discriminate].
    injection H as <- <-.
    apply IH in E2 as (ws & Hws & -> & ->).
    exists (w :: ws). repeat split. now constructor.
Qed.

Lemma fold_add_parameter ws : forall b,
  parts (fold_left add_parameter ws b) = parts b
  /\ parameters (fold_left add_parameter ws b) = (parameters b ++ ws)%list
  /\ paramCounter (fold_left add_parameter ws b)
     = (paramCounter b + N.of_nat (List.length ws))%N.
Proof.
  induction ws as [|w ws IH]; intros b; simpl fold_left.
  - simpl. rewrite app_nil_r. repeat split. lia.
  - destruct (IH (add_parameter b w)) as (Hp & Hq & Hn).
    rewrite Hp, Hq, Hn. simpl. rewrite <- app_assoc. repeat split. lia.
Qed.

Lemma nth_placeholders_from vs : forall ws n k v w,
  nth_error vs k = Some v -> nth_error ws k = Some w ->
  nth_error (placeholders_from n vs ws) k
  = Some (placeholder (n + N.of_nat k) (inferClickHouseType w v)).
Proof.
  induction vs as [|v0 vs IH]; intros ws n k v w Hv Hw.
  - destruct k; discriminate.
  - destruct ws as [|w0 ws]; [destruct k; discriminate|].
    destruct k as [|k]; simpl in *.
    + injection Hv as <-. injection Hw as <-. now rewrite N.add_0_r.
    + rewrite (IH ws (n + 1)%N k v w Hv Hw). do 2 f_equal. lia.
Qed.

Lemma length_placeholders_from vs : forall ws n,
  List.length ws = List.length vs ->
  List.length (placeholders_from n vs ws) = List.length vs.
Proof.
  induction vs as [|v vs IH]; intros [|w ws] n H; simpl in *;
    try discriminate; auto.
Qed.

End ParamFacts.

(* ------------------------------------------------------------------ *)
(** ** Relations every statement of a method maintains *)
(* ------------------------------------------------------------------ *)

Section Steady.
Context {rt : Js.Runtime}.
Import Js Builder.
Variable R : SQLBuilder -> SQLBuilder -> Prop.
Hypothesis R_refl : forall b, R b b.
Hypothesis R_trans : forall b1 b2 b3, R b1 b2 -> R b2 b3 -> R b1 b3.

Lemma steady_unchanged {A} (m : M A) :
  (forall b, snd (m b) = b) -> steady R m.
Proof. intros H b. rewrite H. apply R_refl. Qed.

Lemma steady_ret {A} (a : A) : steady R (ret a).
Proof. now apply steady_unchanged. Qed.

Lemma steady_throw {A} e : steady R (@throw A e).
Proof. now apply steady_unchanged. Qed.

Lemma steady_lift {A} (r : Result A) : steady R (lift r).
Proof. now apply steady_unchanged. Qed.

Lemma steady_bind {A B} (m : M A) (k : A -> M B) :
  steady R m -> (forall a, steady R (k a)) -> steady R (bind m k).
Proof.
  intros Hm Hk b. unfold bind. specialize (Hm b).
  destruct (m b) as [[a|e] b1]; simpl in *; [|assumption].
  eapply R_trans; [eassumption | apply Hk].
Qed.

Lemma steady_mapM {A B} (f : A -> M B) l :
  (forall x, steady R (f x)) -> steady R (mapM f l).
Proof.
  intros Hf. induction l as [|x l IH]; simpl.
  - apply steady_ret.
  - apply steady_bind; [apply Hf | intros y].
    apply steady_bind; [apply IH | intros ys]. apply steady_ret.
Qed.

Lemma steady_forEach {A} (f : A -> M unit) l :
  (forall x, steady R (f x)) -> steady R (forEach f l).
Proof.
  intros Hf. induction l as [|x l IH]; simpl.
  - apply steady_ret.
  - apply steady_bind; [apply Hf | intros _; apply IH].
Qed.

Lemma steady_joined_parts : steady R joined_parts.
Proof. now apply steady_unchanged. Qed.

Lemma steady_identifier name : steady R (identifier name).
Proof.
  apply steady_unchanged. intros b.
  unfold identifier, validateIdentifier, bind.
  now destruct (negb _).
Qed.

Lemma steady_build : steady R build.
Proof. now apply steady_unchanged. Qed.

Lemma steady_getParams : steady R getParams.
Proof. now apply steady_unchanged. Qed.

End Steady.

Section SteadyInstances.
Context {rt : Js.Runtime}.
Import Js Builder.

Lemma evolves_refl b : evolves b b.
Proof. split; [lia | auto]. Qed.

Lemma evolves_trans b1 b2 b3 : evolves b1 b2 -> evolves b2 b3 -> evolves b1 b3.
Proof. intros [H1 A1] [H2 A2]. split; [lia | auto]. Qed.

Lemma keeps_parameters_refl b : keeps_parameters b b.
Proof. now split. Qed.

Lemma keeps_parameters_trans b1 b2 b3 :
  keeps_parameters b1 b2 -> keeps_parameters b2 b3 -> keeps_parameters b1 b3.
Proof. intros [H1 A1] [H2 A2]. split; congruence. Qed.

Lemma evolves_push_part s : steady evolves (push_part s).
Proof. intros b. split; simpl; [lia | auto]. Qed.

Lemma keeps_parameters_push_part s : steady keeps_parameters (push_part s).
Proof. intros b. now split. Qed.

Lemma aligned_add_parameter b w : aligned b -> aligned (add_parameter b w).
Proof.
  unfold aligned. simpl. rewrite length_app. simpl. lia.
Qed.

Lemma evolves_param v : steady evolves (param v).
Proof.
  intros b. destruct (paramValue_of v) as [w|e] eqn:E.
  - rewrite (param_ok v w b E). split; simpl; [lia|].
    apply aligned_add_parameter.
  - rewrite (param_throw v e b E). apply evolves_refl.
Qed.

End SteadyInstances.

Create HintDb steady.

#[local] Hint Resolve evolves_refl evolves_trans
  keeps_parameters_refl keeps_parameters_trans : steady.
#[local] Hint Resolve steady_ret steady_throw steady_lift steady_joined_parts
  steady_identifier steady_build steady_getParams
  evolves_push_part keeps_parameters_push_part evolves_param : steady.

(** Goes through a method one statement at a time. *)
Ltac steady_step :=
  match goal with
  | |- steady _ (bind _ _) =>
      apply steady_bind; try solve [eauto with steady]; intros
  | |- steady _ (mapM _ _) =>
      apply steady_mapM; try solve [eauto with steady]; intros
  | |- steady _ (forEach _ _) =>
      apply steady_forEach; try solve [eauto with steady]; intros
  | |- steady _ (if ?c then _ else _) => destruct c
  | |- steady _ (match ?x with _ => _ end) => destruct x
  | |- steady _ _ => solve [eauto with steady]
  end.

Section CounterFacts.
Context {rt : Js.Runtime}.
Import Js Builder.

Ltac unfold_methods :=
  unfold drop, raw, params, identifiers, select, from, where_, and_, or_,
    orderBy, groupBy, limit, offset, join, insertInto, values, update,
    set, assignment, deleteFrom, toSQL.

Lemma evolves_exec c : is_reset c = false -> steady evolves (exec c).
Proof.
  destruct c; simpl; intros E; try discriminate;
    unfold_methods; repeat steady_step.
Qed.

Lemma aligned_reset b : aligned (snd (reset b)).
Proof. reflexivity. Qed.

End CounterFacts.

(* ------------------------------------------------------------------ *)
(** ** The type-inference table *)
(* ------------------------------------------------------------------ *)

Section FloorFacts.
Import Js.

Lemma digits2_pos_size p : digits2_pos p = Pos.size p.
Proof. induction p; simpl; congruence. Qed.

Lemma digits2_pos_iter d : forall p,
  digits2_pos (Pos.iter xO p d) = (digits2_pos p + d)%positive.
Proof.
  induction d using Pos.peano_ind; intros p.
  - simpl. lia.
  - rewrite Pos.iter_succ. simpl. rewrite IHd. lia.
Qed.

Lemma iter_xO_value d p : Z.pos (Pos.iter xO p d) = (Z.pos p * 2 ^ Z.pos d)%Z.
Proof.
  induction d using Pos.peano_ind.
  - simpl. lia.
  - rewrite Pos.iter_succ. rewrite Pos2Z.inj_xO, IHd.
    rewrite Pos2Z.inj_succ, Z.pow_succ_r by lia. ring.
Qed.

Lemma binary_round_aux_exact s m e :
  Z.pos (digits2_pos m) = 53%Z ->
  (-1074 <= e <= 971)%Z ->
  binary_round_aux prec emax s (Z.pos m) e loc_Exact = S754_finite s m e
  /\ SpecFloat.valid_binary prec emax (S754_finite s m e) = true.
Proof.
  intros Hm He.
  assert (fexp prec emax (53 + e) = e) as Hf.
  { unfold fexp, emin, prec, emax. lia. }
  assert ((e <=? emax - prec)%Z = true) as Hle.
  { apply Z.leb_le. unfold emax, prec. lia. }
  assert (shr_fexp prec emax (Z.pos m) e loc_Exact
          = (shr_record_of_loc (Z.pos m) loc_Exact, e)) as Hs.
  { unfold shr_fexp. cbn [Zdigits2]. now rewrite Hm, Hf, Z.sub_diag. }
  split.
  - unfold binary_round_aux. rewrite Hs.
    change (round_nearest_even
              (shr_m (shr_record_of_loc (Z.pos m) loc_Exact))
              (loc_of_shr_record (shr_record_of_loc (Z.pos m) loc_Exact)))
      with (Z.pos m).
    rewrite Hs. cbn [shr_m shr_record_of_loc]. now rewrite Hle.
  - cbn. unfold bounded, canonical_mantissa.
    now rewrite Hm, Hf, Z.eqb_refl, Hle.
Qed.

(** An integer of at most 53 bits is a float. *)
Lemma binary_round_integer s p :
  (Z.pos (digits2_pos p) <= 53)%Z ->
  exists m e,
    binary_round prec emax s p 0 = S754_finite s m e
    /\ (e <= 0)%Z
    /\ Z.pos m = (Z.pos p * 2 ^ (- e))%Z
    /\ SpecFloat.valid_binary prec emax (S754_finite s m e) = true.
Proof.
  intros Hd. unfold binary_round.
  assert (fexp prec emax (Z.pos (digits2_pos p) + 0)
          = (Z.pos (digits2_pos p) - 53)%Z) as ->.
  { unfold fexp, emin, prec, emax. lia. }
  unfold shl_align.
  destruct (Z.pos (digits2_pos p) - 53 - 0)%Z as [|k|k] eqn:Ek; try lia.
  - exists p, 0%Z.
    destruct (binary_round_aux_exact s p 0) as [-> Hv]; try lia.
    repeat split; try lia. exact Hv.
  - exists (Pos.iter xO p k), (Z.pos (digits2_pos p) - 53)%Z.
    destruct (binary_round_aux_exact s (Pos.iter xO p k)
                (Z.pos (digits2_pos p) - 53)) as [-> Hv].
    + rewrite digits2_pos_iter. lia.
    + lia.
    + repeat split; try lia; [|exact Hv].
      rewrite iter_xO_value. f_equal. f_equal. lia.
Qed.

Lemma digits2_pos_le p m :
  (p <= m)%positive -> (Z.pos (digits2_pos p) <= Z.pos (digits2_pos m))%Z.
Proof.
  intros H. rewrite (digits2_pos_size p), (digits2_pos_size m).
  pose proof (Pos.size_le p) as Hp. pose proof (Pos.size_gt m) as Hm.
  apply Pos2Z.pos_le_pos in Hp. apply Pos2Z.pos_lt_pos in Hm.
  rewrite Pos2Z.inj_pow in Hp, Hm.
  assert (2 ^ Z.pos (Pos.size p) < 2 ^ (Z.pos (Pos.size m) + 1))%Z as Hlt.
  { rewrite Z.pow_add_r, Z.pow_1_r by lia. lia. }
  apply Z.pow_lt_mono_r_iff in Hlt; lia.
Qed.

Lemma valid_digits s m e :
  SpecFloat.valid_binary prec emax (S754_finite s m e) = true ->
  (Z.pos (digits2_pos m) <= 53)%Z.
Proof.
  cbn. unfold bounded, canonical_mantissa, fexp, emin, prec, emax.
  intros H. apply andb_true_iff in H as [H _]. apply Z.eqb_eq in H. lia.
Qed.

Lemma quotient_magnitude z j :
  (0 < j)%Z -> (Z.abs (z / 2 ^ j) <= Z.abs z)%Z.
Proof.
  intros Hj. assert (2 <= 2 ^ j)%Z as H2.
  { change 2%Z with (2 ^ 1)%Z at 1. apply Z.pow_le_mono_r; lia. }
  pose proof (Z.mul_div_le z (2 ^ j)) as H1.
  pose proof (Z.mul_succ_div_gt z (2 ^ j)) as H3.
  nia.
Qed.

Lemma Math_floor_is_floor x :
  match real_value x with
  | Some r =>
      exists r',
        real_value (Math_floor x) = Some r'
        /\ QArith_base.Qeq r' (QArith_base.inject_Z (Qround.Qfloor r))
  | None => Math_floor x = x
  end.
Proof.
  pose proof (FloatAxioms.Prim2SF_valid x) as Hv.
  unfold real_value at 1. unfold Math_floor.
  destruct (Prim2SF x) as [s0| s0 | |s m e] eqn:E; try reflexivity.
  - exists (QArith_base.inject_Z 0). unfold real_value. rewrite E.
    split; reflexivity.
  - destruct e as [|k|k].
    + cbn [Z.leb Z.compare]. cbv iota.
      eexists. unfold real_value. rewrite E. split; [reflexivity|].
      now rewrite Qround.Qfloor_Z.
    + cbn [Z.leb Z.compare]. cbv iota.
      eexists. unfold real_value. rewrite E. split; [reflexivity|].
      now rewrite Qround.Qfloor_Z.
    + cbn [Z.leb Z.compare]. cbv iota. cbv zeta.
      set (z := if s then Z.neg m else Z.pos m).
      change (- Z.neg k)%Z with (Z.pos k).
      assert (Qround.Qfloor (QArith_base.Qmake z (2 ^ k))
              = (z / 2 ^ Z.pos k)%Z) as ->.
      { unfold Qround.Qfloor. now rewrite Pos2Z.inj_pow. }
      pose proof (quotient_magnitude z (Z.pos k) eq_refl) as Hq.
      pose proof (valid_digits _ _ _ Hv) as Hm.
      assert (Z.abs z = Z.pos m) as Hz by (subst z; now destruct s).
      destruct (z / 2 ^ Z.pos k)%Z as [|p|p] eqn:Eq.
      * exists (QArith_base.inject_Z 0). split; reflexivity.
      * cbn [Z.eqb]. cbv iota. unfold binary_normalize.
        assert (Z.pos (digits2_pos p) <= 53)%Z as Hp.
        { etransitivity; [apply digits2_pos_le|exact Hm]. lia. }
        destruct (binary_round_integer false p Hp)
          as (m' & e' & -> & He' & Hm' & Hv').
        unfold real_value. rewrite (FloatAxioms.Prim2SF_SF2Prim _ Hv').
        eexists. split; [reflexivity|].
        destruct e' as [|k'|k']; try lia; unfold QArith_base.Qeq; cbn.
        -- simpl in Hm'. lia.
        -- change (- Z.neg k')%Z with (Z.pos k') in Hm'.
           rewrite <- Pos2Z.inj_pow in Hm'. lia.
      * cbn [Z.eqb]. cbv iota. unfold binary_normalize.
        assert (Z.pos (digits2_pos p) <= 53)%Z as Hp.
        { etransitivity; [apply digits2_pos_le|exact Hm]. lia. }
        destruct (binary_round_integer true p Hp)
          as (m' & e' & -> & He' & Hm' & Hv').
        unfold real_value. rewrite (FloatAxioms.Prim2SF_SF2Prim _ Hv').
        eexists. split; [reflexivity|].
        destruct e' as [|k'|k']; try lia; unfold QArith_base.Qeq; cbn.
        -- simpl in Hm'. lia.
        -- change (- Z.neg k')%Z with (Z.pos k') in Hm'.
           rewrite <- Pos2Z.inj_pow in Hm'. lia.
Qed.

End FloorFacts.

Section ParamClaims.
Context {rt : Js.Runtime}.
Import Js Builder.

(** C3, as the code has it: [param(v)] stores the wire value and returns
    the placeholder whose tag follows the table.  A Date is stored as
    the floor of its time in milliseconds divided by 1000 and tagged
    DateTime, the floor of a number being the greatest integer that is
    not above it, and NaN and the infinities being their own floor.  A
    boolean is stored as 1 or 0 and tagged UInt8.  A plain object goes
    through [JSON.stringify]: when that returns a text, the text is
    stored and tagged String; when it returns undefined, undefined is
    stored and tagged Nullable(String); when it throws, [param] throws
    the same and stores nothing.  null and undefined are stored
    unchanged and tagged Nullable(String); a number is tagged Int32 when
    it is integral and Float64 otherwise; a bigint Int64; a string
    String; an array Array(String).  For a boolean and a Date the tag
    comes from the original value whatever the stored value is, where
    the stored number 1 alone would be tagged Int32. *)
Theorem param_type_inference_table :
  forall b : SQLBuilder,
    let n := paramCounter b in
    (forall t,
        param (VDate t) b
        = (Ok (placeholder n "DateTime"),
           add_parameter b (VNumber (Math_floor (PrimFloat.div t 1000)))))
    /\ (forall x,
          match real_value x with
          | Some r =>
              exists r',
                real_value (Math_floor x) = Some r'
                /\ QArith_base.Qeq r'
                     (QArith_base.inject_Z (Qround.Qfloor r))
          | None => Math_floor x = x
          end)
    /\ (forall x,
        param (VBoolean x) b
        = (Ok (placeholder n "UInt8"),
           add_parameter b (VNumber (if x then 1 else 0)%float)))
    /\ (forall props text,
          JSON_stringify (VObject props) = Ok (Some text) ->
          param (VObject props) b
          = (Ok (placeholder n "String"), add_parameter b (VString text)))
    /\ (forall props,
          JSON_stringify (VObject props) = Ok None ->
          param (VObject props) b
          = (Ok (placeholder n "Nullable(String)"),
             add_parameter b VUndefined))
    /\ (forall props e,
          JSON_stringify (VObject props) = Throw e ->
          param (VObject props) b = (Throw e, b))
    /\ param VNull b
       = (Ok (placeholder n "Nullable(String)"), add_parameter b VNull)
    /\ param VUndefined b
       = (Ok (placeholder n "Nullable(String)"), add_parameter b VUndefined)
    /\ (forall x,
        param (VNumber x) b
        = (Ok (placeholder n (if Number_isInteger_float x
                              then "Int32" else "Float64")),
           add_parameter b (VNumber x)))
    /\ (forall z,
        param (VBigInt z) b
        = (Ok (placeholder n "Int64"), add_parameter b (VBigInt z)))
    /\ (forall s,
        param (VString s) b
        = (Ok (placeholder n "String"), add_parameter b (VString s)))
    /\ (forall items,
        param (VArray items) b
        = (Ok (placeholder n "Array(String)"), add_parameter b (VArray items)))
    /\ (forall x w, inferClickHouseType w (VBoolean x) = "UInt8")
    /\ (forall t w, inferClickHouseType w (VDate t) = "DateTime")
    /\ inferClickHouseType (VNumber 1) (VNumber 1) = "Int32".
Proof.
  intros b n. subst n.
  repeat match goal with |- _ /\ _ => split end; intros;
    try reflexivity.
  - apply Math_floor_is_floor.
  - unfold param, bind, lift, paramValue_of. simpl. now rewrite H.
  - unfold param, bind, lift, paramValue_of. simpl. now rewrite H.
  - unfold param, bind, lift, paramValue_of. simpl. now rewrite H.
Qed.

End ParamClaims.

Lemma param_type_inference_table_witness :
  Builder.param (rt := Demo.runtime) (VDate 1700000000999) newSQLBuilder
  = (Ok "{param0:DateTime}",
     {| parts := []; parameters := [VNumber 1700000000];
        paramCounter := 1 |})
  /\ Builder.param (rt := Demo.runtime) (VDate (-1)) newSQLBuilder
     = (Ok "{param0:DateTime}",
        {| parts := []; parameters := [VNumber (-1)]; paramCounter := 1 |})
  /\ Builder.param (rt := Demo.runtime)
       (VObject [("plan", VString "pro"); ("seats", VNumber 5)])
       newSQLBuilder
     = (Ok "{param0:String}",
        {| parts := [];
           parameters :=
             [VString ("{" ++ Demo.quoted "plan" ++ ":" ++ Demo.quoted "pro"
                           ++ "," ++ Demo.quoted "seats" ++ ":5}")];
           paramCounter := 1 |})
  /\ Builder.param (rt := Demo.runtime)
       (VObject [("toJSON", VFunction "toJSON")]) newSQLBuilder
     = (Ok "{param0:Nullable(String)}",
        {| parts := []; parameters := [VUndefined]; paramCounter := 1 |})
  /\ Builder.param (rt := Demo.runtime)
       (VObject [("id", VBigInt 7)]) newSQLBuilder
     = (Throw (TypeError "Do not know how to serialize a BigInt"),
        newSQLBuilder).
Proof.
  destruct (param_type_inference_table (rt := Demo.runtime) newSQLBuilder)
    as (Hdate & _ & _ & Htext & Hnone & Hthrow & _).
  split; [|split; [|split; [|split]]].
  - rewrite Hdate. reflexivity.
  - rewrite Hdate. reflexivity.
  - apply Htext. reflexivity.
  - apply Hnone. reflexivity.
  - apply Hthrow. reflexivity.
Defined.

(** A plain object is not always stored as a text tagged String: when
    [JSON.stringify] returns undefined, as for an object whose [toJSON]
    method returns nothing, [param] stores undefined and tags it
    Nullable(String); and when [JSON.stringify] throws, [param] stores
    nothing at all. *)
Lemma param_object_without_json_text :
  let v := VObject [("toJSON", VFunction "toJSON")] in
  Js.typeof v = "object" /\ Js.is_null v = false
  /\ Js.Array_isArray v = false /\ Js.instanceof_Date v = false
  /\ Builder.param (rt := Demo.runtime) v newSQLBuilder
     = (Ok (placeholder 0 "Nullable(String)"),
        add_parameter newSQLBuilder VUndefined)
  /\ (forall text,
        Builder.param (rt := Demo.runtime) v newSQLBuilder
        <> (Ok (placeholder 0 "String"),
            add_parameter newSQLBuilder (VString text)))
  /\ Builder.param (rt := Demo.runtime) (VObject [("id", VBigInt 7)])
       newSQLBuilder
     = (Throw (TypeError "Do not know how to serialize a BigInt"),
        newSQLBuilder).
Proof.
  cbv zeta. repeat split; try reflexivity.
  intros text H. discriminate H.
Qed.

Section ParamExamples.
Import Js Builder.

(** [Math.floor] and [Number.isInteger] on a few floats. *)
Example Math_floor_values :
  Math_floor 2.5 = 2%float /\ Math_floor (-2.5) = (-3)%float
  /\ Math_floor 0.5 = 0%float /\ Math_floor (-0.5) = (-1)%float
  /\ Math_floor 7 = 7%float /\ Math_floor infinity = infinity
  /\ Math_floor nan = nan.
Proof. vm_compute. repeat split. Qed.

Example Number_isInteger_values :
  Number_isInteger (VNumber 3) = true
  /\ Number_isInteger (VNumber 0.5) = false
  /\ Number_isInteger (VNumber 9007199254740992) = true
  /\ Number_isInteger (VNumber infinity) = false
  /\ Number_isInteger (VNumber nan) = false
  /\ Number_isInteger (VString "3") = false.
Proof. vm_compute. repeat split. Qed.

(** The rows of the table the specification lists, run on a new builder. *)
Example param_true :
  param (rt := Demo.runtime) (VBoolean true) newSQLBuilder
  = (Ok "{param0:UInt8}", add_parameter newSQLBuilder (VNumber 1)).
Proof. reflexivity. Qed.

Example param_3 :
  fst (param (rt := Demo.runtime) (VNumber 3) newSQLBuilder)
  = Ok "{param0:Int32}".
Proof. reflexivity. Qed.

(** 3.14 is the float 0x1.91eb851eb851fp+1. *)
Example param_3_14 :
  fst (param (rt := Demo.runtime) (VNumber 0x1.91eb851eb851fp+1)
             newSQLBuilder)
  = Ok "{param0:Float64}".
Proof. reflexivity. Qed.

Example param_NaN :
  fst (param (rt := Demo.runtime) (VNumber nan) newSQLBuilder)
  = Ok "{param0:Float64}".
Proof. reflexivity. Qed.

Example param_null :
  fst (param (rt := Demo.runtime) VNull newSQLBuilder)
  = Ok "{param0:Nullable(String)}".
Proof. reflexivity. Qed.

(** 14 November 2023, 22:13:20.123 UTC. *)
Example param_date :
  param (rt := Demo.runtime) (VDate 1700000000123) newSQLBuilder
  = (Ok "{param0:DateTime}",
     add_parameter newSQLBuilder (VNumber 1700000000)).
Proof. vm_compute. reflexivity. Qed.

(** One millisecond before the epoch is in second -1. *)
Example param_date_before_epoch :
  param (rt := Demo.runtime) (VDate (-1)) newSQLBuilder
  = (Ok "{param0:DateTime}", add_parameter newSQLBuilder (VNumber (-1))).
Proof. vm_compute. reflexivity. Qed.

Example param_object :
  param (rt := Demo.runtime)
        (VObject [("a", VNumber 1); ("b", VString "x")]) newSQLBuilder
  = (Ok "{param0:String}",
     add_parameter newSQLBuilder
       (VString ("{" ++ Demo.quoted "a" ++ ":1,"
                     ++ Demo.quoted "b" ++ ":" ++ Demo.quoted "x"
                     ++ "}"))).
Proof. reflexivity. Qed.

End ParamExamples.

(* ------------------------------------------------------------------ *)
(** ** Placeholders and parameters stay aligned *)
(* ------------------------------------------------------------------ *)

Section AlignmentClaim.
Context {rt : Js.Runtime}.
Import Js Builder.

(** C2: A reset builder is a new builder.  When [N] calls of [param] in
    a row return on a new builder, the placeholders returned are
    [{param0:Tag0}] to [{param(N-1):Tag(N-1)}] in call order,
    [getParams()] returns exactly the [N] stored values in the same
    order, and the placeholder of index [k] stands for the value at
    position [k].  On any aligned builder a returning [param] numbers
    its placeholder with the position at which it stores the value.
    No call other than [reset] makes the counter decrease, and every
    call keeps an aligned builder aligned. *)
Theorem params_placeholders_aligned :
  forall (vs : list JsValue) (phs : list string) (b0 b' : SQLBuilder),
    snd (reset b0) = newSQLBuilder
    /\ (params vs newSQLBuilder = (Ok phs, b') ->
        exists ws,
          Forall2 (fun v w => paramValue_of v = Ok w) vs ws
          /\ phs = placeholders_from 0 vs ws
          /\ fst (getParams b') = Ok ws
          /\ List.length ws = List.length vs
          /\ List.length phs = List.length vs
          /\ (forall k v w,
                nth_error vs k = Some v -> nth_error ws k = Some w ->
                nth_error phs k
                = Some (placeholder (N.of_nat k) (inferClickHouseType w v)))
          /\ paramCounter b' = N.of_nat (List.length vs))
    /\ (forall v ph b1,
          aligned b0 -> param v b0 = (Ok ph, b1) ->
          exists w,
            ph = placeholder (paramCounter b0) (inferClickHouseType w v)
            /\ nth_error (parameters b1) (N.to_nat (paramCounter b0)) = Some w)
    /\ (forall c b,
          is_reset c = false ->
          (paramCounter b <= paramCounter (snd (exec c b)))%N)
    /\ (forall c b, aligned b -> aligned (snd (exec c b))).
Proof.
  intros vs phs b0 b'. split; [reflexivity|]. split; [|split; [|split]].
  - intros H. apply params_inv in H as (ws & Hws & -> & ->).
    exists ws.
    destruct (fold_add_parameter ws newSQLBuilder) as (_ & Hq & Hn).
    pose proof (Forall2_length Hws) as Hlen.
    split; [assumption|]. split; [reflexivity|].
    split; [unfold getParams; simpl; now rewrite Hq|].
    split; [now symmetry|].
    split; [apply length_placeholders_from; now symmetry|].
    split.
    + intros k v w Hv Hw.
      exact (nth_placeholders_from vs ws 0%N k v w Hv Hw).
    + rewrite Hn, <- Hlen. simpl. lia.
  - intros v ph b1 Hal H.
    apply param_inv in H as (w & _ & -> & ->).
    exists w. split; [reflexivity|].
    unfold aligned in Hal. rewrite <- Hal, Nat2N.id. simpl.
    rewrite nth_error_app2 by lia. now rewrite Nat.sub_diag.
  - intros c b Hc. apply (evolves_exec c Hc b).
  - intros c b Hal. destruct (is_reset c) eqn:Hc.
    + destruct c; try discriminate. reflexivity.
    + now apply (evolves_exec c Hc b).
Qed.

End AlignmentClaim.

Lemma params_placeholders_aligned_witness :
  exists ws,
    Forall2 (fun v w => Builder.paramValue_of (rt := Demo.runtime) v = Ok w)
            [VString "first"; VNumber 42; VBoolean true] ws
    /\ ["{param0:String}"; "{param1:Int32}"; "{param2:UInt8}"]
       = placeholders_from 0 [VString "first"; VNumber 42; VBoolean true] ws
    /\ fst (Builder.getParams
              {| parts := [];
                 parameters := [VString "first"; VNumber 42; VNumber 1];
                 paramCounter := 3 |}) = Ok ws
    /\ List.length ws = 3%nat
    /\ List.length ["{param0:String}"; "{param1:Int32}"; "{param2:UInt8}"]
       = 3%nat
    /\ (forall k v w,
          nth_error [VString "first"; VNumber 42; VBoolean true] k = Some v ->
          nth_error ws k = Some w ->
          nth_error ["{param0:String}"; "{param1:Int32}"; "{param2:UInt8}"] k
          = Some (placeholder (N.of_nat k) (Builder.inferClickHouseType w v)))
    /\ 3%N = 3%N.
Proof.
  exact (proj1 (proj2
           (params_placeholders_aligned (rt := Demo.runtime)
              [VString "first"; VNumber 42; VBoolean true]
              ["{param0:String}"; "{param1:Int32}"; "{param2:UInt8}"]
              newSQLBuilder
              {| parts := [];
                 parameters := [VString "first"; VNumber 42; VNumber 1];
                 paramCounter := 3 |}))
           eq_refl).
Defined.

(* ------------------------------------------------------------------ *)
(** ** Clauses *)
(* ------------------------------------------------------------------ *)

Section ClauseFacts.
Import Ident JsString Builder.

Lemma array_includes_In l x : array_includes l x = true <-> In x l.
Proof.
  unfold array_includes. rewrite existsb_exists. split.
  - intros (y & Hin & E). apply String.eqb_eq in E. now subst.
  - intros H. exists x. split; [assumption | apply String.eqb_refl].
Qed.

Lemma array_includes_not_In l x : array_includes l x = false <-> ~ In x l.
Proof.
  rewrite <- array_includes_In. now destruct (array_includes l x).
Qed.

(** Quoting a list of valid names quotes each of them, in order. *)
Lemma mapM_identifier_valid fields b :
  Forall (fun f => valid_name f = true) fields ->
  mapM (fun f => identifier (NameString f)) fields b
  = (Ok (map quoted_name fields), b).
Proof.
  induction 1 as [|f fields Hf _ IH]; simpl; [reflexivity|].
  unfold bind at 1. rewrite (identifier_valid f b Hf).
  unfold bind at 1. now rewrite IH.
Qed.

(** Quoting a list with an invalid name throws at the first of them. *)
Lemma mapM_identifier_invalid fields b :
  Exists (fun f => valid_name f = false) fields ->
  exists f,
    In f fields /\ valid_name f = false
    /\ mapM (fun f => identifier (NameString f)) fields b
       = (Throw (SQLInjectionError (invalid_identifier_message f) (Some f)), b).
Proof.
  induction fields as [|g fields IH]; intros H; [inversion H|].
  simpl. unfold bind at 1.
  destruct (valid_name g) eqn:Hg.
  - rewrite (identifier_valid g b Hg).
    assert (Exists (fun f => valid_name f = false) fields) as H'
      by (inversion H; subst; [congruence | assumption]).
    destruct (IH H') as (f & Hin & Hf & E).
    exists f. split; [now right|]. split; [assumption|].
    unfold bind at 1. now rewrite E.
  - rewrite (identifier_invalid g b Hg).
    exists g. split; [now left|]. now split.
Qed.

End ClauseFacts.

Section SelectClaim.
Import Ident JsString Builder.

(** C7: [select(fields)] throws [SQLInjectionError] on the empty list
    and appends nothing.  When [*] is among the fields it appends SELECT
    and a bare [*], whatever the other fields are: none is validated or
    quoted.  Otherwise it appends SELECT and the comma-joined backticked
    identifiers of the fields in order; a field that is not a valid name
    makes [identifier] throw, after SELECT was appended. *)
Theorem select_empty_star_or_quoted_fields :
  forall (fields : list string) (b : SQLBuilder),
    (fields = [] ->
       select fields b
       = (Throw (SQLInjectionError "SELECT fields cannot be empty" None), b))
    /\ (In "*" fields ->
          select fields b = (Ok tt, add_parts b ["SELECT"; "*"]))
    /\ (fields <> [] -> ~ In "*" fields ->
        Forall (fun f => valid_name f = true) fields ->
          select fields b
          = (Ok tt, add_parts b ["SELECT";
                                 JsString.join ", " (map quoted_name fields)]))
    /\ (~ In "*" fields ->
        Exists (fun f => valid_name f = false) fields ->
          exists f,
            In f fields /\ valid_name f = false
            /\ select fields b
               = (Throw (SQLInjectionError (invalid_identifier_message f)
                                           (Some f)),
                  add_parts b ["SELECT"])).
Proof.
  intros fields b.
  assert (fields <> [] ->
          select fields b
          = bind (push_part "SELECT")
              (fun _ =>
                 if array_includes fields "*" then push_part "*"
                 else
                   bind (mapM (fun f => identifier (NameString f)) fields)
                        (fun quoted => push_part (JsString.join ", " quoted)))
              b) as Hsel
    by (destruct fields; [congruence | reflexivity]).
  split; [|split; [|split]].
  - intros ->. reflexivity.
  - intros Hstar. rewrite Hsel by (intros ->; contradiction).
    rewrite bind_push_part.
    apply array_includes_In in Hstar. rewrite Hstar.
    now rewrite push_part_spec, add_parts_add_parts.
  - intros Hne Hstar Hvalid. rewrite (Hsel Hne), bind_push_part.
    apply array_includes_not_In in Hstar. rewrite Hstar.
    rewrite (bind_ok _ _ _ _ _ (mapM_identifier_valid _ _ Hvalid)).
    now rewrite push_part_spec, add_parts_add_parts.
  - intros Hstar Hinvalid.
    rewrite Hsel by (intros ->; inversion Hinvalid).
    rewrite bind_push_part.
    apply array_includes_not_In in Hstar. rewrite Hstar.
    destruct (mapM_identifier_invalid fields (add_parts b ["SELECT"])
                Hinvalid) as (f & Hin & Hf & E).
    exists f. split; [assumption|]. split; [assumption|].
    now rewrite (bind_throw _ _ _ _ _ E).
Qed.

Lemma select_empty_star_or_quoted_fields_witness :
  select [] newSQLBuilder
  = (Throw (SQLInjectionError "SELECT fields cannot be empty" None),
     newSQLBuilder)
  /\ select ["id"; "*"; "not a name"] newSQLBuilder
     = (Ok tt, add_parts newSQLBuilder ["SELECT"; "*"])
  /\ select ["id"; "name"] newSQLBuilder
     = (Ok tt, add_parts newSQLBuilder ["SELECT"; "`id`, `name`"])
  /\ exists f,
       In f ["id"; "user-name"] /\ valid_name f = false
       /\ select ["id"; "user-name"] newSQLBuilder
          = (Throw (SQLInjectionError (invalid_identifier_message f) (Some f)),
             add_parts newSQLBuilder ["SELECT"]).
Proof.
  split; [|split; [|split]].
  - apply (proj1 (select_empty_star_or_quoted_fields [] newSQLBuilder)).
    reflexivity.
  - apply (proj1 (proj2 (select_empty_star_or_quoted_fields
                           ["id"; "*"; "not a name"] newSQLBuilder))).
    simpl. auto.
  - apply (proj1 (proj2 (proj2 (select_empty_star_or_quoted_fields
                                  ["id"; "name"] newSQLBuilder)))).
    + discriminate.
    + simpl. intros [H|[H|[]]]; discriminate.
    + repeat constructor.
  - apply (proj2 (proj2 (proj2 (select_empty_star_or_quoted_fields
                                  ["id"; "user-name"] newSQLBuilder)))).
    + simpl. intros [H|[H|[]]]; discriminate.
    + apply Exists_cons_tl. apply Exists_cons_hd. reflexivity.
Defined.

End SelectClaim.

Section LimitOffsetClaim.
Context {rt : Js.Runtime}.
Import Js Builder.

(** C8: [limit(count)] and [offset(count)] throw [SQLInjectionError]
    exactly when [count < 0] holds, and then append nothing.  For every
    other count they append the keyword and [String(count)] and return;
    zero (and the negative zero) is among these, since [0 < 0] is
    false. *)
Theorem limit_offset_throw_iff_negative :
  forall (count : float) (b : SQLBuilder),
    (PrimFloat.ltb count 0 = true ->
       limit count b
       = (Throw (SQLInjectionError "LIMIT must be non-negative" None), b)
       /\ offset count b
          = (Throw (SQLInjectionError "OFFSET must be non-negative" None), b))
    /\ (PrimFloat.ltb count 0 = false ->
          limit count b
          = (Ok tt, add_parts b ["LIMIT"; String_of_number count])
          /\ offset count b
             = (Ok tt, add_parts b ["OFFSET"; String_of_number count]))
    /\ PrimFloat.ltb 0 0 = false
    /\ PrimFloat.ltb (-0) 0 = false.
Proof.
  intros count b. unfold limit, offset.
  split; [|split; [|split; reflexivity]]; intros ->.
  - now split.
  - rewrite !bind_push_part, !push_part_spec, !add_parts_add_parts.
    now split.
Qed.

End LimitOffsetClaim.

Lemma limit_offset_throw_iff_negative_witness :
  (Builder.limit (rt := Demo.runtime) (-1) newSQLBuilder
   = (Throw (SQLInjectionError "LIMIT must be non-negative" None),
      newSQLBuilder)
   /\ Builder.offset (rt := Demo.runtime) (-1) newSQLBuilder
      = (Throw (SQLInjectionError "OFFSET must be non-negative" None),
         newSQLBuilder))
  /\ (Builder.limit (rt := Demo.runtime) 0 newSQLBuilder
      = (Ok tt, add_parts newSQLBuilder ["LIMIT"; "0"])
      /\ Builder.offset (rt := Demo.runtime) 0 newSQLBuilder
         = (Ok tt, add_parts newSQLBuilder ["OFFSET"; "0"]))
  /\ (Builder.limit (rt := Demo.runtime) 10 newSQLBuilder
      = (Ok tt, add_parts newSQLBuilder ["LIMIT"; "10"])
      /\ Builder.offset (rt := Demo.runtime) 20 newSQLBuilder
         = (Ok tt, add_parts newSQLBuilder ["OFFSET"; "20"])).
Proof.
  split; [|split].
  - apply (proj1 (limit_offset_throw_iff_negative
                    (rt := Demo.runtime) (-1) newSQLBuilder)).
    reflexivity.
  - apply (proj1 (proj2 (limit_offset_throw_iff_negative
                           (rt := Demo.runtime) 0 newSQLBuilder))).
    reflexivity.
  - split.
    + apply (proj1 (proj2 (limit_offset_throw_iff_negative
                             (rt := Demo.runtime) 10 newSQLBuilder))).
      reflexivity.
    + apply (proj1 (proj2 (limit_offset_throw_iff_negative
                             (rt := Demo.runtime) 20 newSQLBuilder))).
      reflexivity.
Defined.

(* ------------------------------------------------------------------ *)
(** ** ORDER BY: the keyword is found by scanning the emitted text *)
(* ------------------------------------------------------------------ *)

Section ScanFacts.
Import JsString.

Lemma prefix_append sub s t :
  String.prefix sub s = true -> String.prefix sub (s ++ t) = true.
Proof.
  revert s. induction sub as [|c sub IH]; intros s H.
  - now destruct (s ++ t).
  - destruct s as [|d s]; simpl in *; [discriminate|].
    destruct (ascii_dec c d); [now apply IH | discriminate].
Qed.

Lemma prefix_self sub t : String.prefix sub (sub ++ t) = true.
Proof.
  induction sub as [|c sub IH]; simpl.
  - now destruct t.
  - destruct (ascii_dec c c); [assumption | congruence].
Qed.

Lemma includes_cons c s sub :
  includes (String c s) sub = String.prefix sub (String c s) || includes s sub.
Proof. reflexivity. Qed.

Lemma includes_append_r s t sub :
  includes s sub = true -> includes (s ++ t) sub = true.
Proof.
  induction s as [|c s IH]; intros H.
  - destruct sub; [|discriminate].
    destruct t; reflexivity.
  - rewrite includes_cons in H.
    change (String c s ++ t) with (String c (s ++ t)).
    rewrite includes_cons.
    apply orb_true_iff in H as [H|H].
    + change (String c (s ++ t)) with (String c s ++ t).
      now rewrite (prefix_append _ _ t H).
    + rewrite (IH H). apply orb_true_r.
Qed.

Lemma includes_append_l s t sub :
  includes t sub = true -> includes (s ++ t) sub = true.
Proof.
  intros H. induction s as [|c s IH]; [assumption|].
  change (String c s ++ t) with (String c (s ++ t)).
  rewrite includes_cons, IH. apply orb_true_r.
Qed.

Lemma includes_middle pre sub post : includes (pre ++ sub ++ post) sub = true.
Proof.
  apply includes_append_l.
  pose proof (prefix_self sub post) as H.
  destruct (sub ++ post); [|rewrite includes_cons]; [unfold includes|];
    now rewrite H.
Qed.

(** Joining more parts only extends the text to the right. *)
Lemma join_extends sep l more :
  exists rest, join sep (l ++ more)%list = join sep l ++ rest.
Proof.
  unfold join. induction l as [|x l IH]; simpl.
  - now exists (String.concat sep more).
  - destruct IH as (rest & E).
    destruct l as [|y l]; simpl in *.
    + destruct more as [|z more].
      * exists "". now rewrite append_nil_r.
      * exists (sep ++ String.concat sep (z :: more)). reflexivity.
    + exists rest. rewrite E. now rewrite !append_assoc.
Qed.

(** A part is in the joined text. *)
Lemma join_contains_part sep l x more :
  exists pre post, join sep (l ++ x :: more)%list = pre ++ x ++ post.
Proof.
  unfold join. induction l as [|y l IH]; simpl.
  - exists "". destruct more as [|z more].
    + exists "". simpl. now rewrite append_nil_r.
    + exists (sep ++ String.concat sep (z :: more)). reflexivity.
  - destruct IH as (pre & post & E).
    destruct (l ++ x :: more)%list eqn:El.
    + now destruct l.
    + exists (y ++ sep ++ pre), post. rewrite E. now rewrite !append_assoc.
Qed.

Lemma includes_join_extends sep l more sub :
  includes (join sep l) sub = true ->
  includes (join sep (l ++ more)%list) sub = true.
Proof.
  intros H. destruct (join_extends sep l more) as (rest & ->).
  now apply includes_append_r.
Qed.

Lemma includes_join_part sep l x more :
  includes (join sep (l ++ x :: more)%list) x = true.
Proof.
  destruct (join_contains_part sep l x more) as (pre & post & ->).
  apply includes_middle.
Qed.

End ScanFacts.

Section OrderByClaim.
Import Ident JsString Builder.

Lemma orderBy_scan field direction b :
  orderBy field direction b
  = (if includes (JsString.join " " (parts b)) "ORDER BY"
     then bind (push_part ",")
            (fun _ => bind (identifier (NameString field))
               (fun f => bind (push_part f)
                  (fun _ => push_part
                              (Direction_text (direction_or_default direction)))))
     else bind (push_part "ORDER BY")
            (fun _ => bind (identifier (NameString field))
               (fun f => bind (push_part f)
                  (fun _ => push_part
                              (Direction_text (direction_or_default direction))))))
      b.
Proof. reflexivity. Qed.

Lemma orderBy_with_keyword field direction b :
  valid_name field = true ->
  includes (JsString.join " " (parts b)) "ORDER BY" = false ->
  orderBy field direction b
  = (Ok tt, add_parts b ["ORDER BY"; quoted_name field;
                         Direction_text (direction_or_default direction)]).
Proof.
  intros Hf Hscan. rewrite orderBy_scan, Hscan, bind_push_part.
  rewrite (bind_ok _ _ _ _ _ (identifier_valid field _ Hf)).
  now rewrite bind_push_part, push_part_spec, !add_parts_add_parts.
Qed.

Lemma orderBy_with_comma field direction b :
  valid_name field = true ->
  includes (JsString.join " " (parts b)) "ORDER BY" = true ->
  orderBy field direction b
  = (Ok tt, add_parts b [","; quoted_name field;
                         Direction_text (direction_or_default direction)]).
Proof.
  intros Hf Hscan. rewrite orderBy_scan, Hscan, bind_push_part.
  rewrite (bind_ok _ _ _ _ _ (identifier_valid field _ Hf)).
  now rewrite bind_push_part, push_part_spec, !add_parts_add_parts.
Qed.

(** Once [orderBy] has returned, the emitted text contains the keyword. *)
Lemma orderBy_leaves_keyword field direction b b' :
  orderBy field direction b = (Ok tt, b') ->
  includes (JsString.join " " (parts b')) "ORDER BY" = true.
Proof.
  destruct (valid_name field) eqn:Hf.
  - destruct (includes (JsString.join " " (parts b)) "ORDER BY") eqn:Hscan.
    + rewrite (orderBy_with_comma _ _ _ Hf Hscan). intros H.
      injection H as <-. simpl. now apply includes_join_extends.
    + rewrite (orderBy_with_keyword _ _ _ Hf Hscan). intros H.
      injection H as <-. simpl. apply includes_join_part.
  - rewrite orderBy_scan.
    destruct (includes _ _); rewrite bind_push_part;
      rewrite (bind_throw _ _ _ _ _ (identifier_invalid field _ Hf));
      discriminate.
Qed.

(** C6, as the code has it: [orderBy] decides between the keyword and
    the comma by scanning the text emitted so far, the parts joined by
    single spaces.  With a valid field it appends ORDER BY, the quoted
    field and the direction when that text does not contain [ORDER BY],
    and a comma, the quoted field and the direction when it does; the
    direction defaults to ASC.  After a returning call the text contains
    the keyword and keeps containing it while parts are only appended, so
    every later call with a valid field appends the comma form, without a
    second keyword.  On a new builder, [orderBy('name','ASC')] then
    [orderBy('age','DESC')] give the text of the specification. *)
Theorem orderBy_keyword_unless_text_has_it :
  forall (field : string) (direction : option Direction) (b : SQLBuilder),
    valid_name field = true ->
    let dir := Direction_text (direction_or_default direction) in
    (includes (JsString.join " " (parts b)) "ORDER BY" = false ->
       orderBy field direction b
       = (Ok tt, add_parts b ["ORDER BY"; quoted_name field; dir]))
    /\ (includes (JsString.join " " (parts b)) "ORDER BY" = true ->
          orderBy field direction b
          = (Ok tt, add_parts b [","; quoted_name field; dir]))
    /\ (forall b1 b2 more field2 direction2,
          orderBy field direction b = (Ok tt, b1) ->
          parts b2 = (parts b1 ++ more)%list ->
          valid_name field2 = true ->
          orderBy field2 direction2 b2
          = (Ok tt, add_parts b2
                      [","; quoted_name field2;
                       Direction_text (direction_or_default direction2)]))
    /\ direction_or_default None = ASC
    /\ fst (bind (orderBy "name" (Some ASC))
              (fun _ => bind (orderBy "age" (Some DESC)) (fun _ => toSQL))
              newSQLBuilder)
       = Ok "ORDER BY `name` ASC , `age` DESC".
Proof.
  intros field direction b Hf dir. subst dir.
  split; [now apply orderBy_with_keyword|].
  split; [now apply orderBy_with_comma|].
  split; [|split; reflexivity].
  intros b1 b2 more field2 direction2 H1 Hparts Hf2.
  apply orderBy_with_comma; [assumption|].
  rewrite Hparts. apply includes_join_extends.
  now apply (orderBy_leaves_keyword field direction b b1).
Qed.

Lemma orderBy_keyword_unless_text_has_it_witness :
  orderBy "name" None newSQLBuilder
  = (Ok tt, add_parts newSQLBuilder ["ORDER BY"; "`name`"; "ASC"])
  /\ orderBy "age" (Some DESC)
       (add_parts newSQLBuilder ["ORDER BY"; "`name`"; "ASC"; "LIMIT"; "5"])
     = (Ok tt, add_parts newSQLBuilder
                 ["ORDER BY"; "`name`"; "ASC"; "LIMIT"; "5";
                  ","; "`age`"; "DESC"]).
Proof.
  split.
  - apply (proj1 (orderBy_keyword_unless_text_has_it
                    "name" None newSQLBuilder eq_refl)).
    reflexivity.
  - apply (proj1 (proj2 (proj2 (orderBy_keyword_unless_text_has_it
                                  "name" None newSQLBuilder eq_refl)))
             (add_parts newSQLBuilder ["ORDER BY"; "`name`"; "ASC"])
             (add_parts newSQLBuilder
                        ["ORDER BY"; "`name`"; "ASC"; "LIMIT"; "5"])
             ["LIMIT"; "5"] "age" (Some DESC)).
    + reflexivity.
    + reflexivity.
    + reflexivity.
Defined.

(** The first [orderBy] on a builder whose text already holds the words
    ORDER BY, here inside a window function added with [raw], appends a
    comma and no keyword. *)
Lemma orderBy_first_call_appends_comma :
  orderBy "name" (Some ASC)
    (snd (raw "SELECT rank() OVER (ORDER BY score) AS pos" newSQLBuilder))
  = (Ok tt,
     {| parts := ["SELECT rank() OVER (ORDER BY score) AS pos";
                  ","; "`name`"; "ASC"];
        parameters := [];
        paramCounter := 0 |})
  /\ orderBy "name" (Some ASC)
       (snd (raw "SELECT rank() OVER (ORDER BY score) AS pos" newSQLBuilder))
     <> (Ok tt,
         {| parts := ["SELECT rank() OVER (ORDER BY score) AS pos";
                      "ORDER BY"; "`name`"; "ASC"];
            parameters := [];
            paramCounter := 0 |}).
Proof.
  split; [reflexivity | discriminate].
Qed.

End OrderByClaim.

(* ------------------------------------------------------------------ *)
(** ** Statements without filter *)
(* ------------------------------------------------------------------ *)

Section NoWhereFacts.
Context {rt : Js.Runtime}.
Import Ident JsString Js Builder.

Lemma adds_no_WHERE_refl b : adds_no_WHERE b b.
Proof. exists []. split; [now rewrite app_nil_r | intros []]. Qed.

Lemma adds_no_WHERE_trans b1 b2 b3 :
  adds_no_WHERE b1 b2 -> adds_no_WHERE b2 b3 -> adds_no_WHERE b1 b3.
Proof.
  intros (l1 & E1 & N1) (l2 & E2 & N2). exists (l1 ++ l2)%list. split.
  - now rewrite E2, E1, app_assoc.
  - rewrite in_app_iff. tauto.
Qed.

(** A bind whose continuation is run on what the first part returns. *)
Lemma steady_bind_result (R : SQLBuilder -> SQLBuilder -> Prop)
      {A B} (P : A -> Prop) (m : M A) (k : A -> M B) :
  (forall b1 b2 b3, R b1 b2 -> R b2 b3 -> R b1 b3) ->
  steady R m ->
  (forall b a b', m b = (Ok a, b') -> P a) ->
  (forall a, P a -> steady R (k a)) ->
  steady R (bind m k).
Proof.
  intros Htrans Hm HP Hk b. unfold bind.
  pose proof (Hm b) as Hb. pose proof (HP b) as HPb.
  destruct (m b) as [[a|e] b1]; simpl in *; [|assumption].
  eapply Htrans; [eassumption|]. apply Hk. now apply (HPb a b1).
Qed.

Lemma adds_no_WHERE_push_part s :
  s <> "WHERE" -> steady adds_no_WHERE (push_part s).
Proof.
  intros Hs b. exists [s]. split; [reflexivity|].
  intros [E|[]]. now apply Hs.
Qed.

Lemma adds_no_WHERE_parts_unchanged {A} (m : M A) :
  (forall b, parts (snd (m b)) = parts b) -> steady adds_no_WHERE m.
Proof.
  intros H b. exists []. split; [now rewrite H, app_nil_r | intros []].
Qed.

Lemma param_parts v b : parts (snd (param v b)) = parts b.
Proof.
  destruct (paramValue_of v) as [w|e] eqn:E.
  - now rewrite (param_ok v w b E).
  - now rewrite (param_throw v e b E).
Qed.

Lemma backticked_not_WHERE s : String.prefix "`" s = true -> s <> "WHERE".
Proof. intros H ->. discriminate. Qed.

Lemma join_backticked sep xs :
  Forall (fun s => String.prefix "`" s = true) xs ->
  JsString.join sep xs <> "WHERE".
Proof.
  unfold JsString.join. intros H. destruct H as [|x xs Hx _]; [discriminate|].
  apply backticked_not_WHERE. simpl.
  destruct xs; [assumption | now apply prefix_append].
Qed.

Lemma escapeIdentifier_backtick s :
  String.prefix "`" (escapeIdentifier s) = true.
Proof.
  unfold escapeIdentifier.
  destruct (split "." s) as [|t ts] eqn:E; [now destruct (split_not_nil "." s)|].
  assert (forall r, String.prefix "`" (String "`" r) = true) as Hq
    by (intros r; now destruct r).
  unfold JsString.join. simpl map. simpl String.concat.
  destruct (map _ ts); [|apply prefix_append]; apply Hq.
Qed.

(** [identifier] returns the escaped name or throws, the builder unchanged. *)
Lemma identifier_result name b q b' :
  identifier name b = (Ok q, b') ->
  q = escapeIdentifier (name_text name) /\ b' = b.
Proof.
  unfold identifier, validateIdentifier, bind. fold (name_text name).
  destruct (negb _); simpl; [discriminate|].
  intros H. injection H as <- <-. now split.
Qed.

Lemma identifier_result_backtick name b q b' :
  identifier name b = (Ok q, b') -> String.prefix "`" q = true.
Proof.
  intros H. apply identifier_result in H as [-> _].
  apply escapeIdentifier_backtick.
Qed.

Lemma mapM_result_Forall {A B} (P : B -> Prop) (f : A -> M B) l :
  (forall x b y b', f x b = (Ok y, b') -> P y) ->
  forall b ys b', mapM f l b = (Ok ys, b') -> Forall P ys.
Proof.
  intros Hf. induction l as [|x l IH]; simpl; intros b ys b' H.
  - injection H as <- _. constructor.
  - unfold bind at 1 in H.
    destruct (f x b) as [[y|e] b1] eqn:E1; [|discriminate].
    unfold bind at 1 in H.
    destruct (mapM f l b1) as [[ys'|e] b2] eqn:E2; [|discriminate].
    injection H as <- _. constructor; [eapply Hf | eapply IH]; eassumption.
Qed.

Lemma assignment_result entry b text b' :
  assignment entry b = (Ok text, b') -> String.prefix "`" text = true.
Proof.
  destruct entry as [key v]. unfold assignment. unfold bind at 1.
  destruct (identifier (NameString key) b) as [[q|e] b1] eqn:E1; [|discriminate].
  apply identifier_result_backtick in E1.
  unfold bind.
  destruct (param v b1) as [[p|e] b2]; [|discriminate].
  intros H. injection H as <- _. now apply prefix_append.
Qed.

End NoWhereFacts.

#[local] Hint Resolve adds_no_WHERE_refl adds_no_WHERE_trans : steady.

Section NoWhereMethods.
Context {rt : Js.Runtime}.
Import Ident JsString Js Builder.

Ltac push_keyword :=
  apply adds_no_WHERE_push_part; discriminate.

Lemma adds_no_WHERE_identifier_push name :
  steady adds_no_WHERE (bind (identifier name) (fun t => push_part t)).
Proof.
  apply (steady_bind_result _ (fun q => String.prefix "`" q = true)).
  - apply adds_no_WHERE_trans.
  - apply steady_identifier, adds_no_WHERE_refl.
  - intros b q b'. apply identifier_result_backtick.
  - intros q Hq. apply adds_no_WHERE_push_part. now apply backticked_not_WHERE.
Qed.

Lemma adds_no_WHERE_identifier_push_then {B} name (k : M B) :
  steady adds_no_WHERE k ->
  steady adds_no_WHERE
    (bind (identifier name) (fun t => bind (push_part t) (fun _ => k))).
Proof.
  intros Hk.
  apply (steady_bind_result _ (fun q => String.prefix "`" q = true)).
  - apply adds_no_WHERE_trans.
  - apply steady_identifier, adds_no_WHERE_refl.
  - intros b q b'. apply identifier_result_backtick.
  - intros q Hq. apply steady_bind; [apply adds_no_WHERE_trans | |auto].
    apply adds_no_WHERE_push_part. now apply backticked_not_WHERE.
Qed.

Lemma adds_no_WHERE_identifiers_push fields :
  steady adds_no_WHERE
    (bind (mapM (fun f => identifier (NameString f)) fields)
          (fun quoted => push_part (JsString.join ", " quoted))).
Proof.
  apply (steady_bind_result _ (Forall (fun q => String.prefix "`" q = true))).
  - apply adds_no_WHERE_trans.
  - apply steady_mapM; [apply adds_no_WHERE_refl | apply adds_no_WHERE_trans|].
    intros f. apply steady_identifier, adds_no_WHERE_refl.
  - apply mapM_result_Forall. intros f b q b'. apply identifier_result_backtick.
  - intros qs Hqs. apply adds_no_WHERE_push_part. now apply join_backticked.
Qed.

Lemma adds_no_WHERE_select fields : steady adds_no_WHERE (select fields).
Proof.
  unfold select. destruct (_ =? _)%nat; [apply steady_throw, adds_no_WHERE_refl|].
  apply steady_bind; [apply adds_no_WHERE_trans | push_keyword | intros _].
  destruct (array_includes fields "*"); [push_keyword|].
  apply adds_no_WHERE_identifiers_push.
Qed.

Lemma adds_no_WHERE_from table alias : steady adds_no_WHERE (from table alias).
Proof.
  unfold from.
  apply steady_bind; [apply adds_no_WHERE_trans | push_keyword | intros _].
  apply adds_no_WHERE_identifier_push_then.
  destruct (truthy alias); [|apply steady_ret, adds_no_WHERE_refl].
  apply steady_bind; [apply adds_no_WHERE_trans | push_keyword | intros _].
  apply adds_no_WHERE_identifier_push.
Qed.

Lemma adds_no_WHERE_orderBy field direction :
  steady adds_no_WHERE (orderBy field direction).
Proof.
  unfold orderBy.
  apply steady_bind;
    [apply adds_no_WHERE_trans
    | apply steady_joined_parts, adds_no_WHERE_refl | intros text].
  destruct (includes text "ORDER BY");
    (apply steady_bind; [apply adds_no_WHERE_trans | push_keyword | intros _]);
    apply adds_no_WHERE_identifier_push_then;
    apply adds_no_WHERE_push_part;
    destruct (direction_or_default direction); discriminate.
Qed.

Lemma adds_no_WHERE_limit count :
  (forall x, String_of_number x <> "WHERE") -> steady adds_no_WHERE (limit count).
Proof.
  intros Hnum. unfold limit.
  destruct (PrimFloat.ltb count 0); [apply steady_throw, adds_no_WHERE_refl|].
  apply steady_bind; [apply adds_no_WHERE_trans | push_keyword | intros _].
  now apply adds_no_WHERE_push_part.
Qed.

Lemma adds_no_WHERE_offset count :
  (forall x, String_of_number x <> "WHERE") -> steady adds_no_WHERE (offset count).
Proof.
  intros Hnum. unfold offset.
  destruct (PrimFloat.ltb count 0); [apply steady_throw, adds_no_WHERE_refl|].
  apply steady_bind; [apply adds_no_WHERE_trans | push_keyword | intros _].
  now apply adds_no_WHERE_push_part.
Qed.

Lemma adds_no_WHERE_update table : steady adds_no_WHERE (update table).
Proof.
  unfold update.
  apply steady_bind; [apply adds_no_WHERE_trans | push_keyword | intros _].
  apply adds_no_WHERE_identifier_push.
Qed.

Lemma adds_no_WHERE_deleteFrom table : steady adds_no_WHERE (deleteFrom table).
Proof.
  unfold deleteFrom.
  apply steady_bind; [apply adds_no_WHERE_trans | push_keyword | intros _].
  apply adds_no_WHERE_identifier_push.
Qed.

Lemma adds_no_WHERE_assignment entry : steady adds_no_WHERE (assignment entry).
Proof.
  destruct entry as [key v]. unfold assignment.
  apply steady_bind;
    [apply adds_no_WHERE_trans
    | apply steady_identifier, adds_no_WHERE_refl | intros k].
  apply steady_bind;
    [apply adds_no_WHERE_trans
    | apply adds_no_WHERE_parts_unchanged, param_parts | intros p].
  apply steady_ret, adds_no_WHERE_refl.
Qed.

Lemma adds_no_WHERE_set updates : steady adds_no_WHERE (set updates).
Proof.
  unfold set.
  apply steady_bind; [apply adds_no_WHERE_trans | push_keyword | intros _].
  apply (steady_bind_result _ (Forall (fun q => String.prefix "`" q = true))).
  - apply adds_no_WHERE_trans.
  - apply steady_mapM; [apply adds_no_WHERE_refl | apply adds_no_WHERE_trans|].
    apply adds_no_WHERE_assignment.
  - apply mapM_result_Forall. apply assignment_result.
  - intros qs Hqs. apply adds_no_WHERE_push_part. now apply join_backticked.
Qed.

End NoWhereMethods.

(* ------------------------------------------------------------------ *)
(** ** Statement factories *)
(* ------------------------------------------------------------------ *)

Section FactoryFacts.
Context {rt : Js.Runtime}.
Import Ident JsString Js Builder Factory.

(** What a factory returns once its steps have returned. *)
Lemma run_then_build (steps : M unit) b' :
  steps newSQLBuilder = (Ok tt, b') ->
  run (bind steps (fun _ => build))
  = Ok (mkBuilt (JsString.join " " (parts b')) (parameters b')).
Proof.
  intros H. unfold run. now rewrite (bind_ok _ _ _ _ _ H).
Qed.

Lemma deleteFrom_valid table b :
  valid_name table = true ->
  deleteFrom table b = (Ok tt, add_parts b ["DELETE FROM"; quoted_name table]).
Proof.
  intros Ht. unfold deleteFrom. rewrite bind_push_part.
  rewrite (bind_ok _ _ _ _ _ (identifier_valid table _ Ht)).
  now rewrite push_part_spec, add_parts_add_parts.
Qed.

Lemma buildDelete_empty_filter table :
  valid_name table = true ->
  buildDelete table []
  = Ok (mkBuilt ("DELETE FROM " ++ quoted_name table) []).
Proof.
  intros Ht. unfold buildDelete, buildDelete_steps.
  erewrite run_then_build.
  2:{ simpl List.length. simpl Nat.ltb. cbv iota.
      rewrite (bind_ok _ _ _ _ _ (deleteFrom_valid table _ Ht)). reflexivity. }
  reflexivity.
Qed.

Lemma buildInsert_empty_list table :
  buildInsert table (ManyRecords [])
  = Throw (SQLInjectionError "INSERT requires at least one record" None).
Proof. reflexivity. Qed.

Lemma keeps_parameters_select_steps table options :
  opt_where options = Some [] \/ opt_where options = None ->
  steady keeps_parameters (buildSelect_steps table options).
Proof.
  intros Hw. unfold buildSelect_steps.
  destruct Hw as [-> | ->]; simpl;
    unfold select, from, orderBy, limit, offset;
    repeat steady_step.
Qed.

Lemma adds_no_WHERE_select_steps table options :
  (forall x, String_of_number x <> "WHERE") ->
  opt_where options = Some [] \/ opt_where options = None ->
  steady adds_no_WHERE (buildSelect_steps table options).
Proof.
  intros Hnum Hw. unfold buildSelect_steps.
  assert (steady adds_no_WHERE (@ret unit tt)) as Hret
    by apply steady_ret, adds_no_WHERE_refl.
  apply steady_bind;
    [apply adds_no_WHERE_trans | apply adds_no_WHERE_select | intros _].
  apply steady_bind;
    [apply adds_no_WHERE_trans | apply adds_no_WHERE_from | intros _].
  apply steady_bind; [apply adds_no_WHERE_trans | | intros _].
  { destruct Hw as [-> | ->]; exact Hret. }
  apply steady_bind; [apply adds_no_WHERE_trans | | intros _].
  { destruct (opt_orderBy options) as [o|]; [|exact Hret].
    apply steady_forEach; [apply adds_no_WHERE_refl | apply adds_no_WHERE_trans|].
    intros [field direction]. apply adds_no_WHERE_orderBy. }
  apply steady_bind; [apply adds_no_WHERE_trans | | intros _].
  { destruct (opt_limit options); [now apply adds_no_WHERE_limit | exact Hret]. }
  destruct (opt_offset options); [now apply adds_no_WHERE_offset | exact Hret].
Qed.

Lemma adds_no_WHERE_update_steps table data :
  steady adds_no_WHERE (buildUpdate_steps table data []).
Proof.
  unfold buildUpdate_steps.
  apply steady_bind;
    [apply adds_no_WHERE_trans | apply adds_no_WHERE_update | intros _].
  apply steady_bind;
    [apply adds_no_WHERE_trans | apply adds_no_WHERE_set | intros _].
  apply steady_ret, adds_no_WHERE_refl.
Qed.

Lemma adds_no_WHERE_delete_steps table :
  steady adds_no_WHERE (buildDelete_steps table []).
Proof.
  unfold buildDelete_steps.
  apply steady_bind;
    [apply adds_no_WHERE_trans | apply adds_no_WHERE_deleteFrom | intros _].
  apply steady_ret, adds_no_WHERE_refl.
Qed.

Lemma keeps_parameters_delete_steps table :
  steady keeps_parameters (buildDelete_steps table []).
Proof.
  unfold buildDelete_steps, deleteFrom. simpl. repeat steady_step.
Qed.

(** From a new builder, what was appended is all there is. *)
Lemma adds_no_WHERE_from_new b' :
  adds_no_WHERE newSQLBuilder b' -> ~ In "WHERE" (parts b').
Proof. intros (l & -> & H). exact H. Qed.

End FactoryFacts.

Section EmptyWhereClaim.
Context {rt : Js.Runtime}.
Import Ident JsString Js Builder Factory.

(** C9: A filter without keys adds nothing to [buildSelect],
    [buildUpdate] and [buildDelete].  The statement is the one of the
    steps without filter, so the filter raises no error: [buildSelect] on
    an empty filter is [buildSelect] without filter, [buildUpdate] is
    [update] and [set], [buildDelete] is [deleteFrom].  When the steps
    return, no part of the builder is the keyword WHERE, and the
    parameters are those of the other clauses: none for [buildSelect]
    and [buildDelete], those of [set] for [buildUpdate].  In particular
    [buildDelete(table, {})] with a valid table name returns
    [DELETE FROM `table`] and an empty parameter list.  For
    [buildSelect], that a LIMIT or OFFSET count does not print as the
    word WHERE is asked of [String]. *)
Theorem empty_where_adds_no_keyword_no_parameter :
  forall table : string,
    (forall options,
        opt_where options = Some [] ->
        buildSelect table options = buildSelect table (without_where options))
    /\ (forall options b',
          (forall x, String_of_number x <> "WHERE") ->
          opt_where options = Some [] ->
          buildSelect_steps table options newSQLBuilder = (Ok tt, b') ->
          ~ In "WHERE" (parts b')
          /\ buildSelect table options
             = Ok (mkBuilt (JsString.join " " (parts b')) []))
    /\ (forall data,
          buildUpdate table data []
          = run (bind (update table) (fun _ => bind (set data) (fun _ => build))))
    /\ (forall data b',
          buildUpdate_steps table data [] newSQLBuilder = (Ok tt, b') ->
          ~ In "WHERE" (parts b')
          /\ bind (update table) (fun _ => set data) newSQLBuilder = (Ok tt, b')
          /\ buildUpdate table data []
             = Ok (mkBuilt (JsString.join " " (parts b')) (parameters b')))
    /\ buildDelete table [] = run (bind (deleteFrom table) (fun _ => build))
    /\ (forall b',
          buildDelete_steps table [] newSQLBuilder = (Ok tt, b') ->
          ~ In "WHERE" (parts b')
          /\ buildDelete table []
             = Ok (mkBuilt (JsString.join " " (parts b')) []))
    /\ (valid_name table = true ->
          buildDelete table []
          = Ok (mkBuilt ("DELETE FROM " ++ quoted_name table) [])).
Proof.
  intros table.
  split; [|split; [|split; [|split; [|split; [|split]]]]].
  - intros options Hw. unfold buildSelect, buildSelect_steps, without_where.
    simpl. now rewrite Hw.
  - intros options b' Hnum Hw Hsteps.
    pose proof (adds_no_WHERE_select_steps table options Hnum (or_introl Hw)
                  newSQLBuilder) as Hparts.
    pose proof (keeps_parameters_select_steps table options (or_introl Hw)
                  newSQLBuilder) as [Hparams _].
    rewrite Hsteps in Hparts, Hparams. simpl in Hparts, Hparams.
    split; [now apply adds_no_WHERE_from_new|].
    unfold buildSelect. rewrite (run_then_build _ b' Hsteps).
    now rewrite Hparams.
  - intros data. unfold buildUpdate, buildUpdate_steps, run. simpl.
    unfold bind.
    destruct (update table newSQLBuilder) as [[[]|e] b1]; [|reflexivity].
    destruct (set data b1) as [[[]|e] b2]; reflexivity.
  - intros data b' Hsteps.
    pose proof (adds_no_WHERE_update_steps table data newSQLBuilder) as Hparts.
    rewrite Hsteps in Hparts. simpl in Hparts.
    split; [now apply adds_no_WHERE_from_new|].
    split.
    + rewrite <- Hsteps. unfold buildUpdate_steps. simpl. unfold bind.
      destruct (update table newSQLBuilder) as [[[]|e] b1]; [|reflexivity].
      destruct (set data b1) as [[[]|e] b2]; reflexivity.
    + unfold buildUpdate. now rewrite (run_then_build _ b' Hsteps).
  - unfold buildDelete, buildDelete_steps, run. simpl. unfold bind.
    destruct (deleteFrom table newSQLBuilder) as [[[]|e] b1]; reflexivity.
  - intros b' Hsteps.
    pose proof (adds_no_WHERE_delete_steps table newSQLBuilder) as Hparts.
    rewrite Hsteps in Hparts. simpl in Hparts.
    split; [now apply adds_no_WHERE_from_new|].
    pose proof (keeps_parameters_delete_steps table newSQLBuilder)
      as [Hparams _].
    rewrite Hsteps in Hparams. simpl in Hparams.
    unfold buildDelete. rewrite (run_then_build _ b' Hsteps).
    now rewrite Hparams.
  - apply buildDelete_empty_filter.
Qed.

End EmptyWhereClaim.

Section ExampleRuntimeFacts.
Import Demo.

Lemma of_N_not_WHERE n : JsString.of_N n <> "WHERE".
Proof.
  unfold JsString.of_N. destruct (N.to_uint n); discriminate.
Qed.

Lemma String_of_integral_not_WHERE x : String_of_integral x <> "WHERE".
Proof.
  unfold String_of_integral.
  destruct (Prim2SF x) as [s|s| |s m e]; try destruct s; try discriminate;
    destruct (_ <? _)%Z; try discriminate; apply of_N_not_WHERE.
Qed.

End ExampleRuntimeFacts.

Lemma empty_where_adds_no_keyword_no_parameter_witness :
  Factory.buildSelect (rt := Demo.runtime) "users"
    {| opt_fields := None; opt_where := Some [];
       opt_orderBy := Some [("name", ASC)];
       opt_limit := Some 10%float; opt_offset := None |}
  = Ok (mkBuilt "SELECT * FROM `users` ORDER BY `name` ASC LIMIT 10" [])
  /\ Factory.buildUpdate (rt := Demo.runtime) "users"
       [("name", VString "John")] []
     = Ok (mkBuilt "UPDATE `users` SET `name` = {param0:String}"
                   [VString "John"])
  /\ Factory.buildDelete (rt := Demo.runtime) "users" []
     = Ok (mkBuilt "DELETE FROM `users`" []).
Proof.
  split; [|split].
  - apply (proj1 (proj2 (empty_where_adds_no_keyword_no_parameter
                           (rt := Demo.runtime) "users"))
             {| opt_fields := None; opt_where := Some [];
                opt_orderBy := Some [("name", ASC)];
                opt_limit := Some 10%float; opt_offset := None |}
             {| parts := ["SELECT"; "*"; "FROM"; "`users`";
                          "ORDER BY"; "`name`"; "ASC"; "LIMIT"; "10"];
                parameters := [];
                paramCounter := 0 |}).
    + exact String_of_integral_not_WHERE.
    + reflexivity.
    + reflexivity.
  - apply (proj1 (proj2 (proj2 (proj2
             (empty_where_adds_no_keyword_no_parameter
                (rt := Demo.runtime) "users"))))
             [("name", VString "John")]
             {| parts := ["UPDATE"; "`users`"; "SET";
                          "`name` = {param0:String}"];
                parameters := [VString "John"];
                paramCounter := 1 |}).
    reflexivity.
  - apply (proj2 (proj2 (proj2 (proj2 (proj2 (proj2
             (empty_where_adds_no_keyword_no_parameter
                (rt := Demo.runtime) "users"))))))).
    reflexivity.
Defined.

(* ------------------------------------------------------------------ *)
(** ** Empty record sets *)
(* ------------------------------------------------------------------ *)

Section EmptyRecordsClaim.
Context {rt : Js.Runtime}.
Import Ident JsString Js Builder Factory.

(** C5, as the code has it: [buildInsert] called with an empty record
    list throws [SQLInjectionError] before anything else is done,
    whatever the table name.  [buildDelete] called with an empty filter
    does not reject it: with a valid table name it returns
    [DELETE FROM `table`] and no parameters. *)
Theorem buildInsert_rejects_empty_buildDelete_accepts :
  forall table : string,
    buildInsert table (ManyRecords [])
    = Throw (SQLInjectionError "INSERT requires at least one record" None)
    /\ (valid_name table = true ->
          buildDelete table []
          = Ok (mkBuilt ("DELETE FROM " ++ quoted_name table) [])).
Proof.
  intros table. split.
  - apply buildInsert_empty_list.
  - apply buildDelete_empty_filter.
Qed.

End EmptyRecordsClaim.

Lemma buildInsert_rejects_empty_buildDelete_accepts_witness :
  Factory.buildDelete (rt := Demo.runtime) "db.users" []
  = Ok (mkBuilt "DELETE FROM `db`.`users`" []).
Proof.
  apply (proj2 (buildInsert_rejects_empty_buildDelete_accepts
                  (rt := Demo.runtime) "db.users")).
  reflexivity.
Defined.

(** Neither [buildUpdate] on an empty data mapping nor [buildDelete] on
    an empty filter throws: both return a statement. *)
Lemma buildUpdate_buildDelete_accept_empty :
  Factory.buildUpdate (rt := Demo.runtime) "users" []
    [("id", VNumber 1)]
  = Ok (mkBuilt "UPDATE `users` SET  WHERE `id` = {param0:Int32}" [VNumber 1])
  /\ Factory.buildDelete (rt := Demo.runtime) "users" []
     = Ok (mkBuilt "DELETE FROM `users`" [])
  /\ ~ throws_injection
         (Factory.buildUpdate (rt := Demo.runtime) "users" []
            [("id", VNumber 1)])
  /\ ~ throws_injection
         (Factory.buildDelete (rt := Demo.runtime) "users" []).
Proof.
  split; [reflexivity|]. split; [reflexivity|].
  split; intros (message & v & H); discriminate.
Qed.

(* ------------------------------------------------------------------ *)
(** ** The condition compiler *)
(* ------------------------------------------------------------------ *)

Section ConditionFacts.
Context {rt : Js.Runtime} {dialect : Where.Dialect}.
Import JsString Js Builder Where.

Lemma mapM_result_Forall2 {A B} (P : A -> B -> Prop) (f : A -> M B) l :
  (forall x b y b', f x b = (Ok y, b') -> P x y) ->
  forall b ys b', mapM f l b = (Ok ys, b') -> Forall2 P l ys.
Proof.
  intros Hf. induction l as [|x l IH]; simpl; intros b ys b' H.
  - injection H as <- _. constructor.
  - unfold bind at 1 in H.
    destruct (f x b) as [[y|e] b1] eqn:E1; [|discriminate].
    unfold bind at 1 in H.
    destruct (mapM f l b1) as [[ys'|e] b2] eqn:E2; [|discriminate].
    injection H as <- _. constructor; [eapply Hf | eapply IH]; eassumption.
Qed.

(** One step of [compile] on a combinator with children. *)
Lemma compile_group nested kind child children :
  compile nested (Group kind (child :: children))
  = bind (mapM (compile true) (child :: children))
      (fun lowered =>
         let joined :=
           JsString.join (" " ++ Combinator_text kind ++ " ") lowered in
         if (1 <? List.length (child :: children))%nat || nested
         then ret ("(" ++ joined ++ ")")
         else ret joined).
Proof. reflexivity. Qed.

Lemma compile_group_parenthesized nested kind children b lowered b' :
  children <> [] ->
  (1 < List.length children)%nat \/ nested = true ->
  mapM (compile true) children b = (Ok lowered, b') ->
  compile nested (Group kind children) b
  = (Ok ("(" ++ JsString.join (" " ++ Combinator_text kind ++ " ") lowered
             ++ ")"), b').
Proof.
  intros Hne Hcond Hlow.
  destruct children as [|child children]; [contradiction|].
  rewrite compile_group, (bind_ok _ _ _ _ _ Hlow).
  assert ((1 <? List.length (child :: children))%nat || nested = true) as ->;
    [|reflexivity].
  destruct Hcond as [Hlen | ->]; [|apply orb_true_r].
  apply Nat.ltb_lt in Hlen. now rewrite Hlen.
Qed.

(** A nested combinator with children lowers to a parenthesized fragment. *)
Lemma compile_nested_child child b fragment b' :
  compile true child b = (Ok fragment, b') -> child_fragment child fragment.
Proof.
  destruct child as [field operator operand | kind [|c cs] | c];
    simpl child_fragment; auto.
  rewrite compile_group. unfold bind.
  destruct (mapM (compile true) (c :: cs) b) as [[lowered|e] b1];
    [|discriminate].
  rewrite orb_true_r. intros H. injection H as <- _.
  now exists (JsString.join (" " ++ Combinator_text kind ++ " ") lowered).
Qed.

End ConditionFacts.

Section ConditionClaim.
Context {rt : Js.Runtime} {dialect : Where.Dialect}.
Import JsString Js Builder Where.

(** C4: Compiling AND(eq(a,1), OR(eq(b,2), eq(c,3))) gives a fragment in
    which the OR group stands between parentheses.  In general a
    combinator with children whose children lower to fragments gives
    those fragments joined by its keyword, between parentheses whenever
    it has more than one child or is nested beneath another combinator;
    and every child that is itself a combinator with children contributes
    a fragment between parentheses, so that at no depth the keyword of a
    group meets the keyword of its parent outside parentheses. *)
Theorem combinator_groups_parenthesized :
  compileCondition
    (Group AND [Leaf "a" op_eq (VNumber 1);
                Group OR [Leaf "b" op_eq (VNumber 2);
                          Leaf "c" op_eq (VNumber 3)]])
    newSQLBuilder
  = (Ok "(`a` = {param0:Int32} AND (`b` = {param1:Int32} OR `c` = {param2:Int32}))",
     {| parts := [];
        parameters := [VNumber 1; VNumber 2; VNumber 3];
        paramCounter := 3 |})
  /\ (forall nested kind children b lowered b',
        children <> [] ->
        (1 < List.length children)%nat \/ nested = true ->
        mapM (compile true) children b = (Ok lowered, b') ->
        compile nested (Group kind children) b
        = (Ok ("(" ++ JsString.join (" " ++ Combinator_text kind ++ " ") lowered
                   ++ ")"), b')
        /\ Forall2 child_fragment children lowered).
Proof.
  split; [reflexivity|].
  intros nested kind children b lowered b' Hne Hcond Hlow.
  split; [now apply compile_group_parenthesized|].
  apply (mapM_result_Forall2 child_fragment (compile true) children
           compile_nested_child b lowered b' Hlow).
Qed.

End ConditionClaim.

Lemma combinator_groups_parenthesized_witness :
  Where.compile (rt := Demo.runtime) (dialect := Demo.dialect) true
    (Group OR [Leaf "b" op_eq (VNumber 2); Leaf "c" op_gt (VNumber 3)])
    newSQLBuilder
  = (Ok "(`b` = {param0:Int32} OR `c` > {param1:Int32})",
     {| parts := [];
        parameters := [VNumber 2; VNumber 3];
        paramCounter := 2 |})
  /\ Forall2 child_fragment
       [Leaf "b" op_eq (VNumber 2); Leaf "c" op_gt (VNumber 3)]
       ["`b` = {param0:Int32}"; "`c` > {param1:Int32}"].
Proof.
  apply (proj2 (combinator_groups_parenthesized
                  (rt := Demo.runtime) (dialect := Demo.dialect))
           true OR
           [Leaf "b" op_eq (VNumber 2); Leaf "c" op_gt (VNumber 3)]
           newSQLBuilder
           ["`b` = {param0:Int32}"; "`c` > {param1:Int32}"]
           {| parts := [];
              parameters := [VNumber 2; VNumber 3];
              paramCounter := 2 |}).
  - discriminate.
  - left. simpl. lia.
  - reflexivity.
Defined.

(* ------------------------------------------------------------------ *)
(** ** The scenarios of the specification, run *)
(* ------------------------------------------------------------------ *)

Section Scenarios.
Import Builder Factory.

Example scenario_select_from :
  fst (bind (select ["id"; "name"])
         (fun _ => bind (from "users" None) (fun _ => toSQL))
         newSQLBuilder)
  = Ok "SELECT `id`, `name` FROM `users`".
Proof. reflexivity. Qed.

Example scenario_delete_with_filter :
  buildDelete (rt := Demo.runtime) "users" [("id", VNumber 1)]
  = Ok (mkBuilt "DELETE FROM `users` WHERE `id` = {param0:Int32}" [VNumber 1]).
Proof. reflexivity. Qed.

Example scenario_injection_rejected :
  throws_injection
    (fst (identifier (NameString "users; DROP TABLE users--") newSQLBuilder)).
Proof. now eexists _, _. Qed.

Example scenario_insert_two_records :
  buildInsert (rt := Demo.runtime) "users"
    (ManyRecords [[("name", VString "John"); ("active", VBoolean true)];
                  [("name", VString "Jane"); ("active", VBoolean false)]])
  = Ok (mkBuilt
          ("INSERT INTO `users` (`name`, `active`) VALUES "
           ++ "({param0:String}, {param1:UInt8}), "
           ++ "({param2:String}, {param3:UInt8})")
          [VString "John"; VNumber 1; VString "Jane"; VNumber 0]).
Proof. reflexivity. Qed.

Example scenario_select_with_everything :
  buildSelect (rt := Demo.runtime) "users"
    {| opt_fields := Some ["id"; "name"];
       opt_where := Some [("active", VBoolean true)];
       opt_orderBy := Some [("name", ASC); ("age", DESC)];
       opt_limit := Some 10%float;
       opt_offset := Some 0%float |}
  = Ok (mkBuilt
          ("SELECT `id`, `name` FROM `users` WHERE `active` = {param0:UInt8} "
           ++ "ORDER BY `name` ASC , `age` DESC LIMIT 10 OFFSET 0")
          [VNumber 1]).
Proof. reflexivity. Qed.

End Scenarios.

(* ================================================================== *)
(** * Further properties of the builder *)
(* ================================================================== *)

(* ------------------------------------------------------------------ *)
(** ** Calls only append *)
(* ------------------------------------------------------------------ *)

Section AppendOnly.
Context {rt : Js.Runtime}.
Import Js Builder.

Lemma extends_refl b : extends b b.
Proof. exists [], []. now rewrite !app_nil_r. Qed.

Lemma extends_trans b1 b2 b3 : extends b1 b2 -> extends b2 b3 -> extends b1 b3.
Proof.
  intros (l1 & w1 & P1 & Q1) (l2 & w2 & P2 & Q2).
  exists (l1 ++ l2)%list, (w1 ++ w2)%list.
  now rewrite P2, P1, Q2, Q1, !app_assoc.
Qed.

Lemma extends_push_part s : steady extends (push_part s).
Proof. intros b. exists [s], []. simpl. now rewrite app_nil_r. Qed.

Lemma extends_param v : steady extends (param v).
Proof.
  intros b. destruct (paramValue_of v) as [w|e] eqn:E.
  - rewrite (param_ok v w b E). exists [], [w]. simpl. now rewrite app_nil_r.
  - rewrite (param_throw v e b E). apply extends_refl.
Qed.

End AppendOnly.

#[local] Hint Resolve extends_refl extends_trans extends_push_part
  extends_param : steady.

Section AppendOnlyCalls.
Context {rt : Js.Runtime}.
Import Js Builder.

(** X1: whatever a public method other than [reset] does, and whether
    it returns or throws, the parts and the parameters of the builder
    afterwards are those from before with something appended: nothing
    emitted or stored is removed or rewritten. *)
Theorem calls_only_append :
  forall (c : Call) (b : SQLBuilder),
    is_reset c = false -> extends b (snd (exec c b)).
Proof.
  intros c b Hc. revert b. change (steady extends (exec c)).
  destruct c; simpl; try discriminate;
    unfold drop, raw, params, identifiers, select, from, where_, and_, or_,
      orderBy, groupBy, limit, offset, join, insertInto, values, update,
      set, assignment, deleteFrom, toSQL;
    repeat steady_step.
Qed.

End AppendOnlyCalls.

Lemma calls_only_append_witness :
  extends (add_parts newSQLBuilder ["SELECT"; "*"])
          (snd (exec (rt := Demo.runtime)
                     (call_from "users; DROP TABLE users--" None)
                     (add_parts newSQLBuilder ["SELECT"; "*"]))).
Proof.
  apply (calls_only_append (rt := Demo.runtime)
           (call_from "users; DROP TABLE users--" None)
           (add_parts newSQLBuilder ["SELECT"; "*"])).
  reflexivity.
Defined.

(* ------------------------------------------------------------------ *)
(** ** The tags and the numbers of the placeholders *)
(* ------------------------------------------------------------------ *)

Section PlaceholderFacts.
Context {rt : Js.Runtime}.
Import Js Builder JsString.

Lemma inferClickHouseType_in_tags value original :
  In (inferClickHouseType value original) clickhouse_tags.
Proof.
  unfold inferClickHouseType, clickhouse_tags.
  destruct original; simpl; auto 10;
    destruct value; simpl; auto 10;
    destruct (Number_isInteger_float _); simpl; auto 10.
Qed.

Lemma NilEmpty_digits d : all_chars is_digit (NilEmpty.string_of_uint d) = true.
Proof. induction d; simpl; auto. Qed.

Lemma of_N_digits n : all_chars is_digit (of_N n) = true.
Proof.
  unfold of_N, NilZero.string_of_uint.
  destruct (N.to_uint n); try reflexivity; apply NilEmpty_digits.
Qed.

Lemma to_uint_not_Nil n : N.to_uint n <> Decimal.Nil.
Proof.
  destruct n; simpl; [discriminate|].
  apply DecimalPos.Unsigned.to_uint_nonnil.
Qed.

Lemma of_N_inj n m : of_N n = of_N m -> n = m.
Proof.
  unfold of_N. intros H.
  apply DecimalN.Unsigned.to_uint_inj.
  pose proof (NilZero.usu (N.to_uint n) (to_uint_not_Nil n)) as Hn.
  pose proof (NilZero.usu (N.to_uint m) (to_uint_not_Nil m)) as Hm.
  rewrite H in Hn. congruence.
Qed.

(** Digits followed by a colon: the digits are read off unambiguously. *)
Lemma digits_colon_inj s1 : forall s2 r1 r2,
  all_chars is_digit s1 = true -> all_chars is_digit s2 = true ->
  s1 ++ String ":" r1 = s2 ++ String ":" r2 -> s1 = s2 /\ r1 = r2.
Proof.
  induction s1 as [|c s1 IH]; intros [|d s2] r1 r2 H1 H2 E; simpl in *.
  - now injection E.
  - injection E as <- _. apply andb_true_iff in H2 as [H2 _]. discriminate.
  - injection E as -> _. apply andb_true_iff in H1 as [H1 _]. discriminate.
  - injection E as -> E.
    apply andb_true_iff in H1 as [_ H1]. apply andb_true_iff in H2 as [_ H2].
    destruct (IH s2 r1 r2 H1 H2 E) as [-> ->]. now split.
Qed.

Lemma placeholder_inj n m t u :
  placeholder n t = placeholder m u -> n = m.
Proof.
  unfold placeholder. intros H.
  injection H as H.
  apply digits_colon_inj in H as [H _]; try apply of_N_digits.
  now apply of_N_inj.
Qed.

Lemma In_placeholders_from vs : forall ws n x,
  In x (placeholders_from n vs ws) ->
  exists k tag, x = placeholder k tag /\ (n <= k)%N.
Proof.
  induction vs as [|v vs IH]; intros [|w ws] n x H; simpl in H;
    try contradiction.
  destruct H as [<-|H].
  - eexists _, _. split; [reflexivity | lia].
  - apply IH in H as (k & tag & -> & Hk). exists k, tag. split; [reflexivity | lia].
Qed.

Lemma NoDup_placeholders_from vs : forall ws n,
  NoDup (placeholders_from n vs ws).
Proof.
  induction vs as [|v vs IH]; intros [|w ws] n; simpl; try constructor.
  - intros H. apply In_placeholders_from in H as (k & tag & E & Hk).
    apply placeholder_inj in E. lia.
  - apply IH.
Qed.

End PlaceholderFacts.

Section PlaceholderClaims.
Context {rt : Js.Runtime}.
Import Js Builder JsString.

(** X2: the tag of a placeholder is always one of the eight of the
    vocabulary, whatever the value and whatever the value it was converted
    from; a returning [param] gives the placeholder made of the counter
    and such a tag. *)
Theorem param_tag_in_vocabulary :
  (forall value original,
      In (inferClickHouseType value original) clickhouse_tags)
  /\ (forall v ph b b',
        param v b = (Ok ph, b') ->
        exists tag,
          In tag clickhouse_tags /\ ph = placeholder (paramCounter b) tag).
Proof.
  split; [apply inferClickHouseType_in_tags|].
  intros v ph b b' H. apply param_inv in H as (w & _ & -> & _).
  eexists. split; [apply inferClickHouseType_in_tags | reflexivity].
Qed.

(** X3: the placeholders that returning calls of [param] in a row give
    are pairwise distinct, from whatever builder the calls start: the
    decimal number in a placeholder determines its index. *)
Theorem params_placeholders_distinct :
  forall (vs : list JsValue) (phs : list string) (b b' : SQLBuilder),
    params vs b = (Ok phs, b') -> NoDup phs.
Proof.
  intros vs phs b b' H. apply params_inv in H as (ws & _ & -> & _).
  apply NoDup_placeholders_from.
Qed.

End PlaceholderClaims.

Lemma param_tag_in_vocabulary_witness :
  exists tag,
    In tag clickhouse_tags /\ "{param7:Nullable(String)}" = placeholder 7 tag.
Proof.
  exact (proj2 (param_tag_in_vocabulary (rt := Demo.runtime))
           VUndefined "{param7:Nullable(String)}"
           {| parts := []; parameters := []; paramCounter := 7 |}
           {| parts := []; parameters := [VUndefined]; paramCounter := 8 |}
           eq_refl).
Defined.

Lemma params_placeholders_distinct_witness :
  NoDup ["{param9:Int32}"; "{param10:Int32}"; "{param11:String}"].
Proof.
  exact (params_placeholders_distinct (rt := Demo.runtime)
           [VNumber 1; VNumber 1; VString "1"]
           ["{param9:Int32}"; "{param10:Int32}"; "{param11:String}"]
           {| parts := []; parameters := []; paramCounter := 9 |}
           {| parts := [];
              parameters := [VNumber 1; VNumber 1; VString "1"];
              paramCounter := 12 |}
           eq_refl).
Defined.

(* ------------------------------------------------------------------ *)
(** ** Lists of identifiers *)
(* ------------------------------------------------------------------ *)

Section IdentifiersFacts.
Import Ident JsString Builder.

(** Quoting a list throws at its leftmost invalid name. *)
Lemma mapM_identifier_leftmost pre f post b :
  Forall (fun n => valid_name n = true) pre ->
  valid_name f = false ->
  mapM (fun n => identifier (NameString n)) (pre ++ f :: post)%list b
  = (Throw (SQLInjectionError (invalid_identifier_message f) (Some f)), b).
Proof.
  intros Hpre Hf. induction Hpre as [|n pre Hn _ IH]; simpl.
  - now rewrite (bind_throw _ _ _ _ _ (identifier_invalid f b Hf)).
  - rewrite (bind_ok _ _ _ _ _ (identifier_valid n b Hn)).
    now rewrite (bind_throw _ _ _ _ _ IH).
Qed.

(** A list either has only valid names or splits at its leftmost
    invalid one. *)
Lemma names_valid_or_leftmost names :
  Forall (fun n => valid_name n = true) names
  \/ exists pre f post,
       names = (pre ++ f :: post)%list
       /\ Forall (fun n => valid_name n = true) pre
       /\ valid_name f = false.
Proof.
  induction names as [|n names IH]; [now left|].
  destruct (valid_name n) eqn:Hn.
  - destruct IH as [IH | (pre & f & post & -> & Hpre & Hf)].
    + left. now constructor.
    + right. exists (n :: pre), f, post. repeat split; auto.
  - right. exists [], n, names. repeat split; auto.
Qed.

(** A returning [identifier] was given a valid name. *)
Lemma identifier_ok name b q b' :
  identifier (NameString name) b = (Ok q, b') ->
  valid_name name = true /\ q = quoted_name name /\ b' = b.
Proof.
  destruct (valid_name name) eqn:Hn.
  - rewrite (identifier_valid name b Hn). intros H. injection H as <- <-. auto.
  - rewrite (identifier_invalid name b Hn). discriminate.
Qed.

Lemma mapM_identifier_ok names b qs b' :
  mapM (fun n => identifier (NameString n)) names b = (Ok qs, b') ->
  Forall (fun n => valid_name n = true) names
  /\ qs = map quoted_name names /\ b' = b.
Proof.
  destruct (names_valid_or_leftmost names)
    as [Hv | (pre & f & post & -> & Hpre & Hf)].
  - rewrite (mapM_identifier_valid names b Hv).
    intros H. injection H as <- <-. auto.
  - rewrite (mapM_identifier_leftmost pre f post b Hpre Hf). discriminate.
Qed.

End IdentifiersFacts.

Section IdentifiersClaim.
Import Ident JsString Builder.

(** X4: [identifiers(names)] returns the quoted names in order when all
    of them are valid, and otherwise throws [SQLInjectionError] carrying
    the leftmost invalid name; the builder is left as it was. *)
Theorem identifiers_all_or_leftmost_invalid :
  forall (names : list string) (b : SQLBuilder),
    (Forall (fun n => valid_name n = true) names ->
       identifiers names b = (Ok (map quoted_name names), b))
    /\ (forall pre f post,
          names = (pre ++ f :: post)%list ->
          Forall (fun n => valid_name n = true) pre ->
          valid_name f = false ->
          identifiers names b
          = (Throw (SQLInjectionError (invalid_identifier_message f)
                                      (Some f)), b)).
Proof.
  intros names b. split.
  - apply mapM_identifier_valid.
  - intros pre f post -> Hpre Hf. now apply mapM_identifier_leftmost.
Qed.

Lemma identifiers_all_or_leftmost_invalid_witness :
  identifiers ["id"; "db.users"] newSQLBuilder
  = (Ok ["`id`"; "`db`.`users`"], newSQLBuilder)
  /\ identifiers ["id"; "a b"; "1x"] newSQLBuilder
     = (Throw (SQLInjectionError (invalid_identifier_message "a b")
                                 (Some "a b")), newSQLBuilder).
Proof.
  split.
  - apply (proj1 (identifiers_all_or_leftmost_invalid
                    ["id"; "db.users"] newSQLBuilder)).
    repeat constructor.
  - apply (proj2 (identifiers_all_or_leftmost_invalid
                    ["id"; "a b"; "1x"] newSQLBuilder)
             ["id"] "a b" ["1x"]).
    + reflexivity.
    + repeat constructor.
    + reflexivity.
Defined.

End IdentifiersClaim.

(* ------------------------------------------------------------------ *)
(** ** Clauses with identifiers: FROM, JOIN, GROUP BY *)
(* ------------------------------------------------------------------ *)

Section GrownFacts.

Lemma grown_nil b : grown b [] [] = b.
Proof.
  destruct b as [p q n]. unfold grown. simpl.
  rewrite !app_nil_r. f_equal. lia.
Qed.

Lemma grown_parts b l : grown b l [] = add_parts b l.
Proof.
  unfold grown, add_parts. simpl. rewrite app_nil_r. f_equal. lia.
Qed.

Lemma grown_grown b l1 ws1 l2 ws2 :
  grown (grown b l1 ws1) l2 ws2 = grown b (l1 ++ l2)%list (ws1 ++ ws2)%list.
Proof.
  unfold grown. simpl. rewrite !app_assoc, length_app. f_equal. lia.
Qed.

Lemma fold_add_parameter_grown ws b :
  fold_left add_parameter ws b = grown b [] ws.
Proof.
  destruct (fold_add_parameter ws b) as (Hp & Hq & Hn).
  destruct (fold_left add_parameter ws b) as [p q n]. simpl in *.
  unfold grown. rewrite app_nil_r. now subst.
Qed.

Lemma add_parts_grown b l ws l' :
  add_parts (grown b l ws) l' = grown b (l ++ l')%list ws.
Proof. unfold add_parts, grown. simpl. now rewrite app_assoc. Qed.

Lemma grown_add_parts b l l' ws :
  grown (add_parts b l) l' ws = grown b (l ++ l')%list ws.
Proof. unfold add_parts, grown. simpl. now rewrite app_assoc. Qed.

End GrownFacts.

Section FromJoinGroupBy.
Import Ident JsString Js Builder.

Lemma usable_alias_cases alias :
  usable_alias alias = true ->
  (truthy alias = false /\ alias_parts alias = [])
  \/ (truthy alias = true /\ valid_name (the_string alias) = true
      /\ alias_parts alias = ["AS"; quoted_name (the_string alias)]).
Proof.
  unfold usable_alias, alias_parts. destruct (truthy alias); simpl; auto.
Qed.

(** X5: [from(table, alias)] with a valid table appends FROM and the
    quoted table, then AS and the quoted alias when the alias is given
    and not empty; an empty alias counts as none.  A throw leaves behind
    what was appended before it: FROM alone when the table is invalid,
    FROM, the table and AS when the alias is. *)
Theorem from_appends_table_and_alias :
  forall (table : string) (alias : option string) (b : SQLBuilder),
    (valid_name table = true -> usable_alias alias = true ->
       from table alias b
       = (Ok tt, add_parts b (["FROM"; quoted_name table]
                              ++ alias_parts alias)%list))
    /\ (valid_name table = false ->
          from table alias b
          = (Throw (SQLInjectionError (invalid_identifier_message table)
                                      (Some table)),
             add_parts b ["FROM"]))
    /\ (valid_name table = true -> truthy alias = true ->
        valid_name (the_string alias) = false ->
          from table alias b
          = (Throw (SQLInjectionError
                      (invalid_identifier_message (the_string alias))
                      (Some (the_string alias))),
             add_parts b ["FROM"; quoted_name table; "AS"]))
    /\ from table (Some "") b = from table None b.
Proof.
  intros table alias b. unfold from.
  split; [|split; [|split]].
  - intros Ht Ha. rewrite bind_push_part.
    rewrite (bind_ok _ _ _ _ _ (identifier_valid table _ Ht)).
    rewrite bind_push_part, add_parts_add_parts.
    destruct (usable_alias_cases alias Ha) as [[-> ->] | (-> & Hv & ->)].
    + reflexivity.
    + rewrite bind_push_part, add_parts_add_parts.
      rewrite (bind_ok _ _ _ _ _ (identifier_valid _ _ Hv)).
      now rewrite push_part_spec, add_parts_add_parts.
  - intros Ht. rewrite bind_push_part.
    now rewrite (bind_throw _ _ _ _ _ (identifier_invalid table _ Ht)).
  - intros Ht Ha Hv. rewrite bind_push_part.
    rewrite (bind_ok _ _ _ _ _ (identifier_valid table _ Ht)).
    rewrite bind_push_part, add_parts_add_parts, Ha.
    rewrite bind_push_part, add_parts_add_parts.
    now rewrite (bind_throw _ _ _ _ _ (identifier_invalid _ _ Hv)).
  - reflexivity.
Qed.

Lemma from_appends_table_and_alias_witness :
  from "db.events" (Some "e") newSQLBuilder
  = (Ok tt, add_parts newSQLBuilder ["FROM"; "`db`.`events`"; "AS"; "`e`"])
  /\ from "events;" None newSQLBuilder
     = (Throw (SQLInjectionError (invalid_identifier_message "events;")
                                 (Some "events;")),
        add_parts newSQLBuilder ["FROM"])
  /\ from "events" (Some "e v") newSQLBuilder
     = (Throw (SQLInjectionError (invalid_identifier_message "e v")
                                 (Some "e v")),
        add_parts newSQLBuilder ["FROM"; "`events`"; "AS"]).
Proof.
  split; [|split].
  - apply (proj1 (from_appends_table_and_alias
                    "db.events" (Some "e") newSQLBuilder)); reflexivity.
  - apply (proj1 (proj2 (from_appends_table_and_alias
                           "events;" None newSQLBuilder))); reflexivity.
  - apply (proj1 (proj2 (proj2 (from_appends_table_and_alias
                                  "events" (Some "e v") newSQLBuilder))));
      reflexivity.
Defined.

(** X6: [join(type, table, on, alias)] with a valid table and a usable
    alias appends the join keyword, the quoted table, the alias as [from]
    does, and then ON and the condition exactly as given, but only when
    the condition is given, not empty, and the join is not a cross join:
    a cross join never gets an ON part, whatever [on] is. *)
Theorem join_appends_on_unless_cross :
  forall (type : JoinType) (table : string) (on alias : option string)
         (b : SQLBuilder),
    (valid_name table = true -> usable_alias alias = true ->
       join type table on alias b
       = (Ok tt, add_parts b ([(JoinType_text type ++ " JOIN")%string;
                               quoted_name table]
                              ++ alias_parts alias ++ on_parts type on)%list))
    /\ on_parts CROSS on = []
    /\ join CROSS table on alias b = join CROSS table None alias b
    /\ join type table (Some "") alias b = join type table None alias b.
Proof.
  intros type table on alias b.
  split; [|split; [|split]].
  - intros Ht Ha. unfold join. rewrite bind_push_part.
    rewrite (bind_ok _ _ _ _ _ (identifier_valid table _ Ht)).
    rewrite bind_push_part, add_parts_add_parts.
    assert ((if truthy alias
             then bind (push_part "AS")
                    (fun _ => bind (identifier (NameString (the_string alias)))
                                (fun a => push_part a))
             else ret tt)
              (add_parts b [(JoinType_text type ++ " JOIN")%string; quoted_name table])
            = (Ok tt, add_parts b ([(JoinType_text type ++ " JOIN")%string;
                                    quoted_name table]
                                   ++ alias_parts alias)%list)) as Halias.
    { destruct (usable_alias_cases alias Ha) as [[-> ->] | (-> & Hv & ->)].
      - now rewrite app_nil_r.
      - rewrite bind_push_part, add_parts_add_parts.
        rewrite (bind_ok _ _ _ _ _ (identifier_valid _ _ Hv)).
        now rewrite push_part_spec, add_parts_add_parts. }
    rewrite (bind_ok _ _ _ _ _ Halias).
    unfold on_parts.
    destruct (truthy on && negb (JoinType_eqb type CROSS)).
    + rewrite bind_push_part, push_part_spec, !add_parts_add_parts.
      now rewrite <- !app_assoc.
    + now rewrite app_nil_r.
  - unfold on_parts. simpl. now rewrite andb_false_r.
  - unfold join. simpl. now rewrite andb_false_r.
  - reflexivity.
Qed.

Lemma join_appends_on_unless_cross_witness :
  join LEFT "orders" (Some "o.user_id = u.id") (Some "o") newSQLBuilder
  = (Ok tt, add_parts newSQLBuilder
              ["LEFT JOIN"; "`orders`"; "AS"; "`o`";
               "ON"; "o.user_id = u.id"])
  /\ join CROSS "orders" (Some "o.user_id = u.id") None newSQLBuilder
     = (Ok tt, add_parts newSQLBuilder ["CROSS JOIN"; "`orders`"]).
Proof.
  split.
  - apply (proj1 (join_appends_on_unless_cross
                    LEFT "orders" (Some "o.user_id = u.id") (Some "o")
                    newSQLBuilder)); reflexivity.
  - apply (proj1 (join_appends_on_unless_cross
                    CROSS "orders" (Some "o.user_id = u.id") None
                    newSQLBuilder)); reflexivity.
Defined.

(** X7: [groupBy(fields)] has no guard of its own.  With valid fields,
    and also with none, it appends GROUP BY and the comma-joined quoted
    fields (the empty text for no field) and returns; [*] is not a
    wildcard here: a list containing it makes [groupBy] throw
    [SQLInjectionError] for its leftmost invalid name, GROUP BY already
    appended. *)
Theorem groupBy_accepts_empty_rejects_star :
  forall (fields : list string) (b : SQLBuilder),
    (Forall (fun f => valid_name f = true) fields ->
       groupBy fields b
       = (Ok tt, add_parts b ["GROUP BY";
                              JsString.join ", " (map quoted_name fields)]))
    /\ groupBy [] b = (Ok tt, add_parts b ["GROUP BY"; ""])
    /\ (In "*" fields ->
        exists pre f post,
          fields = (pre ++ f :: post)%list
          /\ Forall (fun n => valid_name n = true) pre
          /\ valid_name f = false
          /\ groupBy fields b
             = (Throw (SQLInjectionError (invalid_identifier_message f)
                                         (Some f)),
                add_parts b ["GROUP BY"])).
Proof.
  intros fields b. unfold groupBy.
  split; [|split].
  - intros Hv. rewrite bind_push_part.
    rewrite (bind_ok _ _ _ _ _ (mapM_identifier_valid fields _ Hv)).
    now rewrite push_part_spec, add_parts_add_parts.
  - rewrite bind_push_part.
    rewrite (bind_ok _ _ _ _ _ (mapM_identifier_valid [] _ (Forall_nil _))).
    now rewrite push_part_spec, add_parts_add_parts.
  - intros Hstar.
    destruct (names_valid_or_leftmost fields)
      as [Hv | (pre & f & post & E & Hpre & Hf)].
    + rewrite Forall_forall in Hv. specialize (Hv "*" Hstar). discriminate.
    + exists pre, f, post. repeat split; auto.
      rewrite bind_push_part. subst fields.
      now rewrite (bind_throw _ _ _ _ _
                     (mapM_identifier_leftmost pre f post _ Hpre Hf)).
Qed.

Lemma groupBy_accepts_empty_rejects_star_witness :
  groupBy ["country"; "city"] newSQLBuilder
  = (Ok tt, add_parts newSQLBuilder ["GROUP BY"; "`country`, `city`"])
  /\ exists pre f post,
       ["country"; "*"] = (pre ++ f :: post)%list
       /\ Forall (fun n => valid_name n = true) pre
       /\ valid_name f = false
       /\ groupBy ["country"; "*"] newSQLBuilder
          = (Throw (SQLInjectionError (invalid_identifier_message f)
                                      (Some f)),
             add_parts newSQLBuilder ["GROUP BY"]).
Proof.
  split.
  - apply (proj1 (groupBy_accepts_empty_rejects_star
                    ["country"; "city"] newSQLBuilder)).
    repeat constructor.
  - apply (proj2 (proj2 (groupBy_accepts_empty_rejects_star
                           ["country"; "*"] newSQLBuilder))).
    simpl. auto.
Defined.

End FromJoinGroupBy.

(* ------------------------------------------------------------------ *)
(** ** Clauses with values: VALUES and SET *)
(* ------------------------------------------------------------------ *)

Section StoredFacts.
Context {rt : Js.Runtime}.
Import Ident JsString Js Builder.

Lemma mapM_cons {A B} (f : A -> M B) x l :
  mapM f (x :: l)
  = bind (f x) (fun y => bind (mapM f l) (fun ys => ret (y :: ys))).
Proof. reflexivity. Qed.

Lemma grown_add_parameter b w l ws :
  grown (add_parameter b w) l ws = grown b l (w :: ws).
Proof.
  unfold grown, add_parameter. simpl. rewrite <- app_assoc. simpl.
  f_equal. lia.
Qed.

Lemma params_ok vs : forall ws b,
  stored_as vs ws ->
  params vs b = (Ok (placeholders_from (paramCounter b) vs ws), grown b [] ws).
Proof.
  unfold params.
  induction vs as [|v vs IH]; intros ws b H;
    inversion H as [|v0 w vs0 ws0 Hw Hws]; subst; simpl.
  - now rewrite grown_nil.
  - rewrite (bind_ok _ _ _ _ _ (param_ok v w b Hw)).
    rewrite (bind_ok _ _ _ _ _ (IH ws0 (add_parameter b w) Hws)).
    unfold ret. now rewrite grown_add_parameter.
Qed.

Lemma params_stored vs phs b b' :
  params vs b = (Ok phs, b') ->
  exists ws,
    stored_as vs ws
    /\ phs = placeholders_from (paramCounter b) vs ws
    /\ b' = grown b [] ws.
Proof.
  intros H. apply params_inv in H as (ws & Hws & -> & ->).
  exists ws. repeat split; auto. apply fold_add_parameter_grown.
Qed.

Lemma stored_as_length vs ws : stored_as vs ws -> List.length ws = List.length vs.
Proof. intros H. symmetry. exact (Forall2_length H). Qed.

Lemma assignment_ok key v w b :
  valid_name key = true -> paramValue_of v = Ok w ->
  assignment (key, v) b
  = (Ok (quoted_name key ++ " = "
         ++ placeholder (paramCounter b) (inferClickHouseType w v)),
     add_parameter b w).
Proof.
  intros Hk Hw. unfold assignment.
  rewrite (bind_ok _ _ _ _ _ (identifier_valid key b Hk)).
  now rewrite (bind_ok _ _ _ _ _ (param_ok v w b Hw)).
Qed.

Lemma assignment_inv key v text b b' :
  assignment (key, v) b = (Ok text, b') ->
  exists w,
    valid_name key = true /\ paramValue_of v = Ok w
    /\ text = quoted_name key ++ " = "
              ++ placeholder (paramCounter b) (inferClickHouseType w v)
    /\ b' = add_parameter b w.
Proof.
  unfold assignment. unfold bind at 1.
  destruct (identifier (NameString key) b) as [[q|e] b1] eqn:E1;
    [|discriminate].
  apply identifier_ok in E1 as (Hk & -> & ->).
  unfold bind at 1.
  destruct (param v b) as [[p|e] b2] eqn:E2; [|discriminate].
  apply param_inv in E2 as (w & Hw & -> & ->).
  intros H. injection H as <- <-. now exists w.
Qed.

Lemma assignments_ok entries : forall ws b,
  Forall (fun e => valid_name (fst e) = true) entries ->
  stored_as (map snd entries) ws ->
  mapM assignment entries b
  = (Ok (assignments_from (paramCounter b) entries ws), grown b [] ws).
Proof.
  induction entries as [|[key v] entries IH]; intros ws b Hk Hs;
    inversion Hs as [|v0 w vs0 ws0 Hw Hws]; subst; simpl.
  - now rewrite grown_nil.
  - inversion Hk as [|e0 es0 Hkey Hkeys]; subst. simpl in Hkey.
    rewrite (bind_ok _ _ _ _ _ (assignment_ok key v w b Hkey Hw)).
    rewrite (bind_ok _ _ _ _ _ (IH ws0 (add_parameter b w) Hkeys Hws)).
    unfold ret. now rewrite grown_add_parameter.
Qed.

Lemma assignments_inv entries : forall texts b b',
  mapM assignment entries b = (Ok texts, b') ->
  exists ws,
    Forall (fun e => valid_name (fst e) = true) entries
    /\ stored_as (map snd entries) ws
    /\ texts = assignments_from (paramCounter b) entries ws
    /\ b' = grown b [] ws.
Proof.
  induction entries as [|[key v] entries IH]; intros texts b b' H.
  - injection H as <- <-. exists []. rewrite grown_nil.
    repeat split; constructor.
  - rewrite mapM_cons in H. unfold bind at 1 in H.
    destruct (assignment (key, v) b) as [[text|e] b1] eqn:E1; [|discriminate].
    apply assignment_inv in E1 as (w & Hk & Hw & -> & ->).
    unfold bind at 1 in H.
    destruct (mapM assignment entries (add_parameter b w))
      as [[texts'|e] b2] eqn:E2; [|discriminate].
    injection H as <- <-.
    apply IH in E2 as (ws & Hks & Hws & -> & ->).
    exists (w :: ws). rewrite grown_add_parameter.
    repeat split; try (constructor; assumption).
Qed.

End StoredFacts.

Section RowsFacts.
Context {rt : Js.Runtime}.
Import Ident JsString Js Builder.

Lemma firstn_skipn_app {A} (l1 l2 : list A) n :
  List.length l1 = n ->
  firstn n (l1 ++ l2) = l1 /\ skipn n (l1 ++ l2) = l2.
Proof.
  intros <-. induction l1 as [|x l1 [IH1 IH2]]; simpl; [auto|].
  now rewrite IH1, IH2.
Qed.

Lemma rows_ok rows : forall ws b,
  stored_as (List.concat rows) ws ->
  mapM (fun row =>
          bind (mapM param row)
               (fun placeholders =>
                  ret ("(" ++ JsString.join ", " placeholders ++ ")")))
       rows b
  = (Ok (value_sets (paramCounter b) rows ws), grown b [] ws).
Proof.
  induction rows as [|row rows IH]; intros ws b H.
  - inversion H; subst. simpl. now rewrite grown_nil.
  - simpl List.concat in H. apply Forall2_app_inv_l in H as (ws1 & ws2 & H1 & H2 & ->).
    rewrite mapM_cons.
    pose proof (params_ok row ws1 b H1) as Hrow. unfold params in Hrow.
    rewrite (bind_ok _ _ _ _ _ (bind_ok _ _ _ _ _ Hrow)).
    unfold ret at 1.
    rewrite (bind_ok _ _ _ _ _ (IH ws2 (grown b [] ws1) H2)).
    unfold ret. simpl value_sets.
    destruct (firstn_skipn_app ws1 ws2 (List.length row)
                (stored_as_length _ _ H1)) as [-> ->].
    rewrite grown_grown. simpl paramCounter.
    now rewrite (stored_as_length _ _ H1).
Qed.

Lemma rows_inv rows : forall texts b b',
  mapM (fun row =>
          bind (mapM param row)
               (fun placeholders =>
                  ret ("(" ++ JsString.join ", " placeholders ++ ")")))
       rows b
  = (Ok texts, b') ->
  exists ws, stored_as (List.concat rows) ws.
Proof.
  induction rows as [|row rows IH]; intros texts b b' H.
  - exists []. constructor.
  - rewrite mapM_cons in H. unfold bind at 1 in H.
    unfold bind at 1 in H.
    destruct (mapM param row b) as [[phs|e] b1] eqn:E1; [|discriminate].
    apply params_stored in E1 as (ws1 & H1 & _ & ->).
    unfold ret at 1 in H. unfold bind at 1 in H.
    match type of H with
    | context [mapM ?f rows ?b0] =>
        destruct (mapM f rows b0) as [[ts|e] b2] eqn:E2; [|discriminate]
    end.
    apply IH in E2 as (ws2 & H2).
    exists (ws1 ++ ws2)%list. simpl. now apply Forall2_app.
Qed.

End RowsFacts.

Section ValuesSetClaims.
Context {rt : Js.Runtime}.
Import Ident JsString Js Builder.

(** X8: [values(rows)] returns exactly when every value of every row can
    be stored.  It then appends VALUES and the comma-joined parenthesized
    placeholder lists, stores the values of all rows in one flat list,
    row after row, and numbers the placeholders through the rows: the
    counter advances by the total number of values. *)
Theorem values_flat_row_major :
  forall (rows : list (list JsValue)) (b : SQLBuilder),
    (forall ws,
        stored_as (List.concat rows) ws ->
        values rows b
        = (Ok tt,
           grown b ["VALUES";
                    JsString.join ", "
                      (value_sets (paramCounter b) rows ws)] ws))
    /\ (forall b',
          values rows b = (Ok tt, b') ->
          exists ws,
            stored_as (List.concat rows) ws
            /\ b' = grown b ["VALUES";
                             JsString.join ", "
                               (value_sets (paramCounter b) rows ws)] ws
            /\ paramCounter b'
               = (paramCounter b + N.of_nat (List.length (List.concat rows)))%N).
Proof.
  intros rows b.
  assert (forall ws,
             stored_as (List.concat rows) ws ->
             values rows b
             = (Ok tt,
                grown b ["VALUES";
                         JsString.join ", "
                           (value_sets (paramCounter b) rows ws)] ws)) as Hok.
  { intros ws H. unfold values. rewrite bind_push_part.
    rewrite (bind_ok _ _ _ _ _ (rows_ok rows ws _ H)).
    rewrite push_part_spec, add_parts_grown, grown_add_parts.
    reflexivity. }
  split; [exact Hok|].
  intros b' H.
  assert (exists ws, stored_as (List.concat rows) ws) as (ws & Hws).
  { revert H. unfold values. rewrite bind_push_part. unfold bind at 1.
    match goal with
    | |- context [mapM ?f rows ?b0] =>
        destruct (mapM f rows b0) as [[ts|e] b1] eqn:E; [|discriminate]
    end.
    intros _. now apply rows_inv in E. }
  exists ws. split; [assumption|].
  rewrite (Hok ws Hws) in H. injection H as <-.
  split; [reflexivity|]. simpl. now rewrite (stored_as_length _ _ Hws).
Qed.

(** X9: [set(updates)] returns exactly when every key is a valid name
    and every value can be stored.  It then appends SET and the
    comma-joined fragments [key = placeholder] in the order of the
    entries, and stores the values in that order; the placeholder of an
    entry carries the index at which its value is stored. *)
Theorem set_assignments_in_order :
  forall (updates : JsRecord) (b : SQLBuilder),
    (forall ws,
        Forall (fun e => valid_name (fst e) = true) updates ->
        stored_as (map snd updates) ws ->
        set updates b
        = (Ok tt,
           grown b ["SET";
                    JsString.join ", "
                      (assignments_from (paramCounter b) updates ws)] ws))
    /\ (forall b',
          set updates b = (Ok tt, b') ->
          exists ws,
            Forall (fun e => valid_name (fst e) = true) updates
            /\ stored_as (map snd updates) ws
            /\ b' = grown b ["SET";
                             JsString.join ", "
                               (assignments_from (paramCounter b) updates ws)]
                          ws).
Proof.
  intros updates b. split.
  - intros ws Hk Hs. unfold set, Object_entries. rewrite bind_push_part.
    rewrite (bind_ok _ _ _ _ _ (assignments_ok updates ws _ Hk Hs)).
    now rewrite push_part_spec, add_parts_grown, grown_add_parts.
  - intros b'. unfold set, Object_entries. rewrite bind_push_part.
    unfold bind at 1.
    destruct (mapM assignment updates (add_parts b ["SET"]))
      as [[texts|e] b1] eqn:E; [|discriminate].
    apply assignments_inv in E as (ws & Hk & Hs & -> & ->).
    rewrite push_part_spec, add_parts_grown, grown_add_parts.
    intros H. injection H as <-. now exists ws.
Qed.

End ValuesSetClaims.

Lemma values_flat_row_major_witness :
  Builder.values (rt := Demo.runtime)
    [[VString "John"; VBoolean true]; [VString "Jane"; VNull]]
    {| parts := ["INSERT INTO"; "`users`"; "(`name`, `active`)"];
       parameters := []; paramCounter := 0 |}
  = (Ok tt,
     {| parts := ["INSERT INTO"; "`users`"; "(`name`, `active`)"; "VALUES";
                  "({param0:String}, {param1:UInt8}), ({param2:String}, {param3:Nullable(String)})"];
        parameters := [VString "John"; VNumber 1; VString "Jane"; VNull];
        paramCounter := 4 |}).
Proof.
  apply (proj1 (values_flat_row_major (rt := Demo.runtime)
                  [[VString "John"; VBoolean true]; [VString "Jane"; VNull]]
                  {| parts := ["INSERT INTO"; "`users`"; "(`name`, `active`)"];
                     parameters := []; paramCounter := 0 |})
           [VString "John"; VNumber 1; VString "Jane"; VNull]).
  repeat constructor.
Defined.

Lemma set_assignments_in_order_witness :
  Builder.set (rt := Demo.runtime)
    [("name", VString "John"); ("age", VNumber 30)]
    {| parts := ["UPDATE"; "`users`"]; parameters := []; paramCounter := 0 |}
  = (Ok tt,
     {| parts := ["UPDATE"; "`users`"; "SET";
                  "`name` = {param0:String}, `age` = {param1:Int32}"];
        parameters := [VString "John"; VNumber 30];
        paramCounter := 2 |}).
Proof.
  apply (proj1 (set_assignments_in_order (rt := Demo.runtime)
                  [("name", VString "John"); ("age", VNumber 30)]
                  {| parts := ["UPDATE"; "`users`"];
                     parameters := []; paramCounter := 0 |})
           [VString "John"; VNumber 30]).
  - repeat constructor.
  - repeat constructor.
Defined.

(* ------------------------------------------------------------------ *)
(** ** The statements of the factories *)
(* ------------------------------------------------------------------ *)

Section StatementFacts.
Context {rt : Js.Runtime}.
Import Ident JsString Js Builder Factory.

Lemma bind_inv {A B} (m : M A) (k : A -> M B) b x b' :
  bind m k b = (Ok x, b') ->
  exists a b1, m b = (Ok a, b1) /\ k a b1 = (Ok x, b').
Proof.
  unfold bind. destruct (m b) as [[a|e] b1]; [|discriminate].
  intros H. now exists a, b1.
Qed.

Lemma run_build_inv (steps : M unit) built :
  run (bind steps (fun _ => build)) = Ok built ->
  exists b',
    steps newSQLBuilder = (Ok tt, b')
    /\ built = mkBuilt (JsString.join " " (parts b')) (parameters b').
Proof.
  unfold run, bind. destruct (steps newSQLBuilder) as [[[]|e] b'];
    [|discriminate].
  simpl. intros H. injection H as <-. now exists b'.
Qed.

Lemma run_throw {A} (m : M A) e b' :
  m newSQLBuilder = (Throw e, b') -> run m = Throw e.
Proof. intros H. unfold run. now rewrite H. Qed.

Lemma set_ok updates ws b :
  Forall (fun e => valid_name (fst e) = true) updates ->
  stored_as (map snd updates) ws ->
  set updates b
  = (Ok tt,
     grown b ["SET";
              JsString.join ", " (assignments_from (paramCounter b) updates ws)]
           ws).
Proof.
  intros Hk Hs. unfold set, Object_entries. rewrite bind_push_part.
  rewrite (bind_ok _ _ _ _ _ (assignments_ok updates ws _ Hk Hs)).
  now rewrite push_part_spec, add_parts_grown, grown_add_parts.
Qed.

Lemma set_inv updates b b' :
  set updates b = (Ok tt, b') ->
  exists ws,
    Forall (fun e => valid_name (fst e) = true) updates
    /\ stored_as (map snd updates) ws
    /\ b' = grown b ["SET";
                     JsString.join ", "
                       (assignments_from (paramCounter b) updates ws)] ws.
Proof.
  unfold set, Object_entries. rewrite bind_push_part. unfold bind at 1.
  destruct (mapM assignment updates (add_parts b ["SET"]))
    as [[texts|e] b1] eqn:E; [|discriminate].
  apply assignments_inv in E as (ws & Hk & Hs & -> & ->).
  rewrite push_part_spec, add_parts_grown, grown_add_parts.
  intros H. injection H as <-. now exists ws.
Qed.

(** The filter step of the factories. *)
Lemma filter_ok filter ws b :
  Forall (fun e => valid_name (fst e) = true) filter ->
  stored_as (map snd filter) ws ->
  (if (0 <? List.length (Object_keys filter))%nat
   then where_of filter else ret tt) b
  = (Ok tt, grown b (where_parts (paramCounter b) filter ws) ws).
Proof.
  intros Hk Hs. destruct filter as [|entry filter].
  - inversion Hs; subst. simpl. now rewrite grown_nil.
  - change ((0 <? List.length (Object_keys (entry :: filter)))%nat) with true.
    cbv iota. unfold where_of, Object_entries.
    rewrite (bind_ok _ _ _ _ _ (assignments_ok _ ws b Hk Hs)).
    unfold where_. rewrite bind_push_part, push_part_spec.
    now rewrite add_parts_add_parts, add_parts_grown.
Qed.

Lemma filter_inv filter b b' :
  (if (0 <? List.length (Object_keys filter))%nat
   then where_of filter else ret tt) b = (Ok tt, b') ->
  exists ws,
    Forall (fun e => valid_name (fst e) = true) filter
    /\ stored_as (map snd filter) ws
    /\ b' = grown b (where_parts (paramCounter b) filter ws) ws.
Proof.
  destruct filter as [|entry filter].
  - simpl. intros H. injection H as <-. exists [].
    rewrite grown_nil. repeat split; constructor.
  - change ((0 <? List.length (Object_keys (entry :: filter)))%nat) with true.
    cbv iota. unfold where_of, Object_entries. intros H.
    apply bind_inv in H as (texts & b1 & E & H).
    apply assignments_inv in E as (ws & Hk & Hs & -> & ->).
    exists ws. split; [assumption|]. split; [assumption|].
    revert H. unfold where_. rewrite bind_push_part, push_part_spec.
    rewrite add_parts_add_parts, add_parts_grown.
    intros H. now injection H as <-.
Qed.

Lemma keyword_then_identifier_ok keyword table b :
  valid_name table = true ->
  bind (push_part keyword)
       (fun _ => bind (identifier (NameString table)) (fun t => push_part t)) b
  = (Ok tt, add_parts b [keyword; quoted_name table]).
Proof.
  intros Ht. rewrite bind_push_part.
  rewrite (bind_ok _ _ _ _ _ (identifier_valid table _ Ht)).
  now rewrite push_part_spec, add_parts_add_parts.
Qed.

Lemma keyword_then_identifier_throw keyword table b :
  valid_name table = false ->
  bind (push_part keyword)
       (fun _ => bind (identifier (NameString table)) (fun t => push_part t)) b
  = (Throw (SQLInjectionError (invalid_identifier_message table) (Some table)),
     add_parts b [keyword]).
Proof.
  intros Ht. rewrite bind_push_part.
  now rewrite (bind_throw _ _ _ _ _ (identifier_invalid table _ Ht)).
Qed.

Lemma keyword_then_identifier_inv keyword table b b' :
  bind (push_part keyword)
       (fun _ => bind (identifier (NameString table)) (fun t => push_part t)) b
  = (Ok tt, b') ->
  valid_name table = true /\ b' = add_parts b [keyword; quoted_name table].
Proof.
  destruct (valid_name table) eqn:Ht.
  - rewrite (keyword_then_identifier_ok keyword table b Ht).
    intros H. injection H as <-. now split.
  - rewrite (keyword_then_identifier_throw keyword table b Ht). discriminate.
Qed.

Lemma grown_new l ws :
  grown newSQLBuilder l ws
  = {| parts := l; parameters := ws;
       paramCounter := N.of_nat (List.length ws) |}.
Proof. reflexivity. Qed.

End StatementFacts.

Section DeleteUpdateClaims.
Context {rt : Js.Runtime}.
Import Ident JsString Js Builder Factory.

Lemma buildDelete_ok table filter ws :
  valid_name table = true ->
  Forall (fun e => valid_name (fst e) = true) filter ->
  stored_as (map snd filter) ws ->
  buildDelete table filter
  = Ok (mkBuilt
          (JsString.join " " (["DELETE FROM"; quoted_name table]
                              ++ where_parts 0 filter ws)%list)
          ws).
Proof.
  intros Ht Hk Hs. unfold buildDelete, buildDelete_steps.
  erewrite run_then_build.
  2:{ unfold deleteFrom.
      rewrite (bind_ok _ _ _ _ _ (keyword_then_identifier_ok _ table _ Ht)).
      rewrite (filter_ok filter ws _ Hk Hs). rewrite grown_add_parts.
      reflexivity. }
  reflexivity.
Qed.

Lemma buildDelete_inv table filter built :
  buildDelete table filter = Ok built ->
  exists ws,
    valid_name table = true
    /\ Forall (fun e => valid_name (fst e) = true) filter
    /\ stored_as (map snd filter) ws
    /\ built
       = mkBuilt
           (JsString.join " " (["DELETE FROM"; quoted_name table]
                               ++ where_parts 0 filter ws)%list)
           ws.
Proof.
  intros H. unfold buildDelete in H.
  apply run_build_inv in H as (b' & H & ->).
  unfold buildDelete_steps, deleteFrom in H.
  apply bind_inv in H as ([] & b1 & H1 & H2).
  apply keyword_then_identifier_inv in H1 as (Ht & ->).
  apply filter_inv in H2 as (ws & Hk & Hs & ->).
  exists ws. repeat split; auto.
Qed.

(** X10: [buildDelete(table, filter)] returns exactly when the table
    and every key of the filter are valid names and every value can be
    stored.  The text is then DELETE FROM, the quoted table and, when
    the filter has keys, WHERE and the fragments [key = placeholder]
    joined by AND, numbered from 0 in the order of the entries; the
    parameters are the stored values in that order. *)
Theorem buildDelete_statement :
  forall (table : string) (filter : JsRecord),
    (forall ws,
        valid_name table = true ->
        Forall (fun e => valid_name (fst e) = true) filter ->
        stored_as (map snd filter) ws ->
        buildDelete table filter
        = Ok (mkBuilt
                (JsString.join " " (["DELETE FROM"; quoted_name table]
                                    ++ where_parts 0 filter ws)%list)
                ws))
    /\ (forall built,
          buildDelete table filter = Ok built ->
          exists ws,
            valid_name table = true
            /\ Forall (fun e => valid_name (fst e) = true) filter
            /\ stored_as (map snd filter) ws
            /\ built
               = mkBuilt
                   (JsString.join " " (["DELETE FROM"; quoted_name table]
                                       ++ where_parts 0 filter ws)%list)
                   ws).
Proof.
  intros table filter. split.
  - intros ws. apply buildDelete_ok.
  - apply buildDelete_inv.
Qed.

Lemma buildUpdate_ok table data filter wsd wsf :
  valid_name table = true ->
  Forall (fun e => valid_name (fst e) = true) data ->
  stored_as (map snd data) wsd ->
  Forall (fun e => valid_name (fst e) = true) filter ->
  stored_as (map snd filter) wsf ->
  buildUpdate table data filter
  = Ok (mkBuilt
          (JsString.join " "
             (["UPDATE"; quoted_name table; "SET";
               JsString.join ", " (assignments_from 0 data wsd)]
              ++ where_parts (N.of_nat (List.length wsd)) filter wsf)%list)
          (wsd ++ wsf)%list).
Proof.
  intros Ht Hkd Hsd Hkf Hsf. unfold buildUpdate, buildUpdate_steps.
  erewrite run_then_build.
  2:{ unfold update.
      rewrite (bind_ok _ _ _ _ _ (keyword_then_identifier_ok _ table _ Ht)).
      rewrite (bind_ok _ _ _ _ _ (set_ok data wsd _ Hkd Hsd)).
      rewrite (filter_ok filter wsf _ Hkf Hsf).
      rewrite grown_add_parts, grown_grown. reflexivity. }
  reflexivity.
Qed.

Lemma buildUpdate_inv table data filter built :
  buildUpdate table data filter = Ok built ->
  exists wsd wsf,
    valid_name table = true
    /\ Forall (fun e => valid_name (fst e) = true) data
    /\ stored_as (map snd data) wsd
    /\ Forall (fun e => valid_name (fst e) = true) filter
    /\ stored_as (map snd filter) wsf
    /\ built
       = mkBuilt
           (JsString.join " "
              (["UPDATE"; quoted_name table; "SET";
                JsString.join ", " (assignments_from 0 data wsd)]
               ++ where_parts (N.of_nat (List.length wsd)) filter wsf)%list)
           (wsd ++ wsf)%list.
Proof.
  intros H. unfold buildUpdate in H.
  apply run_build_inv in H as (b' & H & ->).
  unfold buildUpdate_steps, update in H.
  apply bind_inv in H as ([] & b1 & H1 & H).
  apply keyword_then_identifier_inv in H1 as (Ht & ->).
  apply bind_inv in H as ([] & b2 & H2 & H3).
  apply set_inv in H2 as (wsd & Hkd & Hsd & ->).
  apply filter_inv in H3 as (wsf & Hkf & Hsf & ->).
  exists wsd, wsf. rewrite grown_add_parts, grown_grown.
  repeat split; auto.
Qed.

(** X11: [buildUpdate(table, data, filter)] returns exactly when the
    table and all keys are valid names and all values can be stored.
    The parameters are then the stored values of [data] followed by
    those of [filter]; the SET fragments are numbered from 0 and the
    WHERE fragments go on from the number of SET values, so that every
    placeholder carries the index of its value. *)
Theorem buildUpdate_statement :
  forall (table : string) (data filter : JsRecord),
    (forall wsd wsf,
        valid_name table = true ->
        Forall (fun e => valid_name (fst e) = true) data ->
        stored_as (map snd data) wsd ->
        Forall (fun e => valid_name (fst e) = true) filter ->
        stored_as (map snd filter) wsf ->
        buildUpdate table data filter
        = Ok (mkBuilt
                (JsString.join " "
                   (["UPDATE"; quoted_name table; "SET";
                     JsString.join ", " (assignments_from 0 data wsd)]
                    ++ where_parts (N.of_nat (List.length wsd)) filter wsf)%list)
                (wsd ++ wsf)%list))
    /\ (forall built,
          buildUpdate table data filter = Ok built ->
          exists wsd wsf,
            valid_name table = true
            /\ Forall (fun e => valid_name (fst e) = true) data
            /\ stored_as (map snd data) wsd
            /\ Forall (fun e => valid_name (fst e) = true) filter
            /\ stored_as (map snd filter) wsf
            /\ built
               = mkBuilt
                   (JsString.join " "
                      (["UPDATE"; quoted_name table; "SET";
                        JsString.join ", " (assignments_from 0 data wsd)]
                       ++ where_parts (N.of_nat (List.length wsd)) filter wsf)%list)
                   (wsd ++ wsf)%list).
Proof.
  intros table data filter. split.
  - intros wsd wsf. apply buildUpdate_ok.
  - apply buildUpdate_inv.
Qed.

End DeleteUpdateClaims.

Lemma buildDelete_statement_witness :
  Factory.buildDelete (rt := Demo.runtime) "users"
    [("id", VNumber 1); ("active", VBoolean false)]
  = Ok (mkBuilt
          "DELETE FROM `users` WHERE `id` = {param0:Int32} AND `active` = {param1:UInt8}"
          [VNumber 1; VNumber 0]).
Proof.
  apply (proj1 (buildDelete_statement (rt := Demo.runtime) "users"
                  [("id", VNumber 1); ("active", VBoolean false)])
           [VNumber 1; VNumber 0]).
  - reflexivity.
  - repeat constructor.
  - repeat constructor.
Defined.

Lemma buildUpdate_statement_witness :
  Factory.buildUpdate (rt := Demo.runtime) "users"
    [("name", VString "John"); ("age", VNumber 30)] [("id", VNumber 1)]
  = Ok (mkBuilt
          "UPDATE `users` SET `name` = {param0:String}, `age` = {param1:Int32} WHERE `id` = {param2:Int32}"
          [VString "John"; VNumber 30; VNumber 1]).
Proof.
  apply (proj1 (buildUpdate_statement (rt := Demo.runtime) "users"
                  [("name", VString "John"); ("age", VNumber 30)]
                  [("id", VNumber 1)])
           [VString "John"; VNumber 30] [VNumber 1]).
  - reflexivity.
  - repeat constructor.
  - repeat constructor.
  - repeat constructor.
  - repeat constructor.
Defined.

Section ValuesStayOutOfTheText.
Context {rt : Js.Runtime}.
Import Ident JsString Js Builder Factory.

Lemma tag_of_stored v w :
  paramValue_of v = Ok w -> tag_of v = Some (inferClickHouseType w v).
Proof. intros H. unfold tag_of. now rewrite H. Qed.

Lemma assignments_from_same_tags f1 : forall f2 ws1 ws2 n,
  map fst f1 = map fst f2 ->
  map (fun e => tag_of (snd e)) f1 = map (fun e => tag_of (snd e)) f2 ->
  stored_as (map snd f1) ws1 ->
  stored_as (map snd f2) ws2 ->
  assignments_from n f1 ws1 = assignments_from n f2 ws2.
Proof.
  induction f1 as [|[k1 v1] f1 IH]; intros [|[k2 v2] f2] ws1 ws2 n Hk Ht H1 H2;
    try discriminate.
  - inversion H1; inversion H2; subst. reflexivity.
  - simpl in *.
    inversion H1 as [|x1 w1 l1 ws1' Hw1 Hs1]; subst.
    inversion H2 as [|x2 w2 l2 ws2' Hw2 Hs2]; subst.
    injection Hk as -> Hk. injection Ht as Ht0 Ht.
    rewrite (tag_of_stored _ _ Hw1), (tag_of_stored _ _ Hw2) in Ht0.
    injection Ht0 as ->.
    simpl. f_equal. now apply IH.
Qed.

Lemma where_parts_same_tags (f1 f2 : JsRecord) ws1 ws2 n :
  map fst f1 = map fst f2 ->
  map (fun e => tag_of (snd e)) f1 = map (fun e => tag_of (snd e)) f2 ->
  stored_as (map snd f1) ws1 ->
  stored_as (map snd f2) ws2 ->
  where_parts n f1 ws1 = where_parts n f2 ws2.
Proof.
  intros Hk Ht H1 H2.
  pose proof (assignments_from_same_tags f1 f2 ws1 ws2 n Hk Ht H1 H2) as E.
  destruct f1, f2; try discriminate; [reflexivity|].
  unfold where_parts. now rewrite E.
Qed.

Lemma stored_same_length (f1 f2 : JsRecord) ws1 ws2 :
  map fst f1 = map fst f2 ->
  stored_as (map snd f1) ws1 -> stored_as (map snd f2) ws2 ->
  List.length ws1 = List.length ws2.
Proof.
  intros Hk H1 H2.
  rewrite (stored_as_length _ _ H1), (stored_as_length _ _ H2), !length_map.
  now rewrite <- (length_map fst f1), Hk, length_map.
Qed.

(** X12: the text of a statement does not depend on the values, only
    on their tags.  When two filters (and, for [buildUpdate], two data
    records) have the same keys in the same order and values with the
    same tags, the statements [buildDelete] and [buildUpdate] return have
    the same text: a value reaches the parameter list only. *)
Theorem statement_text_independent_of_values :
  forall (table : string) (data1 data2 filter1 filter2 : JsRecord),
    map fst filter1 = map fst filter2 ->
    map (fun e => tag_of (snd e)) filter1
    = map (fun e => tag_of (snd e)) filter2 ->
    (forall built1 built2,
        buildDelete table filter1 = Ok built1 ->
        buildDelete table filter2 = Ok built2 ->
        sql built1 = sql built2)
    /\ (map fst data1 = map fst data2 ->
        map (fun e => tag_of (snd e)) data1
        = map (fun e => tag_of (snd e)) data2 ->
        forall built1 built2,
          buildUpdate table data1 filter1 = Ok built1 ->
          buildUpdate table data2 filter2 = Ok built2 ->
          sql built1 = sql built2).
Proof.
  intros table data1 data2 filter1 filter2 Hk Ht. split.
  - intros built1 built2 H1 H2.
    apply buildDelete_inv in H1 as (ws1 & _ & _ & Hs1 & ->).
    apply buildDelete_inv in H2 as (ws2 & _ & _ & Hs2 & ->).
    simpl sql.
    now rewrite (where_parts_same_tags filter1 filter2 ws1 ws2 0 Hk Ht Hs1 Hs2).
  - intros Hkd Htd built1 built2 H1 H2.
    apply buildUpdate_inv in H1 as (wd1 & wf1 & _ & _ & Hd1 & _ & Hf1 & ->).
    apply buildUpdate_inv in H2 as (wd2 & wf2 & _ & _ & Hd2 & _ & Hf2 & ->).
    simpl sql.
    rewrite (assignments_from_same_tags data1 data2 wd1 wd2 0 Hkd Htd Hd1 Hd2).
    rewrite (stored_same_length data1 data2 wd1 wd2 Hkd Hd1 Hd2).
    now rewrite (where_parts_same_tags filter1 filter2 wf1 wf2 _ Hk Ht Hf1 Hf2).
Qed.

End ValuesStayOutOfTheText.

Lemma statement_text_independent_of_values_witness :
  Factory.buildDelete (rt := Demo.runtime) "users" [("name", VString "John")]
  = Ok (mkBuilt "DELETE FROM `users` WHERE `name` = {param0:String}"
                [VString "John"])
  /\ Factory.buildDelete (rt := Demo.runtime) "users"
       [("name", VString "x' OR 1=1; DROP TABLE users--")]
     = Ok (mkBuilt "DELETE FROM `users` WHERE `name` = {param0:String}"
                   [VString "x' OR 1=1; DROP TABLE users--"])
  /\ sql (mkBuilt "DELETE FROM `users` WHERE `name` = {param0:String}"
                  [VString "John"])
     = sql (mkBuilt "DELETE FROM `users` WHERE `name` = {param0:String}"
                    [VString "x' OR 1=1; DROP TABLE users--"]).
Proof.
  split; [reflexivity|]. split; [reflexivity|].
  apply (proj1 (statement_text_independent_of_values (rt := Demo.runtime)
                  "users" [] []
                  [("name", VString "John")]
                  [("name", VString "x' OR 1=1; DROP TABLE users--")]
                  eq_refl eq_refl)).
  - reflexivity.
  - reflexivity.
Defined.

(* ------------------------------------------------------------------ *)
(** ** INSERT *)
(* ------------------------------------------------------------------ *)

Section InsertFacts.
Context {rt : Js.Runtime}.
Import Ident JsString Js Builder Factory.











Lemma buildInsert_unfold table data :
  records_of data <> [] ->
  buildInsert table data
  = run (bind (insertInto table (insert_fields (records_of data)))
           (fun _ => bind (values (insert_rows (records_of data)))
                       (fun _ => build))).
Proof.
  unfold buildInsert. fold (records_of data).
  destruct (records_of data) as [|r rs]; [congruence|]. reflexivity.
Qed.

End InsertFacts.

Section InsertClaim.
Context {rt : Js.Runtime}.
Import Ident JsString Js Factory.


End InsertClaim.


(* ------------------------------------------------------------------ *)
(** ** SELECT *)
(* ------------------------------------------------------------------ *)

Section SelectFacts.
Context {rt : Js.Runtime}.
Import Ident JsString Js Builder Factory.

Lemma keeps_parameters_select fields : steady keeps_parameters (select fields).
Proof. unfold select. repeat steady_step. Qed.

Lemma keeps_parameters_from table alias :
  steady keeps_parameters (from table alias).
Proof. unfold from. repeat steady_step. Qed.

Lemma keeps_parameters_orderBy field direction :
  steady keeps_parameters (orderBy field direction).
Proof. unfold orderBy. repeat steady_step. Qed.

Lemma keeps_parameters_limit count : steady keeps_parameters (limit count).
Proof. unfold limit. repeat steady_step. Qed.

Lemma keeps_parameters_offset count : steady keeps_parameters (offset count).
Proof. unfold offset. repeat steady_step. Qed.

Lemma keeps_parameters_ok {A} (m : M A) a b b' :
  steady keeps_parameters m -> m b = (Ok a, b') ->
  parameters b' = parameters b /\ paramCounter b' = paramCounter b.
Proof. intros Hm H. specialize (Hm b). now rewrite H in Hm. Qed.

Lemma from_inv table b b' :
  from table None b = (Ok tt, b') -> valid_name table = true.
Proof.
  unfold from. rewrite bind_push_part. intros H.
  apply bind_inv in H as (t & b1 & H1 & _).
  now apply identifier_ok in H1 as (Ht & _).
Qed.

Lemma select_inv fields b b' :
  select fields b = (Ok tt, b') -> fields <> [].
Proof. intros H ->. discriminate. Qed.

Lemma limit_inv count b b' :
  limit count b = (Ok tt, b') -> PrimFloat.ltb count 0 = false.
Proof. unfold limit. destruct (PrimFloat.ltb count 0); [discriminate | auto]. Qed.

Lemma offset_inv count b b' :
  offset count b = (Ok tt, b') -> PrimFloat.ltb count 0 = false.
Proof. unfold offset. destruct (PrimFloat.ltb count 0); [discriminate | auto]. Qed.

Lemma filter_step_of options :
  match opt_where options with
  | Some w =>
      if (0 <? List.length (Object_keys w))%nat then where_of w else ret tt
  | None => ret tt
  end
  = (if (0 <? List.length (Object_keys (filter_of options)))%nat
     then where_of (filter_of options) else ret tt).
Proof. unfold filter_of. now destruct (opt_where options). Qed.

End SelectFacts.

Section SelectStatementClaim.
Context {rt : Js.Runtime}.
Import Ident JsString Js Factory.

(** X14: when [buildSelect] returns, the table and the keys of the
    filter are valid names, the parameters are exactly the stored values
    of the filter in order (fields, ordering, LIMIT and OFFSET add none:
    the counts are written into the text), no given LIMIT or OFFSET is
    below zero, and a given field list is not empty. *)
Theorem buildSelect_returns_only_checked_statements :
  forall (table : string) (options : SelectOptions) (built : Built),
    buildSelect table options = Ok built ->
    valid_name table = true
    /\ Forall (fun e => valid_name (fst e) = true) (filter_of options)
    /\ stored_as (map snd (filter_of options)) (params built)
    /\ (forall l, opt_limit options = Some l -> PrimFloat.ltb l 0 = false)
    /\ (forall o, opt_offset options = Some o -> PrimFloat.ltb o 0 = false)
    /\ (forall fields, opt_fields options = Some fields -> fields <> []).
Proof.
  intros table options built H. unfold buildSelect in H.
  apply run_build_inv in H as (b' & H & ->). unfold buildSelect_steps in H.
  apply bind_inv in H as ([] & b1 & Hsel & H).
  apply bind_inv in H as ([] & b2 & Hfrom & H).
  apply bind_inv in H as ([] & b3 & Hfilter & H).
  apply bind_inv in H as ([] & b4 & Horder & H).
  apply bind_inv in H as ([] & b5 & Hlimit & Hoffset).
  destruct (keeps_parameters_ok _ _ _ _ (keeps_parameters_select _) Hsel)
    as [P1 _].
  destruct (keeps_parameters_ok _ _ _ _ (keeps_parameters_from _ _) Hfrom)
    as [P2 _].
  rewrite filter_step_of in Hfilter.
  apply filter_inv in Hfilter as (ws & Hk & Hs & ->).
  assert (parameters b4 = ws) as P4.
  { destruct (opt_orderBy options) as [o|].
    - assert (steady keeps_parameters
                (forEach (fun '(field, direction) =>
                            Builder.orderBy field (Some direction)) o)) as Hst.
      { apply steady_forEach;
          [apply keeps_parameters_refl | apply keeps_parameters_trans|].
        intros [field direction]. apply keeps_parameters_orderBy. }
      destruct (keeps_parameters_ok _ _ _ _ Hst Horder) as [-> _].
      simpl. now rewrite P2, P1.
    - injection Horder as <-. simpl. now rewrite P2, P1. }
  assert (parameters b5 = ws /\
          forall l, opt_limit options = Some l -> PrimFloat.ltb l 0 = false)
    as [P5 Hl].
  { destruct (opt_limit options) as [l|].
    - destruct (keeps_parameters_ok _ _ _ _ (keeps_parameters_limit _) Hlimit)
        as [-> _].
      split; [assumption|]. intros l' E. injection E as <-.
      now apply limit_inv in Hlimit.
    - injection Hlimit as <-. split; [assumption | discriminate]. }
  assert (parameters b' = ws /\
          forall o, opt_offset options = Some o -> PrimFloat.ltb o 0 = false)
    as [P6 Ho].
  { destruct (opt_offset options) as [o|].
    - destruct (keeps_parameters_ok _ _ _ _ (keeps_parameters_offset _) Hoffset)
        as [-> _].
      split; [assumption|]. intros o' E. injection E as <-.
      now apply offset_inv in Hoffset.
    - injection Hoffset as <-. split; [assumption | discriminate]. }
  simpl. rewrite P6.
  split; [now apply from_inv in Hfrom|].
  repeat split; auto.
  intros fields E. rewrite E in Hsel. now apply select_inv in Hsel.
Qed.

End SelectStatementClaim.

Lemma buildSelect_returns_only_checked_statements_witness :
  Ident.valid_name "events" = true
  /\ Forall (fun e => Ident.valid_name (fst e) = true)
            [("kind", VString "click")]
  /\ stored_as (rt := Demo.runtime) [VString "click"] [VString "click"]
  /\ (forall l, Some 10%float = Some l -> PrimFloat.ltb l 0 = false)
  /\ (forall o, @None float = Some o -> PrimFloat.ltb o 0 = false)
  /\ (forall fields, Some ["id"] = Some fields -> fields <> []).
Proof.
  exact (buildSelect_returns_only_checked_statements (rt := Demo.runtime)
           "events"
           {| opt_fields := Some ["id"];
              opt_where := Some [("kind", VString "click")];
              opt_orderBy := Some [("id", DESC)];
              opt_limit := Some 10%float;
              opt_offset := None |}
           (mkBuilt
              "SELECT `id` FROM `events` WHERE `kind` = {param0:String} ORDER BY `id` DESC LIMIT 10"
              [VString "click"])
           eq_refl).
Defined.

(* ------------------------------------------------------------------ *)
(** ** Table definitions and invalid table names *)
(* ------------------------------------------------------------------ *)

Section DdlFacts.
Import Ident JsString Js Builder Factory Exports.

Lemma mapM_columns_ok columns b :
  Forall (fun n => valid_name n = true) (map fst columns) ->
  mapM (fun '(name, type) =>
          bind (identifier (NameString name))
               (fun n => ret (n ++ " " ++ type)))
       columns b
  = (Ok (map column_def columns), b).
Proof.
  induction columns as [|[name type] columns IH]; intros H; [reflexivity|].
  inversion H as [|n ns Hn Hns]; subst. simpl in Hn.
  rewrite mapM_cons.
  rewrite (bind_ok _ _ _ _ _ (bind_ok _ _ _ _ _ (identifier_valid name b Hn))).
  unfold ret at 1.
  now rewrite (bind_ok _ _ _ _ _ (IH Hns)).
Qed.

Lemma mapM_columns_inv columns : forall b defs b',
  mapM (fun '(name, type) =>
          bind (identifier (NameString name))
               (fun n => ret (n ++ " " ++ type)))
       columns b
  = (Ok defs, b') ->
  Forall (fun n => valid_name n = true) (map fst columns)
  /\ defs = map column_def columns /\ b' = b.
Proof.
  induction columns as [|[name type] columns IH]; intros b defs b' H.
  - injection H as <- <-. repeat split. constructor.
  - rewrite mapM_cons in H.
    apply bind_inv in H as (d & b1 & H1 & H).
    apply bind_inv in H1 as (n & b0 & Hn & H1).
    apply identifier_ok in Hn as (Hn & -> & ->).
    injection H1 as <- <-.
    apply bind_inv in H as (ds & b2 & H2 & H).
    apply IH in H2 as (Hns & -> & ->).
    injection H as <- <-. repeat split. now constructor.
Qed.

Lemma bind_ok_then {A B} (m : M A) (k : A -> M B) a b b1 r :
  m b = (Ok a, b1) -> k a b1 = r -> bind m k b = r.
Proof. intros H <-. now apply bind_ok. Qed.

Lemma run_ok {A} (m : M A) a b' :
  m newSQLBuilder = (Ok a, b') -> run m = Ok a.
Proof. intros H. unfold run. now rewrite H. Qed.

Lemma run_inv {A} (m : M A) a :
  run m = Ok a -> exists b', m newSQLBuilder = (Ok a, b').
Proof.
  unfold run. destruct (m newSQLBuilder) as [r b']. simpl. intros ->.
  now exists b'.
Qed.

Lemma buildCreateTable_ok table columns options :
  Forall (fun n => valid_name n = true)
         (create_table_names table columns options) ->
  buildCreateTable table columns options
  = Ok (JsString.join " " (create_table_parts table columns options)).
Proof.
  unfold create_table_names, create_table_parts, verbatim_clause, key_list,
    buildCreateTable, pushed.
  intros H. inversion H as [|t ts Ht Hrest]; subst.
  apply Forall_app in Hrest as [Hcols Hrest].
  apply Forall_app in Hrest as [Hob Hpk].
  cbv zeta. apply run_ok with (b' := newSQLBuilder).
  eapply bind_ok_then; [apply identifier_valid; exact Ht|]. cbv beta.
  eapply bind_ok_then; [apply mapM_columns_ok; exact Hcols|]. cbv beta.
  destruct (flag (field_of ct_ifNotExists options)),
           (truthy (field_of ct_engine options)),
           (has_elements (field_of ct_orderBy options)),
           (truthy (field_of ct_partitionBy options)),
           (has_elements (field_of ct_primaryKey options));
    repeat (first
              [ reflexivity
              | eapply bind_ok_then;
                [ first [ apply mapM_identifier_valid; assumption
                        | reflexivity
                        | eapply bind_ok_then;
                          [apply mapM_identifier_valid; assumption
                          | reflexivity] ]
                | cbv beta ] ]).
Qed.

Ltac invert_steps :=
  repeat match goal with
         | H : bind _ _ _ = (Ok _, _) |- _ =>
             let a := fresh "a" in
             let b := fresh "b" in
             let H1 := fresh "H" in
             apply bind_inv in H as (a & b & H1 & H)
         | H : mapM (fun f => identifier (NameString f)) _ _ = (Ok _, _) |- _ =>
             let Hv := fresh "Hv" in
             apply mapM_identifier_ok in H as (Hv & -> & ->)
         | H : ret _ _ = (Ok _, _) |- _ =>
             unfold ret in H; inversion H; subst; clear H
         end.

Lemma buildCreateTable_inv table columns options text :
  buildCreateTable table columns options = Ok text ->
  Forall (fun n => valid_name n = true)
         (create_table_names table columns options)
  /\ text = JsString.join " " (create_table_parts table columns options).
Proof.
  unfold buildCreateTable. cbv zeta. intros H.
  apply run_inv in H as (b' & H).
  apply bind_inv in H as (t & b1 & Ht & H).
  apply identifier_ok in Ht as (Ht & -> & ->).
  apply bind_inv in H as (defs & b2 & Hc & H).
  apply mapM_columns_inv in Hc as (Hcols & -> & ->).
  unfold create_table_names, create_table_parts, verbatim_clause, key_list,
    pushed in *.
  destruct (flag (field_of ct_ifNotExists options)),
           (truthy (field_of ct_engine options)),
           (has_elements (field_of ct_orderBy options)),
           (truthy (field_of ct_partitionBy options)),
           (has_elements (field_of ct_primaryKey options));
    invert_steps;
    (split;
     [ constructor; [assumption|];
       repeat (apply Forall_app; split); auto
     | reflexivity ]).
Qed.

Lemma buildCreateTable_invalid_table table columns options :
  valid_name table = false ->
  buildCreateTable table columns options
  = Throw (SQLInjectionError (invalid_identifier_message table) (Some table)).
Proof.
  intros Ht. unfold buildCreateTable. cbv zeta.
  eapply run_throw. apply bind_throw. now apply identifier_invalid.
Qed.

Lemma buildDropTable_ok table ifExists :
  valid_name table = true ->
  buildDropTable table ifExists
  = Ok (JsString.join " "
          (["DROP TABLE"] ++ (if flag ifExists then ["IF EXISTS"] else [])
           ++ [quoted_name table])%list).
Proof.
  intros Ht. unfold buildDropTable, pushed. cbv zeta.
  apply run_ok with (b' := newSQLBuilder).
  eapply bind_ok_then; [now apply identifier_valid|].
  now destruct (flag ifExists).
Qed.

Lemma buildDropTable_invalid table ifExists :
  valid_name table = false ->
  buildDropTable table ifExists
  = Throw (SQLInjectionError (invalid_identifier_message table) (Some table)).
Proof.
  intros Ht. unfold buildDropTable. cbv zeta.
  eapply run_throw. apply bind_throw. now apply identifier_invalid.
Qed.

End DdlFacts.

Section InvalidTableClaim.
Context {rt : Js.Runtime}.
Import Ident JsString Js Factory Exports.

(** X15: an invalid table name is rejected by every factory with
    [SQLInjectionError] carrying the name, whatever the other arguments
    are: by [buildDelete], [buildUpdate], [buildDropTable] and
    [buildCreateTable] always, by [buildInsert] when there is a record,
    and by [buildSelect] when [select] accepts its field list. *)
Theorem factories_reject_invalid_table :
  forall table : string,
    valid_name table = false ->
    (forall filter,
        buildDelete table filter
        = Throw (SQLInjectionError (Builder.invalid_identifier_message table)
                                   (Some table)))
    /\ (forall data filter,
          buildUpdate table data filter
          = Throw (SQLInjectionError (Builder.invalid_identifier_message table)
                                     (Some table)))
    /\ (forall data,
          records_of data <> [] ->
          buildInsert table data
          = Throw (SQLInjectionError (Builder.invalid_identifier_message table)
                                     (Some table)))
    /\ (forall options b1,
          Builder.select
            (match opt_fields options with Some f => f | None => ["*"] end)
            newSQLBuilder = (Ok tt, b1) ->
          buildSelect table options
          = Throw (SQLInjectionError (Builder.invalid_identifier_message table)
                                     (Some table)))
    /\ (forall ifExists,
          buildDropTable table ifExists
          = Throw (SQLInjectionError (Builder.invalid_identifier_message table)
                                     (Some table)))
    /\ (forall columns options,
          buildCreateTable table columns options
          = Throw (SQLInjectionError (Builder.invalid_identifier_message table)
                                     (Some table))).
Proof.
  intros table Ht.
  split; [|split; [|split; [|split; [|split]]]].
  - intros filter. unfold buildDelete, buildDelete_steps, Builder.deleteFrom.
    eapply run_throw. eapply bind_throw. eapply bind_throw.
    now apply keyword_then_identifier_throw.
  - intros data filter. unfold buildUpdate, buildUpdate_steps, Builder.update.
    eapply run_throw. eapply bind_throw. eapply bind_throw.
    now apply keyword_then_identifier_throw.
  - intros data Hne. rewrite (buildInsert_unfold table data Hne).
    unfold Builder.insertInto.
    eapply run_throw. eapply bind_throw. rewrite bind_push_part.
    eapply bind_throw. now apply identifier_invalid.
  - intros options b1 Hsel. unfold buildSelect, buildSelect_steps.
    eapply run_throw. eapply bind_throw.
    eapply bind_ok_then; [exact Hsel|]. cbv beta.
    eapply bind_throw. unfold Builder.from. rewrite bind_push_part.
    eapply bind_throw. now apply identifier_invalid.
  - intros ifExists. now apply buildDropTable_invalid.
  - intros columns options. now apply buildCreateTable_invalid_table.
Qed.

End InvalidTableClaim.

Lemma factories_reject_invalid_table_witness :
  Factory.buildDelete (rt := Demo.runtime) "users; DROP TABLE users--"
    [("id", VNumber 1)]
  = Throw (SQLInjectionError
             (Builder.invalid_identifier_message "users; DROP TABLE users--")
             (Some "users; DROP TABLE users--"))
  /\ Factory.buildSelect (rt := Demo.runtime) "users; DROP TABLE users--"
       {| opt_fields := None; opt_where := None; opt_orderBy := None;
          opt_limit := None; opt_offset := None |}
     = Throw (SQLInjectionError
                (Builder.invalid_identifier_message "users; DROP TABLE users--")
                (Some "users; DROP TABLE users--")).
Proof.
  split.
  - apply (proj1 (factories_reject_invalid_table (rt := Demo.runtime)
                    "users; DROP TABLE users--" eq_refl)).
  - apply (proj1 (proj2 (proj2 (proj2
             (factories_reject_invalid_table (rt := Demo.runtime)
                "users; DROP TABLE users--" eq_refl))))
             {| opt_fields := None; opt_where := None; opt_orderBy := None;
                opt_limit := None; opt_offset := None |}
             (add_parts newSQLBuilder ["SELECT"; "*"])).
    reflexivity.
Defined.

Section TableDefinitionClaim.
Import Ident JsString Js Exports.

(** X16: [buildCreateTable] returns exactly when the table, the
    columns and the keys of a non-empty ORDER BY or PRIMARY KEY list are
    valid names.  The text is then CREATE TABLE, IF NOT EXISTS when
    asked, the quoted table, the parenthesized column definitions, and
    the ENGINE, ORDER BY, PARTITION BY and PRIMARY KEY clauses that are
    given, in this order.  A column type, the engine and the partition
    expression are written as given, without any check; empty key lists
    and empty texts count as absent.  [buildDropTable] returns DROP
    TABLE, IF EXISTS when asked, and the quoted table when the table is
    a valid name. *)
Theorem table_definition_statements :
  forall (table : string) (columns : list (string * string))
         (options : option CreateTableOptions) (ifExists : option bool),
    (Forall (fun n => valid_name n = true)
            (create_table_names table columns options) ->
       buildCreateTable table columns options
       = Ok (JsString.join " " (create_table_parts table columns options)))
    /\ (forall text,
          buildCreateTable table columns options = Ok text ->
          Forall (fun n => valid_name n = true)
                 (create_table_names table columns options)
          /\ text = JsString.join " "
                      (create_table_parts table columns options))
    /\ (valid_name table = true ->
          buildDropTable table ifExists
          = Ok (JsString.join " "
                  (["DROP TABLE"]
                   ++ (if flag ifExists then ["IF EXISTS"] else [])
                   ++ [quoted_name table])%list)).
Proof.
  intros table columns options ifExists. split; [|split].
  - apply buildCreateTable_ok.
  - apply buildCreateTable_inv.
  - apply buildDropTable_ok.
Qed.

Lemma table_definition_statements_witness :
  buildCreateTable "events"
    [("id", "UInt64"); ("at", "DateTime64(3, 'UTC')")]
    (Some {| ct_engine := Some "MergeTree()";
             ct_orderBy := Some ["id"; "at"];
             ct_partitionBy := Some "toYYYYMM(at)";
             ct_primaryKey := Some [];
             ct_ifNotExists := Some true |})
  = Ok "CREATE TABLE IF NOT EXISTS `events` (`id` UInt64, `at` DateTime64(3, 'UTC')) ENGINE = MergeTree() ORDER BY (`id`, `at`) PARTITION BY toYYYYMM(at)"
  /\ buildDropTable "db.events" (Some true)
     = Ok "DROP TABLE IF EXISTS `db`.`events`".
Proof.
  split.
  - apply (proj1 (table_definition_statements "events"
                    [("id", "UInt64"); ("at", "DateTime64(3, 'UTC')")]
                    (Some {| ct_engine := Some "MergeTree()";
                             ct_orderBy := Some ["id"; "at"];
                             ct_partitionBy := Some "toYYYYMM(at)";
                             ct_primaryKey := Some [];
                             ct_ifNotExists := Some true |})
                    None)).
    repeat constructor.
  - apply (proj2 (proj2 (table_definition_statements "db.events" [] None
                           (Some true)))).
    reflexivity.
Defined.

End TableDefinitionClaim.

(* ------------------------------------------------------------------ *)
(** ** Escaping reads back *)
(* ------------------------------------------------------------------ *)

Section EscapeFacts.
Import Ident JsString Js Exports.

(** Doubling the quotes of a text and closing it with one quote gives
    what the reader takes for that text. *)
Lemma read_body_doubled q v : forall rest,
  not_starting_with q rest ->
  read_quoted_body q
    (replaceAll q (String q (String q "")) v ++ String q rest)
  = Some (v, rest).
Proof.
  induction v as [|c v IH]; intros rest Hrest.
  - simpl. rewrite Ascii.eqb_refl. destruct rest as [|d rest]; [reflexivity|].
    simpl in Hrest. apply Ascii.eqb_neq in Hrest.
    now rewrite Hrest.
  - simpl replaceAll. destruct (Ascii.eqb_spec c q) as [->|Hc].
    + simpl. rewrite Ascii.eqb_refl. now rewrite (IH rest Hrest).
    + simpl. apply Ascii.eqb_neq in Hc. rewrite Hc. now rewrite (IH rest Hrest).
Qed.

Lemma doubling_inj q v1 v2 :
  replaceAll q (String q (String q "")) v1
  = replaceAll q (String q (String q "")) v2 ->
  v1 = v2.
Proof.
  intros H.
  pose proof (read_body_doubled q v1 "" I) as H1.
  pose proof (read_body_doubled q v2 "" I) as H2.
  rewrite H in H1. congruence.
Qed.

Lemma append_inj_l (s t1 t2 : string) : s ++ t1 = s ++ t2 -> t1 = t2.
Proof. induction s as [|c s IH]; simpl; intros H; [assumption|]. injection H as H. auto. Qed.

Lemma append_inj_r (s1 s2 : string) c : s1 ++ String c "" = s2 ++ String c "" -> s1 = s2.
Proof.
  revert s2. induction s1 as [|a s1 IH]; intros [|b s2] H; simpl in *.
  - reflexivity.
  - injection H as _ H. destruct s2; discriminate.
  - injection H as _ H. destruct s1; discriminate.
  - injection H as -> H. f_equal. auto.
Qed.

Lemma has_char_append c s t :
  has_char c (s ++ t) = has_char c s || has_char c t.
Proof.
  induction s as [|d s IH]; simpl; [reflexivity|].
  now rewrite IH, orb_assoc.
Qed.

Lemma has_char_replaceAll c q by_ s :
  has_char c s = false -> has_char c by_ = false ->
  has_char c (replaceAll q by_ s) = false.
Proof.
  intros Hs Hby. induction s as [|d s IH]; simpl in *; [reflexivity|].
  apply orb_false_iff in Hs as [Hd Hs].
  destruct (Ascii.eqb d q).
  - rewrite has_char_append, Hby. simpl. auto.
  - simpl. rewrite Hd. simpl. auto.
Qed.

Lemma split_tokens_sep_free sep s :
  Forall (fun t => has_char sep t = false) (split sep s).
Proof.
  induction s as [|c s IH]; simpl.
  - repeat constructor.
  - destruct (Ascii.eqb_spec c sep) as [->|Hc].
    + constructor; [reflexivity | assumption].
    + destruct (split sep s) as [|t ts]; [repeat constructor|].
      * simpl. apply Ascii.eqb_neq in Hc. now rewrite Hc.
      * inversion IH; subst. constructor; [|assumption].
        simpl. apply Ascii.eqb_neq in Hc. now rewrite Hc.
Qed.

(** Tokens without the separator are found again in their join. *)
Lemma split_join sep xs :
  xs <> [] ->
  Forall (fun t => has_char sep t = false) xs ->
  split sep (join (String sep "") xs) = xs.
Proof.
  unfold join. intros Hne H. induction H as [|x xs Hx Hxs IH]; [congruence|].
  destruct xs as [|y xs].
  - simpl. now apply split_without_sep.
  - change (String.concat (String sep "") (x :: y :: xs))
      with (x ++ String sep (String.concat (String sep "") (y :: xs))).
    rewrite (split_at_first_sep sep x _ Hx). f_equal.
    apply IH. discriminate.
Qed.

End EscapeFacts.

Section EscapeClaims.
Import Ident JsString Js Exports.

Lemma escaped_part_reads_back part :
  read_quoted "`" (escaped_part part) = Some (part, "").
Proof.
  unfold escaped_part. simpl.
  exact (read_body_doubled "`" part "" I).
Qed.

Lemma escaped_part_inj p1 p2 : escaped_part p1 = escaped_part p2 -> p1 = p2.
Proof.
  intros H. pose proof (escaped_part_reads_back p1) as H1.
  rewrite H, escaped_part_reads_back in H1. congruence.
Qed.

Lemma escaped_part_dot_free part :
  has_char "." part = false -> has_char "." (escaped_part part) = false.
Proof.
  intros H. unfold escaped_part. simpl.
  rewrite has_char_append. simpl.
  now rewrite (has_char_replaceAll "." "`" "``" part H eq_refl).
Qed.

Lemma map_escaped_part_inj l1 : forall l2,
  map escaped_part l1 = map escaped_part l2 -> l1 = l2.
Proof.
  assert (forall (a b : string) l l', a :: l = b :: l' -> a = b /\ l = l')
    as cons_inj by (intros a b l l' E; now injection E).
  induction l1 as [|x l1 IH]; intros [|y l2] H; try discriminate; auto.
  apply cons_inj in H as [Hx H]. apply escaped_part_inj in Hx.
  subst. f_equal. auto.
Qed.

Lemma escapeIdentifier_parts name :
  Builder.escapeIdentifier name
  = join "." (map escaped_part (split "." name)).
Proof. reflexivity. Qed.

Lemma escapeIdentifier_inj n1 n2 :
  Builder.escapeIdentifier n1 = Builder.escapeIdentifier n2 -> n1 = n2.
Proof.
  rewrite !escapeIdentifier_parts. intros H.
  assert (forall n,
             split "." (join "." (map escaped_part (split "." n)))
             = map escaped_part (split "." n)) as Hsplit.
  { intros n. apply split_join.
    - pose proof (split_not_nil "." n). now destruct (split "." n).
    - apply Forall_map.
      eapply Forall_impl; [|apply (split_tokens_sep_free "." n)].
      intros t. apply escaped_part_dot_free. }
  pose proof (Hsplit n1) as H1. rewrite H, Hsplit in H1.
  apply map_escaped_part_inj in H1.
  now rewrite <- (join_split "." n1), <- (join_split "." n2), H1.
Qed.

(** X17: a text escaped by [escapeString] and put between single
    quotes reads back as exactly that text, whatever it contains: the
    reader, for which a doubled quote is a quote and a single one the
    end, stops at the closing quote that was added and nowhere before.
    Hence [escapeString] is injective, and it leaves a text without
    quote as it is. *)
Theorem escapeString_reads_back :
  forall v : string,
    (forall rest,
        not_starting_with "'" rest ->
        read_quoted "'" ("'" ++ escapeString v ++ "'" ++ rest)
        = Some (v, rest))
    /\ (forall v', escapeString v = escapeString v' -> v = v')
    /\ (has_char "'" v = false -> escapeString v = v).
Proof.
  intros v. split; [|split].
  - intros rest Hrest. unfold escapeString. simpl.
    exact (read_body_doubled "'" v rest Hrest).
  - intros v'. apply doubling_inj.
  - apply replaceAll_absent.
Qed.

Lemma escapeString_reads_back_witness :
  read_quoted "'" ("'" ++ escapeString "x' OR '1'='1" ++ "'" ++ " AND b = 2")
  = Some ("x' OR '1'='1", " AND b = 2")
  /\ escapeString "O'Brien" = "O''Brien"
  /\ escapeString "plain" = "plain".
Proof.
  split; [|split].
  - apply (proj1 (escapeString_reads_back "x' OR '1'='1") " AND b = 2").
    simpl. discriminate.
  - reflexivity.
  - apply (proj2 (proj2 (escapeString_reads_back "plain"))). reflexivity.
Defined.

(** X18: quoting is injective.  Two names that [identifier] quotes to
    the same text are the same name, and [escapeIdentifier] is injective
    on all strings, valid or not: every dot-separated segment reads back
    from between its backticks, a backtick inside being doubled. *)
Theorem identifier_injective :
  (forall n1 n2 q b1 b1' b2 b2',
      Builder.identifier (NameString n1) b1 = (Ok q, b1') ->
      Builder.identifier (NameString n2) b2 = (Ok q, b2') ->
      n1 = n2)
  /\ (forall n1 n2,
        Builder.escapeIdentifier n1 = Builder.escapeIdentifier n2 -> n1 = n2)
  /\ (forall part, read_quoted "`" (escaped_part part) = Some (part, "")).
Proof.
  split; [|split].
  - intros n1 n2 q b1 b1' b2 b2' H1 H2.
    apply identifier_result in H1 as [E1 _].
    apply identifier_result in H2 as [E2 _].
    simpl in E1, E2. apply escapeIdentifier_inj. congruence.
  - apply escapeIdentifier_inj.
  - apply escaped_part_reads_back.
Qed.

Lemma identifier_injective_witness :
  "db.users" = "db.users" /\ "a`b" = "a`b".
Proof.
  split.
  - apply (proj1 identifier_injective "db.users" "db.users" "`db`.`users`"
             newSQLBuilder newSQLBuilder newSQLBuilder newSQLBuilder);
      reflexivity.
  - apply (proj1 (proj2 identifier_injective) "a`b" "a`b"). reflexivity.
Defined.

End EscapeClaims.

(* ------------------------------------------------------------------ *)
(** ** A throw in the middle of a list of values *)
(* ------------------------------------------------------------------ *)

Section ParamsThrowClaim.
Context {rt : Js.Runtime}.
Import Js Builder.

Lemma params_throw_after pre : forall ws v post e b,
  stored_as pre ws -> paramValue_of v = Throw e ->
  params (pre ++ v :: post)%list b = (Throw e, grown b [] ws).
Proof.
  unfold params.
  induction pre as [|u pre IH]; intros ws v post e b Hs Hv;
    inversion Hs as [|u0 w pre0 ws0 Hw Hws]; subst.
  - simpl app. rewrite mapM_cons.
    rewrite (bind_throw _ _ _ _ _ (param_throw v e b Hv)).
    now rewrite grown_nil.
  - simpl app. rewrite mapM_cons.
    rewrite (bind_ok _ _ _ _ _ (param_ok u w b Hw)).
    rewrite (bind_throw _ _ _ _ _ (IH ws0 v post e _ Hws Hv)).
    now rewrite grown_add_parameter.
Qed.

(** X19: [param] is all or nothing: when the conversion of the value
    throws, nothing is stored and the counter stays.  [params] is not:
    when the conversion of one value throws, the values before it stay
    stored and counted, and the values after it are not visited. *)
Theorem params_throw_keeps_earlier_values :
  forall (pre : list JsValue) (v : JsValue) (post ws : list JsValue)
         (e : Error) (b : SQLBuilder),
    stored_as pre ws ->
    paramValue_of v = Throw e ->
    param v b = (Throw e, b)
    /\ params (pre ++ v :: post)%list b = (Throw e, grown b [] ws).
Proof.
  intros pre v post ws e b Hs Hv. split.
  - now apply param_throw.
  - now apply params_throw_after.
Qed.

End ParamsThrowClaim.

Lemma params_throw_keeps_earlier_values_witness :
  Builder.param (rt := Demo.runtime) (VObject [("n", VBigInt 1)]) newSQLBuilder
  = (Throw (TypeError "Do not know how to serialize a BigInt"), newSQLBuilder)
  /\ Builder.params (rt := Demo.runtime)
       [VString "a"; VBoolean true; VObject [("n", VBigInt 1)]; VString "z"]
       newSQLBuilder
     = (Throw (TypeError "Do not know how to serialize a BigInt"),
        {| parts := [];
           parameters := [VString "a"; VNumber 1];
           paramCounter := 2 |}).
Proof.
  split.
  - apply (proj1 (params_throw_keeps_earlier_values (rt := Demo.runtime)
                    [] (VObject [("n", VBigInt 1)]) [] []
                    (TypeError "Do not know how to serialize a BigInt")
                    newSQLBuilder (Forall2_nil _) eq_refl)).
  - apply (params_throw_keeps_earlier_values (rt := Demo.runtime)
             [VString "a"; VBoolean true]
             (VObject [("n", VBigInt 1)]) [VString "z"]
             [VString "a"; VNumber 1]
             (TypeError "Do not know how to serialize a BigInt")
             newSQLBuilder).
    + repeat constructor.
    + reflexivity.
Defined.

(* ------------------------------------------------------------------ *)
(** ** The statement of [buildSelect] *)
(* ------------------------------------------------------------------ *)

Section ScanSafeFacts.
Context {rt : Js.Runtime}.
Import Ident JsString Js Builder.

Lemma prefix_is_append sub : forall s,
  String.prefix sub s = true -> exists r, s = sub ++ r.
Proof.
  induction sub as [|c sub IH]; intros s H.
  - now exists s.
  - destruct s as [|d s]; [discriminate|]. simpl in H.
    destruct (ascii_dec c d) as [<-|]; [|discriminate].
    destruct (IH s H) as (r & ->). now exists r.
Qed.

Lemma scan_safe_cons c s :
  scan_safe (String c s)
  = (if Ascii.eqb c "R"
     then match s with
          | EmptyString => false
          | String d _ => negb (Ascii.eqb d " ")
          end
     else true)
    && scan_safe s.
Proof. reflexivity. Qed.

(** The scan of [orderBy] finds nothing in such a text. *)
Lemma scan_safe_not_includes s :
  scan_safe s = true -> includes s "ORDER BY" = false.
Proof.
  induction s as [|c s IH]; intros H; [reflexivity|].
  rewrite includes_cons.
  pose proof H as H'. rewrite scan_safe_cons in H'.
  apply andb_true_iff in H' as [_ Hs].
  rewrite (IH Hs), orb_false_r.
  destruct (String.prefix "ORDER BY" (String c s)) eqn:E; [|reflexivity].
  apply prefix_is_append in E as (r & E). rewrite E in H.
  vm_compute in H. discriminate.
Qed.

Lemma scan_safe_app s t :
  scan_safe s = true -> scan_safe t = true -> scan_safe (s ++ t) = true.
Proof.
  intros Hs Ht. induction s as [|c s IH]; [assumption|].
  change (String c s ++ t) with (String c (s ++ t)).
  rewrite scan_safe_cons in Hs |- *.
  apply andb_true_iff in Hs as [Hc Hs].
  rewrite (IH Hs), andb_true_r.
  destruct (Ascii.eqb c "R"); [|reflexivity].
  destruct s; [discriminate | assumption].
Qed.

Lemma scan_safe_no_R s : has_char "R" s = false -> scan_safe s = true.
Proof.
  induction s as [|c s IH]; [reflexivity|].
  simpl has_char. intros H. apply orb_false_iff in H as [Hc Hs].
  now rewrite scan_safe_cons, Hc, (IH Hs).
Qed.

Lemma scan_safe_closed s c :
  has_char " " s = false -> Ascii.eqb c " " = false ->
  Ascii.eqb c "R" = false ->
  scan_safe (s ++ String c "") = true.
Proof.
  intros Hs Hc HR. induction s as [|d s IH].
  - simpl. now rewrite HR.
  - change (String d s ++ String c "") with (String d (s ++ String c "")).
    simpl has_char in Hs. apply orb_false_iff in Hs as [Hd Hs].
    rewrite scan_safe_cons, (IH Hs), andb_true_r.
    destruct (Ascii.eqb d "R"); [|reflexivity].
    destruct s as [|e s]; simpl.
    + now rewrite Hc.
    + simpl in Hs. apply orb_false_iff in Hs as [-> _]. reflexivity.
Qed.

Lemma scan_safe_join sep l :
  scan_safe sep = true -> Forall (fun s => scan_safe s = true) l ->
  scan_safe (JsString.join sep l) = true.
Proof.
  intros Hsep. unfold JsString.join. induction 1 as [|x l Hx Hl IH]; [reflexivity|].
  simpl. destruct l as [|y l]; [assumption|].
  apply scan_safe_app; [assumption|]. now apply scan_safe_app.
Qed.

Lemma word_char_not_space c : word_char c = true -> Ascii.eqb c " " = false.
Proof.
  destruct c as [[|] [|] [|] [|] [|] [|] [|] [|]];
    vm_compute; intros; congruence.
Qed.

Lemma scan_safe_backticked t :
  valid_token t = true -> scan_safe (backticked t) = true.
Proof.
  intros Ht. unfold backticked.
  change ("`" ++ t ++ "`") with (String "`" (t ++ "`")).
  rewrite scan_safe_cons. simpl Ascii.eqb. cbv iota.
  apply scan_safe_closed; try reflexivity.
  apply (all_chars_without word_char);
    [now apply valid_token_word_chars | reflexivity].
Qed.

Lemma scan_safe_quoted_name name :
  valid_name name = true -> scan_safe (quoted_name name) = true.
Proof.
  unfold valid_name, quoted_name. intros H.
  apply scan_safe_join; [reflexivity|].
  apply Forall_forall. intros q Hq.
  apply in_map_iff in Hq as (t & <- & Ht).
  apply scan_safe_backticked.
  now apply (proj1 (forallb_forall _ _) H).
Qed.

Lemma scan_safe_placeholder n tag :
  In tag clickhouse_tags -> scan_safe (placeholder n tag) = true.
Proof.
  intros Htag. unfold placeholder.
  repeat apply scan_safe_app; try reflexivity.
  - apply scan_safe_no_R.
    apply (all_chars_without is_digit); [apply of_N_digits | reflexivity].
  - simpl in Htag.
    repeat (destruct Htag as [<-|Htag]; [reflexivity|]). contradiction.
Qed.

Lemma scan_safe_assignments entries : forall ws n,
  Forall (fun e => valid_name (fst e) = true) entries ->
  Forall (fun s => scan_safe s = true) (assignments_from n entries ws).
Proof.
  induction entries as [|[key v] entries IH]; intros ws n Hk;
    [constructor|].
  inversion Hk as [|e es Hkey Hks]; subst.
  destruct ws as [|w ws]; [constructor|].
  cbn [assignments_from]. constructor.
  - apply scan_safe_app; [now apply scan_safe_quoted_name|].
    apply scan_safe_app; [reflexivity|].
    apply scan_safe_placeholder, inferClickHouseType_in_tags.
  - now apply IH.
Qed.

Lemma scan_safe_where_parts filter ws n :
  Forall (fun e => valid_name (fst e) = true) filter ->
  Forall (fun s => scan_safe s = true) (where_parts n filter ws).
Proof.
  intros Hk. unfold where_parts. destruct filter as [|e filter];
    [constructor|].
  constructor; [reflexivity|]. constructor; [|constructor].
  apply scan_safe_join; [reflexivity|]. now apply scan_safe_assignments.
Qed.

Lemma scan_safe_fields_text fields :
  (array_includes fields "*" = false ->
   Forall (fun f => valid_name f = true) fields) ->
  scan_safe (fields_text fields) = true.
Proof.
  unfold fields_text. destruct (array_includes fields "*");
    [reflexivity|].
  intros H. apply scan_safe_join; [reflexivity|].
  apply Forall_forall. intros q Hq.
  apply in_map_iff in Hq as (f & <- & Hf).
  apply scan_safe_quoted_name.
  now apply (proj1 (Forall_forall _ _) (H eq_refl)).
Qed.

(** Before the ordering, the text of [buildSelect] has no ORDER BY. *)
Lemma select_from_where_unordered fields table filter ws n :
  (array_includes fields "*" = false ->
   Forall (fun f => valid_name f = true) fields) ->
  valid_name table = true ->
  Forall (fun e => valid_name (fst e) = true) filter ->
  includes
    (JsString.join " " (["SELECT"; fields_text fields; "FROM"; quoted_name table]
               ++ where_parts n filter ws)%list)
    "ORDER BY"
  = false.
Proof.
  intros Hf Ht Hk. apply scan_safe_not_includes.
  apply scan_safe_join; [reflexivity|].
  apply Forall_app. split; [|now apply scan_safe_where_parts].
  repeat constructor.
  - now apply scan_safe_fields_text.
  - now apply scan_safe_quoted_name.
Qed.

End ScanSafeFacts.

Section SelectSteps.
Context {rt : Js.Runtime}.
Import Ident JsString Js Builder Factory.

Lemma select_ok fields b :
  fields <> [] ->
  (array_includes fields "*" = false ->
   Forall (fun f => valid_name f = true) fields) ->
  select fields b = (Ok tt, add_parts b ["SELECT"; fields_text fields]).
Proof.
  intros Hne Hf. unfold select, fields_text.
  destruct fields as [|f fields]; [contradiction|].
  change ((List.length (f :: fields) =? 0)%nat) with false. cbv iota.
  rewrite bind_push_part.
  destruct (array_includes (f :: fields) "*").
  - now rewrite push_part_spec, add_parts_add_parts.
  - rewrite (bind_ok _ _ _ _ _ (mapM_identifier_valid _ _ (Hf eq_refl))).
    now rewrite push_part_spec, add_parts_add_parts.
Qed.

Lemma select_text_inv fields b b' :
  select fields b = (Ok tt, b') ->
  fields <> []
  /\ (array_includes fields "*" = false ->
      Forall (fun f => valid_name f = true) fields)
  /\ b' = add_parts b ["SELECT"; fields_text fields].
Proof.
  intros H.
  assert (fields <> []) as Hne by (intros ->; discriminate).
  split; [assumption|].
  assert (array_includes fields "*" = false ->
          Forall (fun f => valid_name f = true) fields) as Hf.
  { intros Hstar. revert H. unfold select.
    destruct fields as [|f fields]; [contradiction|].
    change ((List.length (f :: fields) =? 0)%nat) with false. cbv iota.
    rewrite bind_push_part, Hstar. intros H.
    apply bind_inv in H as (qs & b1 & H & _).
    now apply mapM_identifier_ok in H as (Hv & _). }
  split; [assumption|].
  rewrite (select_ok fields b Hne Hf) in H. now injection H as <-.
Qed.

Lemma from_table_ok table b :
  valid_name table = true ->
  from table None b = (Ok tt, add_parts b ["FROM"; quoted_name table]).
Proof.
  intros Ht. unfold from. rewrite bind_push_part.
  rewrite (bind_ok _ _ _ _ _ (identifier_valid table _ Ht)).
  now rewrite bind_push_part, add_parts_add_parts.
Qed.

Lemma from_table_inv table b b' :
  from table None b = (Ok tt, b') ->
  valid_name table = true /\ b' = add_parts b ["FROM"; quoted_name table].
Proof.
  intros H. pose proof (from_inv _ _ _ H) as Ht. split; [assumption|].
  rewrite (from_table_ok table b Ht) in H. now injection H as <-.
Qed.

Lemma orderBy_inv field direction b b' :
  orderBy field direction b = (Ok tt, b') -> valid_name field = true.
Proof.
  destruct (valid_name field) eqn:Hf; [reflexivity|].
  rewrite orderBy_scan.
  destruct (includes _ _); rewrite bind_push_part;
    rewrite (bind_throw _ _ _ _ _ (identifier_invalid field _ Hf));
    discriminate.
Qed.

Lemma forEach_cons {A} (f : A -> M unit) x rest :
  forEach f (x :: rest) = bind (f x) (fun _ => forEach f rest).
Proof. reflexivity. Qed.

(** The entries after the first one find the keyword and add a comma. *)
Lemma ordering_after_keyword_ok entries : forall b,
  includes (JsString.join " " (parts b)) "ORDER BY" = true ->
  Forall (fun e => valid_name (fst e) = true) entries ->
  forEach (fun '(field, direction) => orderBy field (Some direction))
          entries b
  = (Ok tt, add_parts b (flat_map next_order_parts entries)).
Proof.
  induction entries as [|[f d] rest IH]; intros b Hscan Hv.
  - simpl. now rewrite add_parts_nil.
  - inversion Hv as [|e es Hf Hrest]; subst. rewrite forEach_cons.
    rewrite (bind_ok _ _ _ _ _ (orderBy_with_comma f (Some d) b Hf Hscan)).
    rewrite IH; [|now apply includes_join_extends | assumption].
    now rewrite add_parts_add_parts.
Qed.

Lemma ordering_ok entries b :
  includes (JsString.join " " (parts b)) "ORDER BY" = false ->
  Forall (fun e => valid_name (fst e) = true) entries ->
  forEach (fun '(field, direction) => orderBy field (Some direction))
          entries b
  = (Ok tt, add_parts b (order_parts entries)).
Proof.
  intros Hscan Hv. destruct entries as [|[f d] rest].
  - simpl. now rewrite add_parts_nil.
  - inversion Hv as [|e es Hf Hrest]; subst. rewrite forEach_cons.
    rewrite (bind_ok _ _ _ _ _ (orderBy_with_keyword f (Some d) b Hf Hscan)).
    rewrite ordering_after_keyword_ok;
      [|apply (includes_join_part " " (parts b) "ORDER BY") | assumption].
    now rewrite add_parts_add_parts.
Qed.

Lemma ordering_valid entries : forall b b',
  forEach (fun '(field, direction) => orderBy field (Some direction))
          entries b
  = (Ok tt, b') ->
  Forall (fun e => valid_name (fst e) = true) entries.
Proof.
  induction entries as [|[f d] rest IH]; intros b b' H; [constructor|].
  rewrite forEach_cons in H.
  apply bind_inv in H as ([] & b1 & H1 & H).
  constructor; [now apply orderBy_inv in H1 | now apply IH in H].
Qed.

Lemma order_step_of options :
  match opt_orderBy options with
  | Some o =>
      forEach (fun '(field, direction) => orderBy field (Some direction)) o
  | None => ret tt
  end
  = forEach (fun '(field, direction) => orderBy field (Some direction))
            (ordering_of options).
Proof. unfold ordering_of. now destruct (opt_orderBy options). Qed.

Lemma limit_step_ok count b :
  (forall l, count = Some l -> PrimFloat.ltb l 0 = false) ->
  match count with Some l => limit l | None => ret tt end b
  = (Ok tt, add_parts b (count_parts "LIMIT" count)).
Proof.
  intros H. destruct count as [l|]; simpl.
  - unfold limit. rewrite (H l eq_refl).
    now rewrite bind_push_part, push_part_spec, add_parts_add_parts.
  - now rewrite add_parts_nil.
Qed.

Lemma offset_step_ok count b :
  (forall o, count = Some o -> PrimFloat.ltb o 0 = false) ->
  match count with Some o => offset o | None => ret tt end b
  = (Ok tt, add_parts b (count_parts "OFFSET" count)).
Proof.
  intros H. destruct count as [o|]; simpl.
  - unfold offset. rewrite (H o eq_refl).
    now rewrite bind_push_part, push_part_spec, add_parts_add_parts.
  - now rewrite add_parts_nil.
Qed.

Lemma limit_step_inv count b b' :
  match count with Some l => limit l | None => ret tt end b = (Ok tt, b') ->
  forall l, count = Some l -> PrimFloat.ltb l 0 = false.
Proof.
  intros H l ->. now apply limit_inv in H.
Qed.

Lemma offset_step_inv count b b' :
  match count with Some o => offset o | None => ret tt end b = (Ok tt, b') ->
  forall o, count = Some o -> PrimFloat.ltb o 0 = false.
Proof.
  intros H o ->. now apply offset_inv in H.
Qed.

(** The steps of [buildSelect] on checked options. *)
Lemma buildSelect_steps_ok table options ws :
  fields_of options <> [] ->
  (array_includes (fields_of options) "*" = false ->
   Forall (fun f => valid_name f = true) (fields_of options)) ->
  valid_name table = true ->
  Forall (fun e => valid_name (fst e) = true) (filter_of options) ->
  stored_as (map snd (filter_of options)) ws ->
  Forall (fun e => valid_name (fst e) = true) (ordering_of options) ->
  (forall l, opt_limit options = Some l -> PrimFloat.ltb l 0 = false) ->
  (forall o, opt_offset options = Some o -> PrimFloat.ltb o 0 = false) ->
  buildSelect_steps table options newSQLBuilder
  = (Ok tt, grown newSQLBuilder (select_parts table options ws) ws).
Proof.
  intros Hne Hf Ht Hk Hs Ho Hl Hoff. unfold buildSelect_steps.
  eapply bind_ok_then; [apply (select_ok _ _ Hne Hf)|].
  eapply bind_ok_then; [apply (from_table_ok _ _ Ht)|].
  rewrite filter_step_of.
  eapply bind_ok_then; [apply (filter_ok _ ws _ Hk Hs)|].
  rewrite order_step_of.
  eapply bind_ok_then.
  { apply ordering_ok; [|exact Ho].
    apply (select_from_where_unordered _ _ _ ws 0 Hf Ht Hk). }
  eapply bind_ok_then; [apply (limit_step_ok _ _ Hl)|].
  rewrite (offset_step_ok _ _ Hoff).
  unfold grown, add_parts, select_parts.
  cbn [parts parameters paramCounter newSQLBuilder].
  now rewrite <- !app_assoc.
Qed.

Lemma buildSelect_steps_inv table options b' :
  buildSelect_steps table options newSQLBuilder = (Ok tt, b') ->
  exists ws,
    fields_of options <> []
    /\ (array_includes (fields_of options) "*" = false ->
        Forall (fun f => valid_name f = true) (fields_of options))
    /\ Forall (fun e => valid_name (fst e) = true) (ordering_of options)
    /\ b' = grown newSQLBuilder (select_parts table options ws) ws.
Proof.
  intros H. pose proof H as H0. unfold buildSelect_steps in H.
  apply bind_inv in H as ([] & b1 & Hsel & H).
  apply bind_inv in H as ([] & b2 & Hfrom & H).
  apply bind_inv in H as ([] & b3 & Hfilter & H).
  apply bind_inv in H as ([] & b4 & Horder & H).
  apply bind_inv in H as ([] & b5 & Hlimit & Hoffset).
  apply select_text_inv in Hsel as (Hne & Hf & _).
  apply from_table_inv in Hfrom as (Ht & _).
  rewrite filter_step_of in Hfilter.
  apply filter_inv in Hfilter as (ws & Hk & Hs & _).
  rewrite order_step_of in Horder. apply ordering_valid in Horder.
  exists ws. repeat split; try assumption.
  rewrite (buildSelect_steps_ok table options ws Hne Hf Ht Hk Hs Horder
             (limit_step_inv _ _ _ Hlimit) (offset_step_inv _ _ _ Hoffset))
    in H0.
  now injection H0 as <-.
Qed.

End SelectSteps.

Section SelectTextClaim.
Context {rt : Js.Runtime}.
Import Ident JsString Js Factory.

(** X20: the text of [buildSelect].  On checked options (a field list
    that is not empty and is all valid names unless it has the star, a
    valid table, valid filter keys and ordering fields, no count below
    zero) it returns the parts SELECT, the fields, FROM, the table, the
    filter, the ordering, LIMIT and OFFSET joined by spaces, and the
    stored values of the filter.  The ordering writes ORDER BY before
    its first entry and a comma part before each later one: the scan of
    [orderBy] never finds the keyword in what the factory wrote before,
    whatever the names and values are.  And whenever [buildSelect]
    returns, the fields and ordering fields were checked and the text is
    this one. *)
Theorem buildSelect_statement :
  forall (table : string) (options : SelectOptions),
    (forall ws : list JsValue,
       fields_of options <> [] ->
       (array_includes (fields_of options) "*" = false ->
        Forall (fun f => valid_name f = true) (fields_of options)) ->
       valid_name table = true ->
       Forall (fun e => valid_name (fst e) = true) (filter_of options) ->
       stored_as (map snd (filter_of options)) ws ->
       Forall (fun e => valid_name (fst e) = true) (ordering_of options) ->
       (forall l, opt_limit options = Some l -> PrimFloat.ltb l 0 = false) ->
       (forall o, opt_offset options = Some o -> PrimFloat.ltb o 0 = false) ->
       buildSelect table options
       = Ok (mkBuilt (JsString.join " " (select_parts table options ws)) ws))
    /\ (forall built : Built,
          buildSelect table options = Ok built ->
          (array_includes (fields_of options) "*" = false ->
           Forall (fun f => valid_name f = true) (fields_of options))
          /\ Forall (fun e => valid_name (fst e) = true) (ordering_of options)
          /\ sql built
             = JsString.join " " (select_parts table options (params built))).
Proof.
  intros table options. split.
  - intros ws Hne Hf Ht Hk Hs Ho Hl Hoff. unfold buildSelect.
    now rewrite (run_then_build _ _
                   (buildSelect_steps_ok table options ws
                      Hne Hf Ht Hk Hs Ho Hl Hoff)).
  - intros built H. unfold buildSelect in H.
    apply run_build_inv in H as (b' & H & ->).
    apply buildSelect_steps_inv in H as (ws & _ & Hf & Ho & ->).
    repeat split; assumption.
Qed.

End SelectTextClaim.

Lemma buildSelect_statement_witness :
  Factory.buildSelect (rt := Demo.runtime) "db.users"
    {| opt_fields := Some ["id"; "name"];
       opt_where := Some [("status", VString "ORDER BY"); ("active", VBoolean true)];
       opt_orderBy := Some [("created_at", DESC); ("id", ASC)];
       opt_limit := Some 10%float;
       opt_offset := Some 20%float |}
  = Ok (mkBuilt
          ("SELECT `id`, `name` FROM `db`.`users` "
           ++ "WHERE `status` = {param0:String} AND `active` = {param1:UInt8} "
           ++ "ORDER BY `created_at` DESC , `id` ASC LIMIT 10 OFFSET 20")
          [VString "ORDER BY"; VNumber 1]).
Proof.
  apply (proj1 (buildSelect_statement (rt := Demo.runtime) "db.users"
                  {| opt_fields := Some ["id"; "name"];
                     opt_where := Some [("status", VString "ORDER BY");
                                        ("active", VBoolean true)];
                     opt_orderBy := Some [("created_at", DESC); ("id", ASC)];
                     opt_limit := Some 10%float;
                     opt_offset := Some 20%float |})
           [VString "ORDER BY"; VNumber 1]).
  - discriminate.
  - intros _. repeat constructor.
  - reflexivity.
  - repeat constructor.
  - repeat constructor.
  - repeat constructor.
  - intros l E. injection E as <-. reflexivity.
  - intros o E. injection E as <-. reflexivity.
Defined.
